(** * AppEncOpenCV: a shallow embedding of the GpuMat encoder sample

    The development follows [AppEncOpenCV/AppEncOpenCV.cpp]:
    - [CLib]: the C library routines the command line parser relies on
      ([_stricmp], [atoi], [sscanf] with the format [%dx%d]);
    - [Sdk]: the interface of the foreign libraries (CUDA driver, NvEncoder,
      OpenCV), taken as a record of oracles over an abstract world;
    - [App]: [ShowEncoderCapability], [ShowHelpAndExit], [ParseCommandLine],
      [InitializeEncoder], [EncodeCuda] and [main], written in a small
      state-and-exception monad that also keeps a log of the foreign calls;
    - [Mock]: one concrete world, with variants of its encoder and driver,
      used to run the program on examples;
    - [Hoare]: the vocabulary in which runs are described;
    - [Trace]: the foreign calls by name, the order in which each function
      makes them, and the vocabulary for how runs end, what they print, the
      exceptions and results of foreign calls and what the frames hold;
    - [CLibFacts], [MonadFacts], [ParseFacts], [EncodeFacts], [MainFacts]:
      lemmas about each layer;
    - [TraceFacts], [OutcomeFacts], [LoopFacts], [TryFacts], [FrameFacts]:
      lemmas about the order of the calls, about exits and output, about the
      loop over the arguments, about the [try] block and about input frames;
    - [RaiseFacts], [RunFacts], [ChainFacts], [ImageFacts], [MockFacts],
      [CheckFacts], [ReportFacts]: lemmas about exceptions of foreign calls,
      about the calls of a whole run, about calls that come in pairs, about
      the image in the frames, about the world of the examples, about the
      results of the driver, and about paths and messages;
    - [Encoding], [CommandLine], [Failure]: the properties the specification
      states, each marked with the number it has there;
    - [CallOrder], [Endings], [Parsing], [OutputFile], [Frames]: further
      properties of the program, numbered X1 and up. *)

From Stdlib Require Import ZArith List String Ascii Bool Lia DecimalString.
From Stdlib Require Import RelationClasses.
From Stdlib Require Import Strings.Byte.
Import ListNotations.
Local Open Scope Z_scope.
Local Open Scope string_scope.

(** ** C library routines *)

Module CLib.

(** [int] is 32 bits wide on every platform the SDK supports; a value that
    leaves the range wraps around (two's complement). *)
Definition INT_MAX : Z := 2147483647.

Definition wrap32 (z : Z) : Z := (z + 2 ^ 31) mod 2 ^ 32 - 2 ^ 31.

Definition endl : string := String (ascii_of_nat 10) EmptyString.
Definition tab : string := String (ascii_of_nat 9) EmptyString.
Definition dquote : string := String (ascii_of_nat 34) EmptyString.

(** [operator<<(int)]: decimal digits, with a leading minus sign. *)
Definition string_of_int (z : Z) : string :=
  NilEmpty.string_of_int (Z.to_int z).

Definition is_upper (c : ascii) : bool :=
  let n := nat_of_ascii c in (Nat.leb 65 n && Nat.leb n 90)%bool.

Definition tolower (c : ascii) : ascii :=
  if is_upper c then ascii_of_nat (nat_of_ascii c + 32) else c.

Fixpoint strlwr (s : string) : string :=
  match s with
  | EmptyString => EmptyString
  | String c r => String (tolower c) (strlwr r)
  end.

(** [_stricmp]: compares the lower-cased strings byte by byte; the result is
    negative, zero or positive. The program only tests it against zero. *)
Fixpoint _stricmp (a b : string) : Z :=
  match a, b with
  | EmptyString, EmptyString => 0
  | EmptyString, String _ _ => -1
  | String _ _, EmptyString => 1
  | String x a', String y b' =>
      let d := Z.of_nat (nat_of_ascii (tolower x))
               - Z.of_nat (nat_of_ascii (tolower y)) in
      if Z.eqb d 0 then _stricmp a' b' else d
  end.

(** [s[0]], the first byte of a C string (the terminator when it is empty). *)
Definition first_char (s : string) : ascii :=
  match s with
  | String c _ => c
  | EmptyString => zero
  end.

Definition isspace (c : ascii) : bool :=
  let n := nat_of_ascii c in
  (Nat.eqb n 32 || (Nat.leb 9 n && Nat.leb n 13))%bool.

Definition isdigit (c : ascii) : bool :=
  let n := nat_of_ascii c in (Nat.leb 48 n && Nat.leb n 57)%bool.

Definition digit_val (c : ascii) : Z := Z.of_nat (nat_of_ascii c) - 48.

Fixpoint skip_space (s : string) : string :=
  match s with
  | String c r => if isspace c then skip_space r else s
  | EmptyString => s
  end.

(** The longest run of decimal digits at the head of [s]: its value on top
    of [acc], how many digits were read, and what follows. *)
Fixpoint scan_digits (s : string) (acc : Z) (n : nat) : Z * nat * string :=
  match s with
  | String c r =>
      if isdigit c then scan_digits r (acc * 10 + digit_val c) (S n)
      else (acc, n, s)
  | EmptyString => (acc, n, s)
  end.

Definition scan_sign (s : string) : bool * string :=
  match s with
  | String c r =>
      if Ascii.eqb c "-" then (true, r)
      else if Ascii.eqb c "+" then (false, r)
      else (false, s)
  | EmptyString => (false, s)
  end.

(** [long] is 64 bits wide (LP64, the data model of the platforms the
    sample builds on with glibc). [strtol] does not wrap: a number out of
    the range of [long] is returned as [LONG_MAX] or [LONG_MIN]. *)
Definition LONG_MAX : Z := 2 ^ 63 - 1.
Definition LONG_MIN : Z := - 2 ^ 63.

Definition to_long (z : Z) : Z := Z.max LONG_MIN (Z.min LONG_MAX z).

(** The conversion [%d] (and the body of [atoi]): white space, an optional
    sign, then at least one digit. [None] is a matching failure. glibc
    converts the digits with [strtol] and stores the [long] it yields in an
    [int]: the number is first held to the range of [long], then cut down
    to its low 32 bits. *)
Definition scan_int (s : string) : option (Z * string) :=
  let '(neg, s1) := scan_sign (skip_space s) in
  let '(v, n, rest) := scan_digits s1 0 0 in
  if Nat.eqb n 0 then None
  else Some (wrap32 (to_long (if neg then - v else v)), rest).

Definition atoi (s : string) : Z :=
  match scan_int s with
  | Some (v, _) => v
  | None => 0
  end.

(** Whether a conversion finds a number at the head of [s]: after white
    space and an optional sign the next byte is a digit. *)
Definition starts_number (s : string) : bool :=
  isdigit (first_char (snd (scan_sign (skip_space s)))).

(** Strings of white space and strings of digits, and the number a string
    of digits writes in base ten. *)
Fixpoint all_space (s : string) : bool :=
  match s with
  | String c r => (isspace c && all_space r)%bool
  | EmptyString => true
  end.

Fixpoint all_digits (s : string) : bool :=
  match s with
  | String c r => (isdigit c && all_digits r)%bool
  | EmptyString => true
  end.

Fixpoint decimal_from (acc : Z) (s : string) : Z :=
  match s with
  | String c r => decimal_from (acc * 10 + digit_val c) r
  | EmptyString => acc
  end.

Definition decimal (s : string) : Z := decimal_from 0 s.

(** A number with the sign written before its digits. *)
Definition signed (sgn : string) (z : Z) : Z :=
  if String.eqb sgn "-" then - z else z.

(** A string that is a number and nothing else: an optional sign and one or
    more digits. *)
Definition numeric_string (s : string) : bool :=
  let '(_, n, rest) := scan_digits (snd (scan_sign s)) 0 0 in
  (negb (Nat.eqb n 0) &&
   match rest with EmptyString => true | String _ _ => false end)%bool.

(** [sscanf(s, "%dx%d", &w, &h)]: the return value (the number of items
    stored, or [EOF] when the input ends before the first conversion) and
    the values stored through the two pointers, if any. *)
Definition EOF : Z := -1.

Definition sscanf_dxd (s : string) : Z * option Z * option Z :=
  match scan_int s with
  | None =>
      (match skip_space s with EmptyString => EOF | _ => 0 end, None, None)
  | Some (w, r) =>
      match r with
      | String c r' =>
          if Ascii.eqb c "x" then
            match scan_int r' with
            | Some (h, _) => (2, Some w, Some h)
            | None => (1, Some w, None)
            end
          else (1, Some w, None)
      | EmptyString => (1, Some w, None)
      end
  end.

(** [std::find(v.begin(), v.end(), x) - v.begin()], with [None] for [v.end()].
    [std::string == const char*] compares the bytes as they are. *)
Fixpoint std_find (v : list string) (x : string) : option nat :=
  match v with
  | [] => None
  | y :: v' =>
      if String.eqb y x then Some O
      else option_map S (std_find v' x)
  end.

(** Whether [p] occurs in [s] as a contiguous run. *)
Fixpoint occurs (p s : string) : bool :=
  (String.prefix p s ||
   match s with
   | EmptyString => false
   | String _ r => occurs p r
   end)%bool.

End CLib.

(** ** Data of the foreign interfaces *)

(** The members of [NV_ENC_BUFFER_FORMAT] the sample names. *)
Inductive NV_ENC_BUFFER_FORMAT : Set :=
| NV_ENC_BUFFER_FORMAT_IYUV
| NV_ENC_BUFFER_FORMAT_NV12
| NV_ENC_BUFFER_FORMAT_YV12
| NV_ENC_BUFFER_FORMAT_YUV444
| NV_ENC_BUFFER_FORMAT_YUV420_10BIT
| NV_ENC_BUFFER_FORMAT_YUV444_10BIT
| NV_ENC_BUFFER_FORMAT_ARGB
| NV_ENC_BUFFER_FORMAT_ARGB10
| NV_ENC_BUFFER_FORMAT_AYUV
| NV_ENC_BUFFER_FORMAT_ABGR
| NV_ENC_BUFFER_FORMAT_ABGR10.

Inductive GUID : Set :=
| NV_ENC_CODEC_H264_GUID
| NV_ENC_CODEC_HEVC_GUID
| OtherGUID (n : Z).

Inductive NV_ENC_CAPS : Set :=
| NV_ENC_CAPS_SUPPORTED_RATECONTROL_MODES
| NV_ENC_CAPS_SUPPORT_YUV444_ENCODE
| NV_ENC_CAPS_SUPPORT_MEONLY_MODE
| NV_ENC_CAPS_WIDTH_MAX
| NV_ENC_CAPS_HEIGHT_MAX
| NV_ENC_CAPS_SUPPORT_10BIT_ENCODE
| NV_ENC_CAPS_SUPPORT_LOSSLESS_ENCODE
| NV_ENC_CAPS_SUPPORT_SAO.

Inductive CUresult : Set :=
| CUDA_SUCCESS
| CUDA_ERROR (code : Z).

Inductive CUmemorytype : Set :=
| CU_MEMORYTYPE_HOST
| CU_MEMORYTYPE_DEVICE.

Inductive ColorConversionCodes : Set :=
| COLOR_BGR2RGBA.

(** Handles and addresses are machine words; [NULL] is zero. *)
Definition CUdevice := Z.
Definition CUcontext := Z.
Definition pointer := Z.
Definition NULL : pointer := 0.

(** [std::vector<uint8_t>]: one encoded packet. *)
Definition packet := list byte.

(** [cv::Mat] and [cv::cuda::GpuMat], as far as the sample looks at them. *)
Record Mat : Set := { cols : Z; rows : Z; host_data : pointer }.
Record GpuMat : Set := { gpu_cols : Z; gpu_rows : Z; data : pointer }.

Record NvEncInputFrame : Set := {
  inputPtr : pointer;
  chromaOffsets : list Z;
  numChromaPlanes : Z;
  pitch : Z;
  bufferFormat : NV_ENC_BUFFER_FORMAT
}.

(** What a foreign call does to the world: it returns, or it throws an
    exception derived from [std::exception] with the text [what]. *)
Inductive ext (A W : Type) : Type :=
| Ret (a : A) (w : W)
| Thr (what : string) (w : W).
Arguments Ret {A W} a w.
Arguments Thr {A W} what w.

(** The calls into foreign code, with the arguments they receive. *)
Inductive Call : Type :=
| cuInit_ (flags : Z)
| cuDeviceGetCount_
| cuDeviceGet_ (ordinal : Z)
| cuDeviceGetName_ (len : Z) (dev : CUdevice)
| cuCtxCreate_ (flags : Z) (dev : CUdevice)
| cuCtxDestroy_ (ctx : CUcontext)
| ck_ (r : CUresult)
| imread_ (filename : string)
| upload_ (m : Mat)
| cvtColor_ (src : GpuMat) (code : ColorConversionCodes)
| download_ (g : GpuMat)
| ValidateResolution_ (nWidth nHeight : Z)
| NvEncoderInitParam_default_
| NvEncoderInitParam_ (szParam : string)
| NvEncoderCuda_ (ctx : CUcontext) (nWidth nHeight : Z)
    (eFormat : NV_ENC_BUFFER_FORMAT)
| GetCapabilityValue_ (enc : pointer) (codec : GUID) (caps : NV_ENC_CAPS)
| CreateDefaultEncoderParams_ (enc : pointer) (codec preset : GUID)
    (tuning : Z)
| SetInitParams_ (eFormat : NV_ENC_BUFFER_FORMAT)
| CreateEncoder_ (enc : pointer)
| GetNextInputFrame_ (enc : pointer)
| CopyToDeviceFrame_ (ctx : CUcontext) (pSrcFrame : pointer) (nSrcPitch : Z)
    (pDstFrame : pointer) (dstPitch width height : Z)
    (srcMemoryType : CUmemorytype) (pixelFormat : NV_ENC_BUFFER_FORMAT)
    (dstChromaOffsets : list Z) (numChromaPlanes : Z)
| EncodeFrame_ (enc : pointer)
| EndEncode_ (enc : pointer)
| DestroyEncoder_ (enc : pointer)
| ofstream_open_ (filename : string).

(** What the program got back from a call. *)
Inductive Answer : Type :=
| Returned
| Packets (vPacket : list packet)
| Raised (what : string).

(** ** The foreign libraries

    None of CUDA, NvEncoder, NvCodecUtils or OpenCV is part of the
    repository. Each entry point is an oracle over an abstract [World]
    (devices, encoder sessions, device memory, the file system). A C entry
    point returns its [CUresult] and the value it stored through its output
    pointer, if it stored one; a C++ entry point returns or throws. *)

Module Sdk.

Record t : Type := {
  World : Type;
  (** [NvEncoderInitParam] and [NV_ENC_INITIALIZE_PARAMS] with its config *)
  CLIOptions : Type;
  InitParams : Type;
  (* CUDA driver API *)
  cuInit : Z -> World -> CUresult * World;
  cuDeviceGetCount : World -> CUresult * option Z * World;
  cuDeviceGet : Z -> World -> CUresult * option CUdevice * World;
  (** the contents of the name buffer after the call *)
  cuDeviceGetName : Z -> CUdevice -> World -> CUresult * string * World;
  cuCtxCreate : Z -> CUdevice -> World -> CUresult * option CUcontext * World;
  cuCtxDestroy : CUcontext -> World -> CUresult * World;
  (* NvCodecUtils.h *)
  ck : CUresult -> World -> ext unit World;
  ValidateResolution : Z -> Z -> World -> ext unit World;
  (* OpenCV *)
  imread : string -> World -> ext Mat World;
  upload : Mat -> World -> ext GpuMat World;
  cvtColor : GpuMat -> ColorConversionCodes -> World -> ext GpuMat World;
  download : GpuMat -> World -> ext Mat World;
  (* NvEncoderCLIOptions.h *)
  NvEncoderInitParam_default : World -> ext CLIOptions World;
  NvEncoderInitParam : string -> World -> ext CLIOptions World;
  GetHelpMessage : CLIOptions -> string;
  GetEncodeGUID : CLIOptions -> GUID;
  GetPresetGUID : CLIOptions -> GUID;
  GetTuningInfo : CLIOptions -> Z;
  SetInitParams :
    CLIOptions -> InitParams -> NV_ENC_BUFFER_FORMAT -> World ->
    ext InitParams World;
  (* NvEncoderCuda.h; an encoder object is known by its address *)
  NV_ENC_INITIALIZE_PARAMS_VER : InitParams;
  NvEncoderCuda :
    CUcontext -> Z -> Z -> NV_ENC_BUFFER_FORMAT -> World -> ext pointer World;
  GetCapabilityValue : pointer -> GUID -> NV_ENC_CAPS -> World -> ext Z World;
  CreateDefaultEncoderParams :
    pointer -> InitParams -> GUID -> GUID -> Z -> World ->
    ext InitParams World;
  CreateEncoder : pointer -> InitParams -> World -> ext unit World;
  GetFrameSize : pointer -> World -> Z;
  GetEncodeWidth : pointer -> World -> Z;
  GetEncodeHeight : pointer -> World -> Z;
  GetNextInputFrame : pointer -> World -> ext NvEncInputFrame World;
  CopyToDeviceFrame :
    CUcontext -> pointer -> Z -> pointer -> Z -> Z -> Z -> CUmemorytype ->
    NV_ENC_BUFFER_FORMAT -> list Z -> Z -> World -> ext unit World;
  EncodeFrame : pointer -> World -> ext (list packet) World;
  EndEncode : pointer -> World -> ext (list packet) World;
  DestroyEncoder : pointer -> World -> ext unit World;
  (* <fstream>: whether the file could be opened for writing *)
  ofstream_open : string -> World -> bool * World;
  (** the bytes of the buffer a device pointer refers to *)
  devmem : World -> pointer -> list byte
}.

End Sdk.

(** ** The program *)

Module App.
Import CLib.

Section Program.

Variable sdk : Sdk.t.

Abbreviation World := (Sdk.World sdk).
Abbreviation CLIOptions := (Sdk.CLIOptions sdk).

(** [std::ofstream]: whether the stream is usable, and the payloads of the
    [write] calls that reached it, oldest first. The file holds their
    concatenation. A [write] on a stream that failed to open does nothing. *)
Record ofstream : Type := { good : bool; written : list packet }.

Definition contents (f : ofstream) : list byte := List.concat (written f).

(** A log entry: the call, the world it was issued in, and its answer. *)
Definition Entry : Type := Call * World * Answer.

(** The state of the process: the world outside, what went to [std::cout],
    the output stream (it is passed by reference), and the log. *)
Record St : Type := mkSt {
  world : World;
  cout : string;
  fpOut : ofstream;
  log : list Entry
}.

(** How a computation ends: with a value, with an exception in flight, or
    with the process gone through [exit]. *)
Inductive Res (A : Type) : Type :=
| Val (a : A)
| Throw (what : string)
| Exit (status : Z).
Arguments Val {A} a.
Arguments Throw {A} what.
Arguments Exit {A} status.

Definition M (A : Type) : Type := St -> Res A * St.

Definition ret {A} (a : A) : M A := fun st => (Val a, st).

Definition bind {A B} (m : M A) (k : A -> M B) : M B :=
  fun st =>
    match m st with
    | (Val a, st') => k a st'
    | (Throw what, st') => (Throw what, st')
    | (Exit status, st') => (Exit status, st')
    end.

Definition throw {A} (what : string) : M A := fun st => (Throw what, st).

Definition exit {A} (status : Z) : M A := fun st => (Exit status, st).

Notation "x <- m ;; k" := (bind m (fun x => k))
  (at level 61, m at next level, right associativity).
Notation "' p <- m ;; k" := (bind m (fun x => let p := x in k))
  (at level 61, p pattern, m at next level, right associativity).
Notation "m ;; k" := (bind m (fun _ => k))
  (at level 61, right associativity).

(** [std::cout << s] *)
Definition print (s : string) : M unit :=
  fun st =>
    (Val tt, mkSt (world st) (cout st ++ s) (fpOut st) (log st)).

(** A [const] getter of a foreign object. *)
Definition gets {A} (f : World -> A) : M A :=
  fun st => (Val (f (world st)), st).

(** A call that may throw; it is logged with its answer. *)
Definition foreign {A} (c : Call) (ans : A -> Answer)
    (f : World -> ext A World) : M A :=
  fun st =>
    match f (world st) with
    | Ret a w =>
        (Val a,
         mkSt w (cout st) (fpOut st) (log st ++ [(c, world st, ans a)]))
    | Thr what w =>
        (Throw what,
         mkSt w (cout st) (fpOut st) (log st ++ [(c, world st, Raised what)]))
    end.

(** A call into C, which cannot throw. *)
Definition foreign_c {A} (c : Call) (f : World -> A * World) : M A :=
  foreign c (fun _ => Returned) (fun w => let (a, w') := f w in Ret a w').

Definition quiet {A} (_ : A) : Answer := Returned.

(** [for (x : l) body], threading the variables the body assigns. *)
Fixpoint for_each {A S} (l : list A) (body : A -> S -> M S) (s : S) : M S :=
  match l with
  | [] => ret s
  | x :: l' => s' <- body x s ;; for_each l' body s'
  end.

(** The values of [i] in [for (int i = 0; i < n; i++)]. *)
Definition range (n : Z) : list Z := map Z.of_nat (seq 0 (Z.to_nat n)).

(** The value of an output variable after a C call that may have stored
    through the pointer to it. *)
Definition stored {A} (old : A) (s : option A) : A :=
  match s with
  | Some v => v
  | None => old
  end.

(** *** The foreign entry points, as the program calls them *)

Definition cuInit (flags : Z) : M CUresult :=
  foreign_c (cuInit_ flags) (Sdk.cuInit sdk flags).

Definition cuDeviceGetCount : M (CUresult * option Z) :=
  foreign_c cuDeviceGetCount_
    (fun w => let '(r, n, w') := Sdk.cuDeviceGetCount sdk w in (r, n, w')).

Definition cuDeviceGet (ordinal : Z) : M (CUresult * option CUdevice) :=
  foreign_c (cuDeviceGet_ ordinal)
    (fun w => let '(r, d, w') := Sdk.cuDeviceGet sdk ordinal w in (r, d, w')).

Definition cuDeviceGetName (len : Z) (dev : CUdevice) : M (CUresult * string) :=
  foreign_c (cuDeviceGetName_ len dev)
    (fun w =>
       let '(r, s, w') := Sdk.cuDeviceGetName sdk len dev w in (r, s, w')).

Definition cuCtxCreate (flags : Z) (dev : CUdevice)
  : M (CUresult * option CUcontext) :=
  foreign_c (cuCtxCreate_ flags dev)
    (fun w =>
       let '(r, c, w') := Sdk.cuCtxCreate sdk flags dev w in (r, c, w')).

Definition cuCtxDestroy (ctx : CUcontext) : M CUresult :=
  foreign_c (cuCtxDestroy_ ctx) (Sdk.cuCtxDestroy sdk ctx).

Definition ck (r : CUresult) : M unit :=
  foreign (ck_ r) quiet (Sdk.ck sdk r).

Definition ValidateResolution (nWidth nHeight : Z) : M unit :=
  foreign (ValidateResolution_ nWidth nHeight) quiet
    (Sdk.ValidateResolution sdk nWidth nHeight).

Definition imread (filename : string) : M Mat :=
  foreign (imread_ filename) quiet (Sdk.imread sdk filename).

Definition upload (m : Mat) : M GpuMat :=
  foreign (upload_ m) quiet (Sdk.upload sdk m).

Definition cvtColor (src : GpuMat) (code : ColorConversionCodes) : M GpuMat :=
  foreign (cvtColor_ src code) quiet (Sdk.cvtColor sdk src code).

Definition download (g : GpuMat) : M Mat :=
  foreign (download_ g) quiet (Sdk.download sdk g).

Definition NvEncoderInitParam_default : M CLIOptions :=
  foreign NvEncoderInitParam_default_ quiet
    (Sdk.NvEncoderInitParam_default sdk).

Definition NvEncoderInitParam (szParam : string) : M CLIOptions :=
  foreign (NvEncoderInitParam_ szParam) quiet
    (Sdk.NvEncoderInitParam sdk szParam).

Definition NvEncoderCuda (ctx : CUcontext) (nWidth nHeight : Z)
    (eFormat : NV_ENC_BUFFER_FORMAT) : M pointer :=
  foreign (NvEncoderCuda_ ctx nWidth nHeight eFormat) quiet
    (Sdk.NvEncoderCuda sdk ctx nWidth nHeight eFormat).

Definition GetCapabilityValue (enc : pointer) (codec : GUID)
    (caps : NV_ENC_CAPS) : M Z :=
  foreign (GetCapabilityValue_ enc codec caps) quiet
    (Sdk.GetCapabilityValue sdk enc codec caps).

Definition CreateDefaultEncoderParams (enc : pointer)
    (p : Sdk.InitParams sdk) (codec preset : GUID) (tuning : Z)
  : M (Sdk.InitParams sdk) :=
  foreign (CreateDefaultEncoderParams_ enc codec preset tuning) quiet
    (Sdk.CreateDefaultEncoderParams sdk enc p codec preset tuning).

Definition SetInitParams (o : CLIOptions) (p : Sdk.InitParams sdk)
    (eFormat : NV_ENC_BUFFER_FORMAT) : M (Sdk.InitParams sdk) :=
  foreign (SetInitParams_ eFormat) quiet (Sdk.SetInitParams sdk o p eFormat).

Definition CreateEncoder (enc : pointer) (p : Sdk.InitParams sdk) : M unit :=
  foreign (CreateEncoder_ enc) quiet (Sdk.CreateEncoder sdk enc p).

Definition GetNextInputFrame (enc : pointer) : M NvEncInputFrame :=
  foreign (GetNextInputFrame_ enc) quiet (Sdk.GetNextInputFrame sdk enc).

Definition CopyToDeviceFrame (ctx : CUcontext) (pSrcFrame : pointer)
    (nSrcPitch : Z) (pDstFrame : pointer) (dstPitch width height : Z)
    (srcMemoryType : CUmemorytype) (pixelFormat : NV_ENC_BUFFER_FORMAT)
    (dstChromaOffsets : list Z) (numChromaPlanes : Z) : M unit :=
  foreign
    (CopyToDeviceFrame_ ctx pSrcFrame nSrcPitch pDstFrame dstPitch width
       height srcMemoryType pixelFormat dstChromaOffsets numChromaPlanes)
    quiet
    (Sdk.CopyToDeviceFrame sdk ctx pSrcFrame nSrcPitch pDstFrame dstPitch
       width height srcMemoryType pixelFormat dstChromaOffsets
       numChromaPlanes).

(** [vPacket] is empty when it is handed over; the answer is what the
    encoder left in it. *)
Definition EncodeFrame (enc : pointer) : M (list packet) :=
  foreign (EncodeFrame_ enc) Packets (Sdk.EncodeFrame sdk enc).

Definition EndEncode (enc : pointer) : M (list packet) :=
  foreign (EndEncode_ enc) Packets (Sdk.EndEncode sdk enc).

Definition DestroyEncoder (enc : pointer) : M unit :=
  foreign (DestroyEncoder_ enc) quiet (Sdk.DestroyEncoder sdk enc).

(** [std::ofstream fpOut(path, std::ios::out | std::ios::binary)]: a fresh
    stream over a truncated file. *)
Definition ofstream_open (filename : string) : M unit :=
  ok <- foreign_c (ofstream_open_ filename) (Sdk.ofstream_open sdk filename) ;;
  fun st =>
    (Val tt,
     mkSt (world st) (cout st) {| good := ok; written := [] |} (log st)).

(** [!fpOut], negated: whether the stream is usable. *)
Definition fpOut_good : M bool := fun st => (Val (good (fpOut st)), st).

(** [fpOut.write(p.data(), p.size())] *)
Definition fpOut_write (p : packet) : M unit :=
  fun st =>
    (Val tt,
     mkSt (world st) (cout st)
       (if good (fpOut st)
        then {| good := true; written := written (fpOut st) ++ [p] |}
        else fpOut st)
       (log st)).

(** *** ShowEncoderCapability (lines 49-106) *)

Definition yes_no (v : Z) : string := if Z.eqb v 0 then "no" else "yes".

(** One line of the report: a label, then [yes] or [no]. *)
Definition show_cap (enc : pointer) (label : string) (codec : GUID)
    (caps : NV_ENC_CAPS) : M unit :=
  print (tab ++ label) ;; print "  " ;;
  v <- GetCapabilityValue enc codec caps ;;
  print (yes_no v) ;; print endl.

(** The line with the largest frame size: width, a star, height. *)
Definition show_WxH (enc : pointer) (label : string) (codec : GUID) : M unit :=
  print (tab ++ label) ;; print "  " ;;
  w <- GetCapabilityValue enc codec NV_ENC_CAPS_WIDTH_MAX ;;
  print (string_of_int w) ;; print "*" ;;
  h <- GetCapabilityValue enc codec NV_ENC_CAPS_HEIGHT_MAX ;;
  print (string_of_int h) ;; print endl.

Definition ShowEncoderCapability : M unit :=
  r <- cuInit 0 ;; ck r ;;
  let nGpu := 0 in
  '(r, n) <- cuDeviceGetCount ;;
  let nGpu := stored nGpu n in
  ck r ;;
  print ("Encoder Capability" ++ endl ++ endl) ;;
  for_each (range nGpu)
    (fun iGpu _ =>
       let cuDevice := 0 in
       '(r, d) <- cuDeviceGet iGpu ;;
       let cuDevice := stored cuDevice d in
       ck r ;;
       '(r, szDeviceName) <- cuDeviceGetName 80 cuDevice ;;
       ck r ;;
       let cuContext := NULL in
       '(r, c) <- cuCtxCreate 0 cuDevice ;;
       let cuContext := stored cuContext c in
       ck r ;;
       enc <- NvEncoderCuda cuContext 1280 720 NV_ENC_BUFFER_FORMAT_NV12 ;;
       print ("GPU " ++ string_of_int iGpu ++ " - " ++ szDeviceName
              ++ endl ++ endl) ;;
       show_cap enc ("H264:" ++ tab ++ tab) NV_ENC_CODEC_H264_GUID
         NV_ENC_CAPS_SUPPORTED_RATECONTROL_MODES ;;
       show_cap enc ("H264_444:" ++ tab) NV_ENC_CODEC_H264_GUID
         NV_ENC_CAPS_SUPPORT_YUV444_ENCODE ;;
       show_cap enc ("H264_ME:" ++ tab) NV_ENC_CODEC_H264_GUID
         NV_ENC_CAPS_SUPPORT_MEONLY_MODE ;;
       show_WxH enc ("H264_WxH:" ++ tab) NV_ENC_CODEC_H264_GUID ;;
       show_cap enc ("HEVC:" ++ tab ++ tab) NV_ENC_CODEC_HEVC_GUID
         NV_ENC_CAPS_SUPPORTED_RATECONTROL_MODES ;;
       show_cap enc ("HEVC_Main10:" ++ tab) NV_ENC_CODEC_HEVC_GUID
         NV_ENC_CAPS_SUPPORT_10BIT_ENCODE ;;
       show_cap enc ("HEVC_Lossless:" ++ tab) NV_ENC_CODEC_HEVC_GUID
         NV_ENC_CAPS_SUPPORT_LOSSLESS_ENCODE ;;
       show_cap enc ("HEVC_SAO:" ++ tab) NV_ENC_CODEC_HEVC_GUID
         NV_ENC_CAPS_SUPPORT_SAO ;;
       show_cap enc ("HEVC_444:" ++ tab) NV_ENC_CODEC_HEVC_GUID
         NV_ENC_CAPS_SUPPORT_YUV444_ENCODE ;;
       show_cap enc ("HEVC_ME:" ++ tab) NV_ENC_CODEC_HEVC_GUID
         NV_ENC_CAPS_SUPPORT_MEONLY_MODE ;;
       show_WxH enc ("HEVC_WxH:" ++ tab) NV_ENC_CODEC_HEVC_GUID ;;
       print endl ;;
       DestroyEncoder enc ;;
       r <- cuCtxDestroy cuContext ;; ck r)
    tt.

(** *** ShowHelpAndExit (lines 108-142) *)

(** The line of the help text that documents [-if]. *)
Definition help_if : string :=
  "-if              Input format: iyuv nv12 yuv444 p010 yuv444p16 bgra bgra10 ayuv abgr abgr10".

Definition help_options : string :=
  "Options:" ++ endl
  ++ "-i               Input file path" ++ endl
  ++ "-o               Output file path" ++ endl
  ++ "-s               Input resolution in this form: WxH" ++ endl
  ++ help_if ++ endl
  ++ "-gpu             Ordinal of GPU to use" ++ endl
  ++ "-outputInVidMem  Set this to 1 to enable output in Video Memory" ++ endl
  ++ "-cuStreamType    Use CU stream for pre and post processing when outputInVidMem is set to 1" ++ endl
  ++ "                 CRC of encoded frames will be computed and dumped to file with suffix '_crc.txt' added" ++ endl
  ++ "                 to file specified by -o option " ++ endl
  ++ "                 0 : both pre and post processing are on NULL CUDA stream" ++ endl
  ++ "                 1 : both pre and post processing are on SAME CUDA stream" ++ endl
  ++ "                 2 : both pre and post processing are on DIFFERENT CUDA stream" ++ endl.

(** What [oss] holds before the encoder's own help is appended. *)
Definition help_head (szBadOption : option string) : string :=
  match szBadOption with
  | Some bad => "Error parsing " ++ dquote ++ bad ++ dquote ++ endl
  | None => EmptyString
  end ++ help_options.

(** The function never returns: it throws [std::invalid_argument] when it is
    given an option, and leaves through [exit(0)] otherwise. *)
Definition ShowHelpAndExit {A} (szBadOption : option string) : M A :=
  let bThrowError :=
    match szBadOption with Some _ => true | None => false end in
  let oss := help_head szBadOption in
  p <- NvEncoderInitParam_default ;;
  let oss := oss ++ Sdk.GetHelpMessage sdk p ++ endl in
  if bThrowError then throw oss
  else print oss ;; ShowEncoderCapability ;; exit 0.

(** *** ParseCommandLine (lines 144-244) *)

(** The variables [ParseCommandLine] receives by reference, but for
    [initParam], which it assigns once at the end. *)
Record Opts : Set := mkOpts {
  szInputFileName : string;
  nWidth : Z;
  nHeight : Z;
  eFormat : NV_ENC_BUFFER_FORMAT;
  szOutputFileName : string;
  iGpu : Z;
  cuStreamType : Z
}.

Definition set_szInputFileName (v : string) (o : Opts) : Opts :=
  mkOpts v (nWidth o) (nHeight o) (eFormat o) (szOutputFileName o) (iGpu o)
    (cuStreamType o).

Definition set_szOutputFileName (v : string) (o : Opts) : Opts :=
  mkOpts (szInputFileName o) (nWidth o) (nHeight o) (eFormat o) v (iGpu o)
    (cuStreamType o).

Definition set_size (w h : Z) (o : Opts) : Opts :=
  mkOpts (szInputFileName o) w h (eFormat o) (szOutputFileName o) (iGpu o)
    (cuStreamType o).

Definition set_eFormat (v : NV_ENC_BUFFER_FORMAT) (o : Opts) : Opts :=
  mkOpts (szInputFileName o) (nWidth o) (nHeight o) v (szOutputFileName o)
    (iGpu o) (cuStreamType o).

Definition set_iGpu (v : Z) (o : Opts) : Opts :=
  mkOpts (szInputFileName o) (nWidth o) (nHeight o) (eFormat o)
    (szOutputFileName o) v (cuStreamType o).

Definition set_cuStreamType (v : Z) (o : Opts) : Opts :=
  mkOpts (szInputFileName o) (nWidth o) (nHeight o) (eFormat o)
    (szOutputFileName o) (iGpu o) v.

Definition vszFileFormatName : list string :=
  [ "iyuv"; "nv12"; "yv12"; "yuv444"; "p010"; "yuv444p16"; "bgra"; "bgra10";
    "ayuv"; "abgr"; "abgr10" ].

Definition aFormat : list NV_ENC_BUFFER_FORMAT :=
  [ NV_ENC_BUFFER_FORMAT_IYUV;
    NV_ENC_BUFFER_FORMAT_NV12;
    NV_ENC_BUFFER_FORMAT_YV12;
    NV_ENC_BUFFER_FORMAT_YUV444;
    NV_ENC_BUFFER_FORMAT_YUV420_10BIT;
    NV_ENC_BUFFER_FORMAT_YUV444_10BIT;
    NV_ENC_BUFFER_FORMAT_ARGB;
    NV_ENC_BUFFER_FORMAT_ARGB10;
    NV_ENC_BUFFER_FORMAT_AYUV;
    NV_ENC_BUFFER_FORMAT_ABGR;
    NV_ENC_BUFFER_FORMAT_ABGR10 ].

(** [!_stricmp(a, flag)] *)
Definition is_flag (a flag : string) : bool := Z.eqb (_stricmp a flag) 0.

(** One of the flags that are followed by a value. *)
Definition takes_value (a : string) : Prop :=
  is_flag a "-i" = true \/ is_flag a "-o" = true \/ is_flag a "-s" = true \/
  is_flag a "-if" = true \/ is_flag a "-gpu" = true \/
  is_flag a "-cuStreamType" = true.

(** None of the flags the loop knows. *)
Definition no_flag (a : string) : Prop :=
  is_flag a "-h" = false /\ is_flag a "-i" = false /\ is_flag a "-o" = false /\
  is_flag a "-s" = false /\ is_flag a "-if" = false /\
  is_flag a "-gpu" = false /\ is_flag a "-cuStreamType" = false.

(** [a[0] != '-'] *)
Definition no_dash (a : string) : bool := negb (Ascii.eqb (first_char a) "-").

(** [szInputFileName] and [szOutputFileName] point to the arrays
    [char szInFilePath[256]] and [char szOutFilePath[256]] of [main] (lines
    311-312), and [sprintf(buf, "%s", v)] (lines 162 and 171) writes the
    bytes of [v] and a terminator: an argument fits when it has at most 255
    bytes. For a longer one the C program writes past the array and its
    behaviour is undefined. *)
Definition PATH_SIZE : nat := 256.

Definition fits (v : string) : Prop := (String.length v < PATH_SIZE)%nat.

(** The loop over [argv[i]], [i >= 1]: [args] is what is left of [argv] from
    index [i] on, so that [++i == argc] reads "nothing follows". The inner
    function is the [while] loop that gathers the values of an encoder
    option. The two [sprintf] are assignments of the value to the variable:
    that is what they do with a value that [fits], and the loop is the
    program's on command lines whose arguments all fit; what is said of the
    paths it stores is said of such command lines only. *)
Fixpoint parse_args (args : list string) (o : Opts) (oss : string)
    {struct args} : M (Opts * string) :=
  match args with
  | [] => ret (o, oss)
  | a :: rest =>
      if is_flag a "-h" then ShowHelpAndExit None
      else if is_flag a "-i" then
        match rest with
        | [] => ShowHelpAndExit (Some "-i")
        | v :: rest' => parse_args rest' (set_szInputFileName v o) oss
        end
      else if is_flag a "-o" then
        match rest with
        | [] => ShowHelpAndExit (Some "-o")
        | v :: rest' => parse_args rest' (set_szOutputFileName v o) oss
        end
      else if is_flag a "-s" then
        match rest with
        | [] => ShowHelpAndExit (Some "-s")
        | v :: rest' =>
            let '(n, w, h) := sscanf_dxd v in
            if negb (Z.eqb 2 n) then ShowHelpAndExit (Some "-s")
            else
              parse_args rest'
                (set_size (stored (nWidth o) w) (stored (nHeight o) h) o) oss
        end
      else if is_flag a "-if" then
        match rest with
        | [] => ShowHelpAndExit (Some "-if")
        | v :: rest' =>
            match std_find vszFileFormatName v with
            | None => ShowHelpAndExit (Some "-if")
            | Some k =>
                parse_args rest'
                  (set_eFormat (nth k aFormat NV_ENC_BUFFER_FORMAT_IYUV) o)
                  oss
            end
        end
      else if is_flag a "-gpu" then
        match rest with
        | [] => ShowHelpAndExit (Some "-gpu")
        | v :: rest' => parse_args rest' (set_iGpu (atoi v) o) oss
        end
      else if is_flag a "-cuStreamType" then
        match rest with
        | [] => ShowHelpAndExit (Some "-cuStreamType")
        | v :: rest' => parse_args rest' (set_cuStreamType (atoi v) o) oss
        end
      else if no_dash a then ShowHelpAndExit (Some a)
      else
        (fix values (r : list string) (oss : string) {struct r}
           : M (Opts * string) :=
           match r with
           | v :: r' =>
               if no_dash v then values r' (oss ++ v ++ " ")
               else parse_args r o oss
           | [] => ret (o, oss)
           end) rest (oss ++ a ++ " ")
  end.

Definition ParseCommandLine (argv : list string) (o : Opts)
  : M (Opts * CLIOptions) :=
  let oss := EmptyString in
  '(o, oss) <- parse_args (tl argv) o oss ;;
  initParam <- NvEncoderInitParam oss ;;
  ret (o, initParam).

(** *** InitializeEncoder (lines 246-257) *)

Definition InitializeEncoder (pEnc : pointer) (encodeCLIOptions : CLIOptions)
    (eFormat : NV_ENC_BUFFER_FORMAT) : M unit :=
  let initializeParams := Sdk.NV_ENC_INITIALIZE_PARAMS_VER sdk in
  initializeParams <-
    CreateDefaultEncoderParams pEnc initializeParams
      (Sdk.GetEncodeGUID sdk encodeCLIOptions)
      (Sdk.GetPresetGUID sdk encodeCLIOptions)
      (Sdk.GetTuningInfo sdk encodeCLIOptions) ;;
  initializeParams <- SetInitParams encodeCLIOptions initializeParams eFormat ;;
  CreateEncoder pEnc initializeParams.

(** *** EncodeCuda (lines 259-305) *)

Definition last_frame : Z := 15 * 25.

(** [for (packet : vPacket) fpOut.write(...)] *)
Definition write_packets (vPacket : list packet) : M unit :=
  for_each vPacket (fun p _ => fpOut_write p) tt.

(** The body of the loop (lines 271-300) at index [i]; [nFrame] is the one
    variable it carries from one iteration to the next. *)
Definition encode_step (pEnc : pointer) (cuContext : CUcontext)
    (srcIn : GpuMat) (nFrameSize : Z) (i : Z) (nFrame : Z) : M Z :=
  let nRead := nFrameSize in
  vPacket <-
    (if Z.ltb i last_frame then
       encoderInputFrame <- GetNextInputFrame pEnc ;;
       width <- gets (Sdk.GetEncodeWidth sdk pEnc) ;;
       height <- gets (Sdk.GetEncodeHeight sdk pEnc) ;;
       CopyToDeviceFrame cuContext (data srcIn) 0
         (inputPtr encoderInputFrame)
         (wrap32 (pitch encoderInputFrame))
         width height CU_MEMORYTYPE_HOST
         (bufferFormat encoderInputFrame)
         (chromaOffsets encoderInputFrame)
         (numChromaPlanes encoderInputFrame) ;;
       EncodeFrame pEnc
     else EndEncode pEnc) ;;
  let nFrame := wrap32 (nFrame + wrap32 (Z.of_nat (List.length vPacket))) in
  write_packets vPacket ;;
  ret nFrame.

(** The loop [for (int i = 0; i <= last_frame; i++)]. *)
Definition encode_loop (pEnc : pointer) (cuContext : CUcontext)
    (srcIn : GpuMat) (nFrameSize : Z) (nFrame : Z) : M Z :=
  for_each (range (last_frame + 1))
    (encode_step pEnc cuContext srcIn nFrameSize) nFrame.

Definition EncodeCuda (nWidth nHeight : Z) (encodeCLIOptions : CLIOptions)
    (cuContext : CUcontext) (srcIn : GpuMat) : M unit :=
  let eFormat := NV_ENC_BUFFER_FORMAT_ABGR in
  pEnc <- NvEncoderCuda cuContext nWidth nHeight eFormat ;;
  InitializeEncoder pEnc encodeCLIOptions eFormat ;;
  nFrameSize <- gets (Sdk.GetFrameSize sdk pEnc) ;;
  let nFrame := 0 in
  nFrame <- encode_loop pEnc cuContext srcIn nFrameSize nFrame ;;
  DestroyEncoder pEnc ;;
  print ("Total frames encoded: " ++ string_of_int nFrame ++ endl).

(** *** main (lines 308-375) *)

Definition initial_opts : Opts :=
  {| szInputFileName := EmptyString;
     nWidth := 0;
     nHeight := 0;
     eFormat := NV_ENC_BUFFER_FORMAT_IYUV;
     szOutputFileName := EmptyString;
     iGpu := 0;
     cuStreamType := -1 |}.

(** The variables of [main] once the command line is read (line 322). *)
Record Locals : Type := mkLocals {
  opts : Opts;
  encodeCLIOptions : CLIOptions;
  bOutputInVideoMem : bool
}.

(** Lines 311-322: the declarations and the call of [ParseCommandLine]. *)
Definition main_parse (argv : list string) : M Locals :=
  encodeCLIOptions <- NvEncoderInitParam_default ;;
  let bOutputInVideoMem := false in
  '(o, encodeCLIOptions) <- ParseCommandLine argv initial_opts ;;
  ret (mkLocals o encodeCLIOptions bOutputInVideoMem).

(** What lines 325-339 leave behind: the image on the device, its size in
    [nWidth] and [nHeight], and the number of devices. *)
Record Loaded : Type := mkLoaded {
  locals : Locals;
  srcImgDevice : GpuMat;
  nGpu : Z
}.

(** Lines 325-339: the image is read, uploaded and converted, and the
    devices are counted. *)
Definition main_load (l : Locals) : M Loaded :=
  srcImgHost <- imread (szInputFileName (opts l)) ;;
  let o := set_size (cols srcImgHost) (rows srcImgHost) (opts l) in
  srcImgDevice <- upload srcImgHost ;;
  srcImgDevice <- cvtColor srcImgDevice COLOR_BGR2RGBA ;;
  tst <- download srcImgDevice ;;
  ValidateResolution (nWidth o) (nHeight o) ;;
  r <- cuInit 0 ;; ck r ;;
  let nGpu := 0 in
  '(r, n) <- cuDeviceGetCount ;;
  let nGpu := stored nGpu n in
  ck r ;;
  ret (mkLoaded (mkLocals o (encodeCLIOptions l) (bOutputInVideoMem l))
         srcImgDevice nGpu).

(** [iGpu < 0 || iGpu >= nGpu] *)
Definition out_of_range (iGpu nGpu : Z) : bool :=
  (Z.ltb iGpu 0 || Z.geb iGpu nGpu)%bool.

Definition out_of_range_message (nGpu : Z) : string :=
  "GPU ordinal out of range. Should be within [" ++ string_of_int 0 ++ ", "
  ++ string_of_int (wrap32 (nGpu - 1)) ++ "]" ++ endl.

Definition cannot_open_message (szOutFilePath : string) : string :=
  "Unable to open output file: " ++ szOutFilePath ++ endl.

(** Lines 345-351: the device is looked up and a context created on it. *)
Definition main_device (iGpu : Z) : M CUcontext :=
  let cuDevice := 0 in
  '(r, d) <- cuDeviceGet iGpu ;;
  let cuDevice := stored cuDevice d in
  ck r ;;
  '(r, szDeviceName) <- cuDeviceGetName 80 cuDevice ;;
  ck r ;;
  print ("GPU in use: " ++ szDeviceName ++ endl) ;;
  let cuContext := NULL in
  '(r, c) <- cuCtxCreate 0 cuDevice ;;
  let cuContext := stored cuContext c in
  ck r ;;
  ret cuContext.

(** Lines 354-367: the output file is opened and the image encoded into it.
    Closing the stream changes nothing that is looked at here. *)
Definition main_output (x : Loaded) (cuContext : CUcontext) : M (option Z) :=
  let o := opts (locals x) in
  ofstream_open (szOutputFileName o) ;;
  ok <- fpOut_good ;;
  if negb ok then throw (cannot_open_message (szOutputFileName o))
  else
    EncodeCuda (nWidth o) (nHeight o) (encodeCLIOptions (locals x))
      cuContext (srcImgDevice x) ;;
    print ("Bitstream saved in file " ++ szOutputFileName o ++ endl) ;;
    ret None.

(** Lines 340-367. The value is [Some 1] for the [return 1] of line 343 and
    [None] when control reaches the end of the [try] block. *)
Definition main_encode (x : Loaded) : M (option Z) :=
  let o := opts (locals x) in
  if out_of_range (iGpu o) (nGpu x) then
    print (out_of_range_message (nGpu x)) ;;
    ret (Some 1)
  else
    cuContext <- main_device (iGpu o) ;;
    main_output x cuContext.

(** The [try] block. *)
Definition main_try (argv : list string) : M (option Z) :=
  l <- main_parse argv ;;
  x <- main_load l ;;
  main_encode x.

(** [main]: the exit status of the process and the state it leaves. The
    handler of line 369 prints the text of the exception and returns 1. *)
Definition main (argv : list string) (st : St) : Z * St :=
  match main_try argv st with
  | (Val (Some status), st') => (status, st')
  | (Val None, st') => (0, st')
  | (Throw what, st') =>
      (1, mkSt (world st') (cout st' ++ what) (fpOut st') (log st'))
  | (Exit status, st') => (status, st')
  end.

(** A process starts with nothing printed, no stream and an empty log. *)
Definition start (w : World) : St :=
  mkSt w EmptyString {| good := false; written := [] |} [].

(** *** Reading the log *)

Definition call_of (e : Entry) : Call := fst (fst e).
Definition world_of (e : Entry) : World := snd (fst e).

(** The vectors of packets the encoder handed back, in the order of the
    calls that returned them. *)
Fixpoint emitted (l : list Entry) : list (list packet) :=
  match l with
  | [] => []
  | (_, _, Packets v) :: l' => v :: emitted l'
  | _ :: l' => emitted l'
  end.

Definition is_CopyToDeviceFrame (c : Call) : bool :=
  match c with
  | CopyToDeviceFrame_ _ _ _ _ _ _ _ _ _ _ _ => true
  | _ => false
  end.

(** The source pointer of a copy. *)
Definition source_of (c : Call) : option pointer :=
  match c with
  | CopyToDeviceFrame_ _ pSrcFrame _ _ _ _ _ _ _ _ _ => Some pSrcFrame
  | _ => None
  end.

(** The format an encoder is constructed or initialised with. *)
Definition format_of (c : Call) : option NV_ENC_BUFFER_FORMAT :=
  match c with
  | NvEncoderCuda_ _ _ _ f => Some f
  | SetInitParams_ f => Some f
  | _ => None
  end.

(** The size an encoder is constructed with. *)
Definition size_of (c : Call) : option (Z * Z) :=
  match c with
  | NvEncoderCuda_ _ w h _ => Some (w, h)
  | _ => None
  end.

(** The calls of [EncodeCuda] by name, without their arguments. *)
Inductive Kind : Set :=
| K_NvEncoderCuda
| K_CreateDefaultEncoderParams
| K_SetInitParams
| K_CreateEncoder
| K_GetNextInputFrame
| K_CopyToDeviceFrame
| K_EncodeFrame
| K_EndEncode
| K_DestroyEncoder
| K_other.

Definition kind_of (c : Call) : Kind :=
  match c with
  | NvEncoderCuda_ _ _ _ _ => K_NvEncoderCuda
  | CreateDefaultEncoderParams_ _ _ _ _ => K_CreateDefaultEncoderParams
  | SetInitParams_ _ => K_SetInitParams
  | CreateEncoder_ _ => K_CreateEncoder
  | GetNextInputFrame_ _ => K_GetNextInputFrame
  | CopyToDeviceFrame_ _ _ _ _ _ _ _ _ _ _ _ => K_CopyToDeviceFrame
  | EncodeFrame_ _ => K_EncodeFrame
  | EndEncode_ _ => K_EndEncode
  | DestroyEncoder_ _ => K_DestroyEncoder
  | _ => K_other
  end.

Definition Kind_eq_dec (a b : Kind) : {a = b} + {a <> b}.
Proof. decide equality. Defined.

Definition kinds (l : list Entry) : list Kind :=
  map (fun e => kind_of (call_of e)) l.

(** One frame submission, and the whole of a run of [EncodeCuda] that
    returns: 375 submissions, one flush, and the encoder is destroyed. *)
Definition submission : list Kind :=
  [K_GetNextInputFrame; K_CopyToDeviceFrame; K_EncodeFrame].

Definition submissions (n : nat) : list Kind :=
  List.concat (repeat submission n).

Definition EncodeCuda_calls : list Kind :=
  [K_NvEncoderCuda; K_CreateDefaultEncoderParams; K_SetInitParams;
   K_CreateEncoder]
  ++ submissions 375 ++ [K_EndEncode] ++ [K_DestroyEncoder].

(** The calls that make up a frame submission. *)
Definition is_submission (k : Kind) : bool :=
  match k with
  | K_GetNextInputFrame | K_CopyToDeviceFrame | K_EncodeFrame => true
  | _ => false
  end.

(** No call of a submission comes after the first flush. *)
Fixpoint flush_is_last (ks : list Kind) : bool :=
  match ks with
  | [] => true
  | K_EndEncode :: ks' => forallb (fun k => negb (is_submission k)) ks'
  | _ :: ks' => flush_is_last ks'
  end.

(** The entries of [l'] that were added to [l]. *)
Definition added (l l' : list Entry) : list Entry :=
  skipn (List.length l) l'.

End Program.

Arguments Val {A} a.
Arguments Throw {A} what.
Arguments Exit {A} status.

End App.

(** ** A world to run the program in

    One device, an image of 1920 by 1080 pixels behind every non-empty path,
    device memory in which a copy writes its destination, and an encoder
    that holds back the packets of the last two frames it was given until
    the next frame or the flush arrives. *)

Module Mock.
Import CLib.

(** Device memory: the buffers that were written, by address. *)
Definition Memory : Set := list (pointer * list byte).

Fixpoint peek (m : Memory) (p : pointer) : list byte :=
  match m with
  | (q, bytes) :: m' => if Z.eqb q p then bytes else peek m' p
  | [] => []
  end.

Fixpoint poke (m : Memory) (p : pointer) (bytes : list byte) : Memory :=
  match m with
  | (q, old) :: m' =>
      if Z.eqb q p then (q, bytes) :: m' else (q, old) :: poke m' p bytes
  | [] => [(p, bytes)]
  end.

Record World : Set := mkWorld {
  ngpu : Z;
  frames_in : nat;
  frames_out : nat;
  mem : Memory
}.

Definition delay : nat := 2.

Definition a_packet : packet := [x00; x00; x01; x65].

Definition image : list byte := [x10; x20; x30; xff].

(** The converted image is on the device at address 300, where [cvtColor]
    says it is. *)
Definition one_gpu : World := mkWorld 1 0 0 [(300, image)].
Definition no_gpu : World := mkWorld 0 0 0 [(300, image)].

Definition ck (r : CUresult) (w : World) : ext unit World :=
  match r with
  | CUDA_SUCCESS => Ret tt w
  | CUDA_ERROR _ => Thr "CUDA driver API error" w
  end.

Definition ValidateResolution (nWidth nHeight : Z) (w : World)
  : ext unit World :=
  if (Z.leb nWidth 0 || Z.leb nHeight 0)%bool
  then Thr "Please specify positive non zero resolution" w
  else Ret tt w.

Definition imread (filename : string) (w : World) : ext Mat World :=
  if String.eqb filename EmptyString
  then Ret {| cols := 0; rows := 0; host_data := NULL |} w
  else Ret {| cols := 1920; rows := 1080; host_data := 100 |} w.

Definition upload (m : Mat) (w : World) : ext GpuMat World :=
  Ret {| gpu_cols := cols m; gpu_rows := rows m; data := 200 |} w.

Definition cvtColor (g : GpuMat) (code : ColorConversionCodes) (w : World)
  : ext GpuMat World :=
  Ret {| gpu_cols := gpu_cols g; gpu_rows := gpu_rows g; data := 300 |} w.

Definition download (g : GpuMat) (w : World) : ext Mat World :=
  Ret {| cols := gpu_cols g; rows := gpu_rows g; host_data := 400 |} w.

Definition GetNextInputFrame (enc : pointer) (w : World)
  : ext NvEncInputFrame World :=
  Ret {| inputPtr := 1000 + Z.of_nat (Nat.modulo (frames_in w) 4);
         chromaOffsets := [];
         numChromaPlanes := 0;
         pitch := 7680;
         bufferFormat := NV_ENC_BUFFER_FORMAT_ABGR |} w.

(** The copy writes the bytes of the source into the destination, as they
    are. *)
Definition CopyToDeviceFrame (ctx : CUcontext) (pSrcFrame : pointer)
    (nSrcPitch : Z) (pDstFrame : pointer) (dstPitch width height : Z)
    (srcMemoryType : CUmemorytype) (pixelFormat : NV_ENC_BUFFER_FORMAT)
    (dstChromaOffsets : list Z) (numChromaPlanes : Z) (w : World)
  : ext unit World :=
  Ret tt
    (mkWorld (ngpu w) (frames_in w) (frames_out w)
       (poke (mem w) pDstFrame (peek (mem w) pSrcFrame))).

Definition EncodeFrame (enc : pointer) (w : World)
  : ext (list packet) World :=
  if Nat.ltb (frames_in w) delay
  then Ret [] (mkWorld (ngpu w) (S (frames_in w)) (frames_out w) (mem w))
  else
    Ret [a_packet]
      (mkWorld (ngpu w) (S (frames_in w)) (S (frames_out w)) (mem w)).

Definition EndEncode (enc : pointer) (w : World) : ext (list packet) World :=
  Ret (repeat a_packet (frames_in w - frames_out w))
    (mkWorld (ngpu w) (frames_in w) (frames_in w) (mem w)).

(** An encoder that takes the frames and never returns a packet. *)
Definition EncodeFrame_silent (enc : pointer) (w : World)
  : ext (list packet) World :=
  Ret [] (mkWorld (ngpu w) (S (frames_in w)) (frames_out w) (mem w)).

Definition EndEncode_silent (enc : pointer) (w : World)
  : ext (list packet) World :=
  Ret [] w.

Definition devmem (w : World) (p : pointer) : list byte := peek (mem w) p.

Definition sdk : Sdk.t := {|
  Sdk.World := World;
  Sdk.CLIOptions := string;
  Sdk.InitParams := unit;
  Sdk.cuInit := fun _ w => (CUDA_SUCCESS, w);
  Sdk.cuDeviceGetCount := fun w => (CUDA_SUCCESS, Some (ngpu w), w);
  Sdk.cuDeviceGet := fun ordinal w => (CUDA_SUCCESS, Some ordinal, w);
  Sdk.cuDeviceGetName := fun _ _ w => (CUDA_SUCCESS, "Mock GPU", w);
  Sdk.cuCtxCreate := fun _ _ w => (CUDA_SUCCESS, Some 7, w);
  Sdk.cuCtxDestroy := fun _ w => (CUDA_SUCCESS, w);
  Sdk.ck := ck;
  Sdk.ValidateResolution := ValidateResolution;
  Sdk.imread := imread;
  Sdk.upload := upload;
  Sdk.cvtColor := cvtColor;
  Sdk.download := download;
  Sdk.NvEncoderInitParam_default := fun w => Ret EmptyString w;
  Sdk.NvEncoderInitParam := fun szParam w => Ret szParam w;
  Sdk.GetHelpMessage := fun _ => "-codec       Codec: h264 hevc";
  Sdk.GetEncodeGUID := fun _ => NV_ENC_CODEC_H264_GUID;
  Sdk.GetPresetGUID := fun _ => OtherGUID 1;
  Sdk.GetTuningInfo := fun _ => 1;
  Sdk.SetInitParams := fun _ p _ w => Ret p w;
  Sdk.NV_ENC_INITIALIZE_PARAMS_VER := tt;
  Sdk.NvEncoderCuda := fun _ _ _ _ w => Ret 500 w;
  Sdk.GetCapabilityValue := fun _ _ _ w => Ret 1 w;
  Sdk.CreateDefaultEncoderParams := fun _ p _ _ _ w => Ret p w;
  Sdk.CreateEncoder := fun _ _ w => Ret tt w;
  Sdk.GetFrameSize := fun _ _ => 1920 * 1080 * 4;
  Sdk.GetEncodeWidth := fun _ _ => 1920;
  Sdk.GetEncodeHeight := fun _ _ => 1080;
  Sdk.GetNextInputFrame := GetNextInputFrame;
  Sdk.CopyToDeviceFrame := CopyToDeviceFrame;
  Sdk.EncodeFrame := EncodeFrame;
  Sdk.EndEncode := EndEncode;
  Sdk.DestroyEncoder := fun _ w => Ret tt w;
  Sdk.ofstream_open :=
    fun filename w => (negb (String.eqb filename EmptyString), w);
  Sdk.devmem := devmem
|}.

(** The same world with another driver and another encoder: [init] is what
    [cuInit] returns, [encode] and [flush] are [EncodeFrame] and
    [EndEncode]. *)
Definition variant (init : CUresult)
    (encode flush : pointer -> World -> ext (list packet) World) : Sdk.t := {|
  Sdk.World := World;
  Sdk.CLIOptions := string;
  Sdk.InitParams := unit;
  Sdk.cuInit := fun _ w => (init, w);
  Sdk.cuDeviceGetCount := fun w => (CUDA_SUCCESS, Some (ngpu w), w);
  Sdk.cuDeviceGet := fun ordinal w => (CUDA_SUCCESS, Some ordinal, w);
  Sdk.cuDeviceGetName := fun _ _ w => (CUDA_SUCCESS, "Mock GPU", w);
  Sdk.cuCtxCreate := fun _ _ w => (CUDA_SUCCESS, Some 7, w);
  Sdk.cuCtxDestroy := fun _ w => (CUDA_SUCCESS, w);
  Sdk.ck := ck;
  Sdk.ValidateResolution := ValidateResolution;
  Sdk.imread := imread;
  Sdk.upload := upload;
  Sdk.cvtColor := cvtColor;
  Sdk.download := download;
  Sdk.NvEncoderInitParam_default := fun w => Ret EmptyString w;
  Sdk.NvEncoderInitParam := fun szParam w => Ret szParam w;
  Sdk.GetHelpMessage := fun _ => "-codec       Codec: h264 hevc";
  Sdk.GetEncodeGUID := fun _ => NV_ENC_CODEC_H264_GUID;
  Sdk.GetPresetGUID := fun _ => OtherGUID 1;
  Sdk.GetTuningInfo := fun _ => 1;
  Sdk.SetInitParams := fun _ p _ w => Ret p w;
  Sdk.NV_ENC_INITIALIZE_PARAMS_VER := tt;
  Sdk.NvEncoderCuda := fun _ _ _ _ w => Ret 500 w;
  Sdk.GetCapabilityValue := fun _ _ _ w => Ret 1 w;
  Sdk.CreateDefaultEncoderParams := fun _ p _ _ _ w => Ret p w;
  Sdk.CreateEncoder := fun _ _ w => Ret tt w;
  Sdk.GetFrameSize := fun _ _ => 1920 * 1080 * 4;
  Sdk.GetEncodeWidth := fun _ _ => 1920;
  Sdk.GetEncodeHeight := fun _ _ => 1080;
  Sdk.GetNextInputFrame := GetNextInputFrame;
  Sdk.CopyToDeviceFrame := CopyToDeviceFrame;
  Sdk.EncodeFrame := encode;
  Sdk.EndEncode := flush;
  Sdk.DestroyEncoder := fun _ w => Ret tt w;
  Sdk.ofstream_open :=
    fun filename w => (negb (String.eqb filename EmptyString), w);
  Sdk.devmem := devmem
|}.

(** An encoder that returns no packet at all, and a driver that fails to
    initialise. *)
Definition silent : Sdk.t :=
  variant CUDA_SUCCESS EncodeFrame_silent EndEncode_silent.

Definition broken : Sdk.t := variant (CUDA_ERROR 100) EncodeFrame EndEncode.

(** [./AppEncOpenCV -i path_to_image.jpg -o video.h264], as the README
    has it, and the same with further arguments. *)
Definition usage : list string :=
  ["./AppEncOpenCV"; "-i"; "path_to_image.jpg"; "-o"; "video.h264"].

Definition run (argv : list string) (w : World) : Z * App.St sdk :=
  App.main sdk argv (App.start sdk w).

(** The options as [ParseCommandLine] leaves them, if it returns. *)
Definition parsed (argv : list string) : option App.Opts :=
  match fst (App.main_parse sdk argv (App.start sdk one_gpu)) with
  | App.Val l => Some (App.opts sdk l)
  | _ => None
  end.

(** The flag [bOutputInVideoMem] after the command line is read. *)
Definition vidmem (argv : list string) : option bool :=
  match fst (App.main_parse sdk argv (App.start sdk one_gpu)) with
  | App.Val l => Some (App.bOutputInVideoMem sdk l)
  | _ => None
  end.

(** The formats and the sizes encoders were given, and the calls by name. *)
Definition formats (st : App.St sdk) : list NV_ENC_BUFFER_FORMAT :=
  flat_map
    (fun e =>
       match App.format_of (App.call_of sdk e) with
       | Some f => [f]
       | None => []
       end)
    (App.log sdk st).

Definition sizes (st : App.St sdk) : list (Z * Z) :=
  flat_map
    (fun e =>
       match App.size_of (App.call_of sdk e) with
       | Some s => [s]
       | None => []
       end)
    (App.log sdk st).

Definition calls (st : App.St sdk) : list Call :=
  map (App.call_of sdk) (App.log sdk st).

(** The image on the device, as [main] hands it to [EncodeCuda]. *)
Definition srcIn : GpuMat :=
  {| gpu_cols := 1920; gpu_rows := 1080; data := 300 |}.

(** The variables of [main] after the command line of the README and the
    loading of the image. *)
Definition loaded : App.Loaded sdk :=
  App.mkLoaded sdk
    (App.mkLocals sdk
       (App.mkOpts "path_to_image.jpg" 1920 1080 NV_ENC_BUFFER_FORMAT_IYUV
          "video.h264" 0 (-1))
       EmptyString false)
    srcIn 1.

(** A state in which the output stream is open. *)
Definition opened : App.St sdk :=
  App.mkSt sdk one_gpu EmptyString {| App.good := true; App.written := [] |} [].

End Mock.

(** ** Statements about runs *)

Module Hoare.
Import App.
Local Open Scope list_scope.

Section Hoare.

Variable sdk : Sdk.t.

(** [R] relates the state a computation starts in to the state it ends in,
    however it ends. *)
Definition effect {A} (R : St sdk -> St sdk -> Prop) (m : M sdk A) : Prop :=
  forall st, R st (snd (m st)).

(** The log grows by entries that satisfy [P]; nothing is taken from it. *)
Definition grows (P : Entry sdk -> Prop) (st st' : St sdk) : Prop :=
  exists new, log sdk st' = log sdk st ++ new /\ Forall P new.

(** From a world in [I] the run stays in [I], and its entries satisfy [P]. *)
Definition keeps (I : Sdk.World sdk -> Prop) (P : Entry sdk -> Prop)
    (st st' : St sdk) : Prop :=
  I (world sdk st) -> I (world sdk st') /\ grows P st st'.

(** An open stream stays open and receives, in order, the packets of the
    vectors the encoder returned. *)
Definition drains (st st' : St sdk) : Prop :=
  good (fpOut sdk st) = true ->
  good (fpOut sdk st') = true /\
  exists new,
    log sdk st' = log sdk st ++ new /\
    written (fpOut sdk st') =
      written (fpOut sdk st) ++ List.concat (emitted sdk new).

(** The stream is left alone and the encoder returns no packets. *)
Definition mute (st st' : St sdk) : Prop :=
  fpOut sdk st' = fpOut sdk st /\
  exists new, log sdk st' = log sdk st ++ new /\ emitted sdk new = [].

(** A computation that hands back the one vector of packets the encoder
    returned to it, when it returns, and leaves the stream alone. *)
Definition emits (m : M sdk (list packet)) : Prop :=
  forall st,
    fpOut sdk (snd (m st)) = fpOut sdk st /\
    exists new,
      log sdk (snd (m st)) = log sdk st ++ new /\
      emitted sdk new
      = match fst (m st) with
        | Val v => [v]
        | _ => []
        end.

(** The world a foreign call leaves. *)
Definition after {A} (r : ext A (Sdk.World sdk)) : Sdk.World sdk :=
  match r with
  | Ret _ w => w
  | Thr _ w => w
  end.

(** The call [f] does not change the buffer at [p]. *)
Definition leaves {A} (p : pointer)
    (f : Sdk.World sdk -> ext A (Sdk.World sdk)) : Prop :=
  forall w, Sdk.devmem sdk (after (f w)) p = Sdk.devmem sdk w p.

(** An entry of a copy reads from [p], which holds [bytes] at that time. *)
Definition copies_from (p : pointer) (bytes : list byte) (e : Entry sdk)
  : Prop :=
  is_CopyToDeviceFrame (call_of sdk e) = true ->
  source_of (call_of sdk e) = Some p /\
  Sdk.devmem sdk (world_of sdk e) p = bytes.

(** An entry that constructs or initialises an encoder does so with [f]. *)
Definition with_format (f : NV_ENC_BUFFER_FORMAT) (e : Entry sdk) : Prop :=
  forall g, format_of (call_of sdk e) = Some g -> g = f.

(** An entry that constructs an encoder does so with the size [w] by [h]. *)
Definition with_size (w h : Z) (e : Entry sdk) : Prop :=
  forall s, size_of (call_of sdk e) = Some s -> s = (w, h).

(** [nFrame] after the vectors [vs] were counted, one [+=] per vector. *)
Definition tally (nFrame : Z) (vs : list (list packet)) : Z :=
  fold_left
    (fun n v => CLib.wrap32 (n + CLib.wrap32 (Z.of_nat (List.length v))))
    vs nFrame.

(** The state in which the handler of [main] leaves after an exception. *)
Definition caught (what : string) (st : St sdk) : St sdk :=
  mkSt sdk (world sdk st) (cout sdk st ++ what)%string (fpOut sdk st)
    (log sdk st).

(** A run ends in an exception. *)
Definition throws {A} (m : M sdk A) (st : St sdk) : Prop :=
  exists what st', m st = (Throw what, st').

End Hoare.

End Hoare.

(** ** Traces and outcomes *)

Module Trace.
Import CLib App.
Local Open Scope list_scope.

(** The foreign entry points by name. *)
Inductive Name : Set :=
| N_cuInit
| N_cuDeviceGetCount
| N_cuDeviceGet
| N_cuDeviceGetName
| N_cuCtxCreate
| N_cuCtxDestroy
| N_ck
| N_imread
| N_upload
| N_cvtColor
| N_download
| N_ValidateResolution
| N_NvEncoderInitParam_default
| N_NvEncoderInitParam
| N_NvEncoderCuda
| N_GetCapabilityValue
| N_CreateDefaultEncoderParams
| N_SetInitParams
| N_CreateEncoder
| N_GetNextInputFrame
| N_CopyToDeviceFrame
| N_EncodeFrame
| N_EndEncode
| N_DestroyEncoder
| N_ofstream_open.

Definition name_of (c : Call) : Name :=
  match c with
  | cuInit_ _ => N_cuInit
  | cuDeviceGetCount_ => N_cuDeviceGetCount
  | cuDeviceGet_ _ => N_cuDeviceGet
  | cuDeviceGetName_ _ _ => N_cuDeviceGetName
  | cuCtxCreate_ _ _ => N_cuCtxCreate
  | cuCtxDestroy_ _ => N_cuCtxDestroy
  | ck_ _ => N_ck
  | imread_ _ => N_imread
  | upload_ _ => N_upload
  | cvtColor_ _ _ => N_cvtColor
  | download_ _ => N_download
  | ValidateResolution_ _ _ => N_ValidateResolution
  | NvEncoderInitParam_default_ => N_NvEncoderInitParam_default
  | NvEncoderInitParam_ _ => N_NvEncoderInitParam
  | NvEncoderCuda_ _ _ _ _ => N_NvEncoderCuda
  | GetCapabilityValue_ _ _ _ => N_GetCapabilityValue
  | CreateDefaultEncoderParams_ _ _ _ _ => N_CreateDefaultEncoderParams
  | SetInitParams_ _ => N_SetInitParams
  | CreateEncoder_ _ => N_CreateEncoder
  | GetNextInputFrame_ _ => N_GetNextInputFrame
  | CopyToDeviceFrame_ _ _ _ _ _ _ _ _ _ _ _ => N_CopyToDeviceFrame
  | EncodeFrame_ _ => N_EncodeFrame
  | EndEncode_ _ => N_EndEncode
  | DestroyEncoder_ _ => N_DestroyEncoder
  | ofstream_open_ _ => N_ofstream_open
  end.

Definition Name_eq_dec (a b : Name) : {a = b} + {a <> b}.
Proof. decide equality. Defined.

(** *** The order of the calls, function by function *)

Definition InitializeEncoder_names : list Name :=
  [N_CreateDefaultEncoderParams; N_SetInitParams; N_CreateEncoder].

Definition submit_names : list Name :=
  [N_GetNextInputFrame; N_CopyToDeviceFrame; N_EncodeFrame].

Definition encode_loop_names : list Name :=
  List.concat (repeat submit_names 375) ++ [N_EndEncode].

Definition EncodeCuda_names : list Name :=
  [N_NvEncoderCuda] ++ InitializeEncoder_names ++ encode_loop_names
  ++ [N_DestroyEncoder].

(** The report on one device: thirteen capabilities are asked for. *)
Definition gpu_report_names : list Name :=
  [N_cuDeviceGet; N_ck; N_cuDeviceGetName; N_ck; N_cuCtxCreate; N_ck;
   N_NvEncoderCuda]
  ++ repeat N_GetCapabilityValue 13
  ++ [N_DestroyEncoder; N_cuCtxDestroy; N_ck].

Definition ShowEncoderCapability_names (devices : nat) : list Name :=
  [N_cuInit; N_ck; N_cuDeviceGetCount; N_ck]
  ++ List.concat (repeat gpu_report_names devices).

Definition main_load_names : list Name :=
  [N_imread; N_upload; N_cvtColor; N_download; N_ValidateResolution;
   N_cuInit; N_ck; N_cuDeviceGetCount; N_ck].

Definition main_device_names : list Name :=
  [N_cuDeviceGet; N_ck; N_cuDeviceGetName; N_ck; N_cuCtxCreate; N_ck].

(** The whole of a run of [main] that encodes. *)
Definition main_names : list Name :=
  [N_NvEncoderInitParam_default; N_NvEncoderInitParam]
  ++ main_load_names ++ main_device_names ++ [N_ofstream_open]
  ++ EncodeCuda_names.

(** *** The values of an encoder option *)

(** The arguments the [while] loop of [ParseCommandLine] takes up: those
    at the head that do not start with a dash; and what it leaves. *)
Fixpoint values_of (r : list string) : list string :=
  match r with
  | v :: r' => if no_dash v then v :: values_of r' else []
  | [] => []
  end.

Fixpoint after_values (r : list string) : list string :=
  match r with
  | v :: r' => if no_dash v then after_values r' else r
  | [] => []
  end.

(** [oss << t << " "], and the same for one token after the other. *)
Definition add_token (oss t : string) : string := (oss ++ t ++ " ")%string.

Definition add_tokens (oss : string) (ts : list string) : string :=
  fold_left add_token ts oss.

(** [l] is [l'] with some of its elements left out. *)
Inductive subseq {A : Type} : list A -> list A -> Prop :=
| subseq_nil : subseq [] []
| subseq_skip x l l' : subseq l l' -> subseq l (x :: l')
| subseq_take x l l' : subseq l l' -> subseq (x :: l) (x :: l').

(** An argument list that is empty or goes on with an option. *)
Definition starts_with_dash (args : list string) : Prop :=
  match args with
  | [] => True
  | a :: _ => no_dash a = false
  end.

(** What a flag with a value does to the variables of [main]. *)
Inductive sets (a v : string) (o : Opts) : Opts -> Prop :=
| sets_i :
    is_flag a "-i" = true -> sets a v o (set_szInputFileName v o)
| sets_o :
    is_flag a "-o" = true -> sets a v o (set_szOutputFileName v o)
| sets_s w h :
    is_flag a "-s" = true -> sscanf_dxd v = (2, w, h) ->
    sets a v o (set_size (stored (nWidth o) w) (stored (nHeight o) h) o)
| sets_if k :
    is_flag a "-if" = true -> std_find vszFileFormatName v = Some k ->
    sets a v o (set_eFormat (nth k aFormat NV_ENC_BUFFER_FORMAT_IYUV) o)
| sets_gpu :
    is_flag a "-gpu" = true -> sets a v o (set_iGpu (atoi v) o)
| sets_cuStreamType :
    is_flag a "-cuStreamType" = true ->
    sets a v o (set_cuStreamType (atoi v) o).

(** The command lines the loop of [ParseCommandLine] gets through, with the
    variables and the option string before and after: flags with their
    value, and options it does not know with the values that follow them. *)
Inductive parses : list string -> Opts -> string -> Opts -> string -> Prop :=
| parses_nil o oss : parses [] o oss o oss
| parses_set a v rest o o1 oss o' oss' :
    sets a v o o1 -> parses rest o1 oss o' oss' ->
    parses (a :: v :: rest) o oss o' oss'
| parses_forward a rest o oss o' oss' :
    no_flag a -> no_dash a = false ->
    parses (after_values rest) o
      (add_tokens (add_token oss a) (values_of rest)) o' oss' ->
    parses (a :: rest) o oss o' oss'.

Section Trace.

Variable sdk : Sdk.t.

Definition names (l : list (Entry sdk)) : list Name :=
  map (fun e => name_of (call_of sdk e)) l.

(** Every run of [m] makes calls of [ks], in that order and from the first
    on; it has made them all when it returns a value for which [done]
    holds. *)
Definition follows_when {A} (done : A -> Prop) (ks : list Name)
    (m : M sdk A) : Prop :=
  forall st,
    exists new,
      log sdk (snd (m st)) = log sdk st ++ new /\
      (exists rest, ks = names new ++ rest) /\
      (forall a, fst (m st) = Val a -> done a -> names new = ks).

Definition follows {A} (ks : list Name) (m : M sdk A) : Prop :=
  follows_when (fun _ => True) ks m.

(** The number of devices the driver reported to a run of
    [ShowEncoderCapability] with the entries [new]: what the third call of
    the run, [cuDeviceGetCount], stored in [nGpu], which was zero before. *)
Definition reported (new : list (Entry sdk)) : nat :=
  match nth_error new 2 with
  | Some e =>
      Z.to_nat
        (stored 0 (snd (fst (Sdk.cuDeviceGetCount sdk (world_of sdk e)))))
  | None => 0
  end.

(** The process leaves through [exit] only with a status in [ok]. *)
Definition exits_with {A} (ok : Z -> Prop) (m : M sdk A) : Prop :=
  forall st status, fst (m st) = Exit status -> ok status.

(** Control never comes back from [m]. *)
Definition never_returns {A} (m : M sdk A) : Prop :=
  forall st a, fst (m st) <> Val a.

(** [std::cout] only grows. *)
Definition says (st st' : St sdk) : Prop :=
  exists text, cout sdk st' = (cout sdk st ++ text)%string.

(** Nothing is printed. *)
Definition same_cout (st st' : St sdk) : Prop := cout sdk st' = cout sdk st.

(** A run of [m] that ends in an exception has printed nothing. *)
Definition throws_quietly {A} (m : M sdk A) : Prop :=
  forall st what,
    fst (m st) = Throw what -> cout sdk (snd (m st)) = cout sdk st.

(** An entry that constructs an encoder is the probe of the capability
    report: 1280 by 720, NV12. *)
Definition probe_only (e : Entry sdk) : Prop :=
  forall ctx w h f,
    call_of sdk e = NvEncoderCuda_ ctx w h f ->
    w = 1280 /\ h = 720 /\ f = NV_ENC_BUFFER_FORMAT_NV12.

(** An entry of the help path: no image, no output file, no frame. *)
Definition help_call (e : Entry sdk) : Prop :=
  In (name_of (call_of sdk e))
    ([N_NvEncoderInitParam_default] ++ ShowEncoderCapability_names 1).

(** *** Input frames *)

(** The entry [e] is a call of [GetNextInputFrame] that handed out a
    frame. *)
Definition handed_out (e : Entry sdk) : Prop :=
  exists enc frame w,
    call_of sdk e = GetNextInputFrame_ enc /\
    Sdk.GetNextInputFrame sdk enc (world_of sdk e) = Ret frame w.

(** If [e1] handed out a frame, [e2] is the copy of the image at [srcIn]
    into that frame, with the pitch, format and planes of the frame and the
    size the encoder has then; nothing came between the two. *)
Definition copy_into (cuContext : CUcontext) (srcIn : GpuMat)
    (e1 e2 : Entry sdk) : Prop :=
  forall enc frame w,
    call_of sdk e1 = GetNextInputFrame_ enc ->
    Sdk.GetNextInputFrame sdk enc (world_of sdk e1) = Ret frame w ->
    world_of sdk e2 = w /\
    call_of sdk e2
    = CopyToDeviceFrame_ cuContext (data srcIn) 0 (inputPtr frame)
        (wrap32 (pitch frame)) (Sdk.GetEncodeWidth sdk enc w)
        (Sdk.GetEncodeHeight sdk enc w) CU_MEMORYTYPE_HOST
        (bufferFormat frame) (chromaOffsets frame) (numChromaPlanes frame).

(** [P] holds of every entry and the one after it. *)
Fixpoint pairwise (P : Entry sdk -> Entry sdk -> Prop)
    (l : list (Entry sdk)) : Prop :=
  match l with
  | e1 :: l' =>
      match l' with
      | e2 :: _ => P e1 e2
      | [] => True
      end /\ pairwise P l'
  | [] => True
  end.

(** The log grows by entries in which every frame handed out is filled by
    the next call, the last one included. *)
Definition fills (cuContext : CUcontext) (srcIn : GpuMat)
    (st st' : St sdk) : Prop :=
  exists new,
    log sdk st' = log sdk st ++ new /\
    pairwise (copy_into cuContext srcIn) new /\
    forall l e, new = l ++ [e] -> ~ handed_out e.

(** *** Exceptions of foreign calls *)

(** The call of the entry returned: no exception came out of it. *)
Definition calm (e : Entry sdk) : Prop := forall what, snd e <> Raised what.

(** A run that made the calls [new] and ended in [r] ended as these calls
    let it. After calls that all returned it has a value; or, if [own] is
    set, the program itself threw or left the process. Otherwise the last
    call raised an exception, the run ended there with that exception in
    flight, and all calls before it returned. *)
Definition ended {A} (own : bool) (r : Res A) (new : list (Entry sdk))
  : Prop :=
  match r with
  | Val _ => Forall calm new
  | Throw what =>
      (exists l e, new = l ++ [e] /\ snd e = Raised what /\ Forall calm l) \/
      (own = true /\ Forall calm new)
  | Exit _ => own = true /\ Forall calm new
  end.

Definition propagates {A} (own : bool) (m : M sdk A) : Prop :=
  forall st,
    exists new,
      log sdk (snd (m st)) = log sdk st ++ new /\
      ended own (fst (m st)) new.

(** *** Results of the CUDA driver *)

(** Modelled from the spec: the macro [ck] of [NvCodecUtils.h], in which
    the program wraps every call of the CUDA driver; the header is not part
    of the repository. "Argument and API errors raise a described failure":
    given a result other than [CUDA_SUCCESS], [ck] throws an exception that
    carries a text. *)
Definition ck_raises : Prop :=
  forall r w,
    r <> CUDA_SUCCESS -> exists what w', Sdk.ck sdk r w = Thr what w'.

(** The answer logged for a call of [ck] is the one the macro gave. *)
Definition ck_entry (e : Entry sdk) : Prop :=
  forall r,
    call_of sdk e = ck_ r ->
    snd e = match Sdk.ck sdk r (world_of sdk e) with
            | Ret _ _ => Returned
            | Thr what _ => Raised what
            end.

(** The result of a call of the CUDA driver and the world it leaves;
    [None] for the calls of the other libraries. *)
Definition driver_result (c : Call) (w : Sdk.World sdk)
  : option (CUresult * Sdk.World sdk) :=
  match c with
  | cuInit_ flags => Some (Sdk.cuInit sdk flags w)
  | cuDeviceGetCount_ =>
      let '(r, _, w') := Sdk.cuDeviceGetCount sdk w in Some (r, w')
  | cuDeviceGet_ ordinal =>
      let '(r, _, w') := Sdk.cuDeviceGet sdk ordinal w in Some (r, w')
  | cuDeviceGetName_ len dev =>
      let '(r, _, w') := Sdk.cuDeviceGetName sdk len dev w in Some (r, w')
  | cuCtxCreate_ flags dev =>
      let '(r, _, w') := Sdk.cuCtxCreate sdk flags dev w in Some (r, w')
  | cuCtxDestroy_ ctx => Some (Sdk.cuCtxDestroy sdk ctx w)
  | _ => None
  end.

Definition driver_call (e : Entry sdk) : Prop :=
  driver_result (call_of sdk e) (world_of sdk e) <> None.

(** If [e1] is a call of the driver, [e2] is the call of [ck] on its
    result, in the world the driver left. *)
Definition checked (e1 e2 : Entry sdk) : Prop :=
  forall r w,
    driver_result (call_of sdk e1) (world_of sdk e1) = Some (r, w) ->
    call_of sdk e2 = ck_ r /\ world_of sdk e2 = w.

(** The entry is the call of [cuDeviceGet] for [ordinal], and [dev] is the
    device it stored, or zero, the initial value of [cuDevice]. *)
Definition looked_up (ordinal : Z) (dev : CUdevice) (e : Entry sdk) : Prop :=
  call_of sdk e = cuDeviceGet_ ordinal /\
  dev
  = stored 0 (snd (fst (Sdk.cuDeviceGet sdk ordinal (world_of sdk e)))).

(** The entry is the call of [cuDeviceGetName] for [dev], with the buffer
    of 80 bytes, and [name] is what it left in the buffer. *)
Definition named (dev : CUdevice) (name : string) (e : Entry sdk) : Prop :=
  call_of sdk e = cuDeviceGetName_ 80 dev /\
  name = snd (fst (Sdk.cuDeviceGetName sdk 80 dev (world_of sdk e))).

(** *** Calls that come in pairs *)

(** From a world in [I] the run stays in [I]; the entries it adds satisfy
    [P], every one of them that is [open] is followed by one that [Q]
    relates to it, and none is left open at the end. *)
Definition chains (I : Sdk.World sdk -> Prop) (P open : Entry sdk -> Prop)
    (Q : Entry sdk -> Entry sdk -> Prop) (st st' : St sdk) : Prop :=
  I (world sdk st) ->
  I (world sdk st') /\
  exists new,
    log sdk st' = log sdk st ++ new /\
    Forall P new /\
    pairwise (fun e1 e2 => open e1 -> Q e1 e2) new /\
    forall l e, new = l ++ [e] -> ~ open e.

(** A computation whose first call is [c]. *)
Definition begins {A} (c : Call) (m : M sdk A) : Prop :=
  forall st,
    exists answer rest,
      log sdk (snd (m st)) = log sdk st ++ (c, world sdk st, answer) :: rest.

(** *** What the frames hold *)

(** The bytes a copy leaves in its destination, given the bytes of the
    source and the pitch, width, height, format, chroma offsets and number
    of chroma planes of the destination. *)
Definition Layout : Type :=
  list byte -> Z -> Z -> Z -> NV_ENC_BUFFER_FORMAT -> list Z -> Z ->
  list byte.

(** What a copy from the buffer at [src] into another buffer is taken to
    do: it leaves [src] as it is, also when it fails, and when it returns
    the destination holds the bytes of [src], laid out. *)
Definition copies_through (cuContext : CUcontext) (src : pointer)
    (layout : Layout) : Prop :=
  forall dst dstPitch w h fmt offs planes world,
    dst <> src ->
    let r :=
      Sdk.CopyToDeviceFrame sdk cuContext src 0 dst dstPitch w h
        CU_MEMORYTYPE_HOST fmt offs planes world in
    Sdk.devmem sdk (Hoare.after sdk r) src = Sdk.devmem sdk world src /\
    forall u world',
      r = Ret u world' ->
      Sdk.devmem sdk world' dst
      = layout (Sdk.devmem sdk world src) dstPitch w h fmt offs planes.

(** The input frames of the encoder [pEnc] are other buffers than [src]. *)
Definition frames_apart (pEnc : pointer) (src : pointer) : Prop :=
  forall w frame w',
    Sdk.GetNextInputFrame sdk pEnc w = Ret frame w' -> inputPtr frame <> src.

(** The entry is a copy that returned. *)
Definition copied (e : Entry sdk) : Prop :=
  is_CopyToDeviceFrame (call_of sdk e) = true /\ snd e = Returned.

(** If [e1] is a copy that returned, [e2] is the call of [EncodeFrame] on
    [pEnc], issued while the destination of the copy holds [pixels], laid
    out as the copy was told. *)
Definition carries (pEnc : pointer) (layout : Layout) (pixels : list byte)
    (e1 e2 : Entry sdk) : Prop :=
  forall ctx src srcPitch dst dstPitch w h mt fmt offs planes,
    call_of sdk e1
    = CopyToDeviceFrame_ ctx src srcPitch dst dstPitch w h mt fmt offs planes
    ->
    snd e1 = Returned ->
    call_of sdk e2 = EncodeFrame_ pEnc /\
    Sdk.devmem sdk (world_of sdk e2) dst
    = layout pixels dstPitch w h fmt offs planes.

(** A copy that lands in its destination as it is. *)
Definition verbatim : Layout := fun bytes _ _ _ _ _ _ => bytes.

(** The image at [srcIn] is where it was, a copy reads it, and a frame
    that was filled is submitted as it is. *)
Definition submits (pEnc : pointer) (srcIn : GpuMat) (layout : Layout)
    (pixels : list byte) : St sdk -> St sdk -> Prop :=
  chains (fun w => Sdk.devmem sdk w (data srcIn) = pixels)
    (Hoare.copies_from sdk (data srcIn) pixels) copied
    (carries pEnc layout pixels).

(** Every result of the driver goes to [ck] at once. *)
Definition checks : St sdk -> St sdk -> Prop :=
  chains (fun _ => True) (fun _ => True) driver_call checked.

(** *** The size of the encoders *)

(** An entry of [new] that constructs an encoder does so with the columns
    and rows of an image that [imread] returned in [new]. *)
Definition image_sized (new : list (Entry sdk)) (e : Entry sdk) : Prop :=
  forall s,
    size_of (call_of sdk e) = Some s ->
    exists e0 filename m w,
      In e0 new /\ call_of sdk e0 = imread_ filename /\
      Sdk.imread sdk filename (world_of sdk e0) = Ret m w /\
      s = (cols m, rows m).

End Trace.

End Trace.

(** * Properties *)

(** ** The C library routines *)

Module CLibFacts.
Import CLib.

Lemma code_diff_zero (x y : ascii) :
  Z.of_nat (nat_of_ascii x) - Z.of_nat (nat_of_ascii y) = 0 <-> x = y.
Proof.
  split.
  - intro H.
    assert (E : nat_of_ascii x = nat_of_ascii y) by lia.
    rewrite <- (ascii_nat_embedding x), <- (ascii_nat_embedding y).
    now rewrite E.
  - intros ->. lia.
Qed.

(** [_stricmp] is zero exactly on strings that agree once lower-cased. *)
Lemma stricmp_zero (a : string) :
  forall b, _stricmp a b = 0 <-> strlwr a = strlwr b.
Proof.
  induction a as [|x a IH]; intros [|y b]; simpl.
  - tauto.
  - split; discriminate.
  - split; discriminate.
  - destruct (Z.eqb_spec
                (Z.of_nat (nat_of_ascii (tolower x))
                 - Z.of_nat (nat_of_ascii (tolower y))) 0) as [E|E].
    + apply code_diff_zero in E. rewrite IH. split.
      * intros ->. now rewrite E.
      * intro H. now inversion H.
    + split.
      * intro H. now elim E.
      * intro H. inversion H as [[H1 H2]]. elim E.
        now apply code_diff_zero.
Qed.

Lemma is_flag_true (a f : string) :
  is_true (Z.eqb (_stricmp a f) 0) <-> strlwr a = strlwr f.
Proof.
  unfold is_true. rewrite Z.eqb_eq. apply stricmp_zero.
Qed.

(** The only byte [tolower] maps to a dash is the dash. *)
Lemma tolower_dash (c : ascii) : tolower c = "-"%char -> c = "-"%char.
Proof.
  destruct c as [b0 b1 b2 b3 b4 b5 b6 b7].
  destruct b0, b1, b2, b3, b4, b5, b6, b7; vm_compute; intro H;
    first [reflexivity | discriminate H].
Qed.

Lemma first_char_lower_dash (a : string) :
  first_char (strlwr a) = "-"%char -> first_char a = "-"%char.
Proof.
  destruct a as [|c a]; simpl.
  - discriminate.
  - apply tolower_dash.
Qed.

(** [atoi] yields zero on a string that does not start with a number. *)
Lemma atoi_no_number (s : string) : starts_number s = false -> atoi s = 0.
Proof.
  unfold starts_number, atoi, scan_int.
  destruct (scan_sign (skip_space s)) as [neg s1]. simpl.
  destruct s1 as [|c r]; simpl.
  - intros _. reflexivity.
  - intros ->. reflexivity.
Qed.

Lemma std_find_None (v : list string) (x : string) :
  std_find v x = None <-> ~ In x v.
Proof.
  induction v as [|y v IH]; simpl.
  - tauto.
  - destruct (String.eqb_spec y x) as [->|N].
    + split; [discriminate | intro H; elim H; now left].
    + destruct (std_find v x) as [j|]; simpl.
      * split; [discriminate|]. intro H. exfalso.
        destruct IH as [_ IH].
        assert (Some j = None) by (apply IH; tauto). discriminate.
      * split; [|reflexivity]. intros _ [H|H]; [now elim N|].
        now apply (proj1 IH).
Qed.

Example atoi_digits : atoi "  -42" = -42.
Proof. reflexivity. Qed.

Example atoi_prefix : atoi "12abc" = 12.
Proof. reflexivity. Qed.

Example atoi_letters : atoi "abc" = 0.
Proof. reflexivity. Qed.

Example sscanf_WxH : sscanf_dxd "640x480" = (2, Some 640, Some 480).
Proof. reflexivity. Qed.

Example sscanf_width_only : sscanf_dxd "640" = (1, Some 640, None).
Proof. reflexivity. Qed.

Example sscanf_nothing : sscanf_dxd "wide" = (0, None, None).
Proof. reflexivity. Qed.

Example stricmp_case : _stricmp "-IF" "-if" = 0.
Proof. reflexivity. Qed.

Example string_of_int_375 : string_of_int 375 = "375".
Proof. reflexivity. Qed.

(** *** What [atoi] makes of a string *)

Lemma skip_space_app (ws s : string) :
  all_space ws = true -> isspace (first_char s) = false ->
  skip_space (ws ++ s) = s.
Proof.
  intros W S.
  induction ws as [|c ws IH]; cbn [append skip_space all_space] in *.
  - destruct s as [|d r]; [reflexivity|].
    cbn [first_char skip_space] in *. now rewrite S.
  - apply andb_prop in W. destruct W as [Wc W]. rewrite Wc. now apply IH.
Qed.

Lemma skip_space_split (s : string) :
  exists ws,
    s = ws ++ skip_space s /\ all_space ws = true /\
    isspace (first_char (skip_space s)) = false.
Proof.
  induction s as [|c r IH].
  - exists EmptyString. now repeat split.
  - cbn [skip_space]. destruct (isspace c) eqn:E.
    + destruct IH as (ws & E1 & E2 & E3). exists (String c ws).
      cbn [append all_space]. rewrite E, E2, <- E1. now repeat split.
    + exists EmptyString. cbn [append all_space first_char].
      now repeat split.
Qed.

Lemma scan_digits_app (ds rest : string) :
  all_digits ds = true -> isdigit (first_char rest) = false ->
  forall acc n,
    scan_digits (ds ++ rest) acc n
    = (decimal_from acc ds, (n + String.length ds)%nat, rest).
Proof.
  intros D R.
  induction ds as [|c ds IH]; intros acc n;
    cbn [append scan_digits all_digits decimal_from String.length] in *.
  - rewrite Nat.add_0_r. destruct rest as [|d r]; [reflexivity|].
    cbn [first_char scan_digits] in *. now rewrite R.
  - apply andb_prop in D. destruct D as [Dc D]. rewrite Dc.
    rewrite (IH D). now rewrite Nat.add_succ_r.
Qed.

Lemma digits_split (s : string) :
  exists ds rest,
    s = ds ++ rest /\ all_digits ds = true /\
    isdigit (first_char rest) = false.
Proof.
  induction s as [|c r IH].
  - exists EmptyString, EmptyString. now repeat split.
  - destruct (isdigit c) eqn:E.
    + destruct IH as (ds & rest & E1 & E2 & E3).
      exists (String c ds), rest. cbn [append all_digits].
      rewrite E, E2, <- E1. now repeat split.
    + exists EmptyString, (String c r). cbn [append all_digits first_char].
      now repeat split.
Qed.

(** The signs a number may carry: none, a plus or a minus. *)
Lemma scan_sign_app (sgn s : string) :
  In sgn [EmptyString; "+"; "-"] -> isdigit (first_char s) = true ->
  scan_sign (sgn ++ s) = (String.eqb sgn "-", s).
Proof.
  intros [<-|[<-|[<-|[]]]] D; try reflexivity.
  destruct s as [|c r]; [discriminate D|]. simpl in *.
  destruct (Ascii.eqb_spec c "-") as [->|_]; [discriminate D|].
  destruct (Ascii.eqb_spec c "+") as [->|_]; [discriminate D|].
  reflexivity.
Qed.

Lemma scan_sign_split (s : string) :
  exists sgn,
    In sgn [EmptyString; "+"; "-"] /\ s = sgn ++ snd (scan_sign s) /\
    fst (scan_sign s) = String.eqb sgn "-".
Proof.
  destruct s as [|c r].
  - exists EmptyString. simpl. tauto.
  - simpl. destruct (Ascii.eqb_spec c "-") as [->|N1].
    + exists "-". simpl. tauto.
    + destruct (Ascii.eqb_spec c "+") as [->|N2].
      * exists "+". simpl. tauto.
      * exists EmptyString. simpl. tauto.
Qed.

Lemma isdigit_not_space (c : ascii) : isdigit c = true -> isspace c = false.
Proof.
  unfold isdigit, isspace. intro H. apply andb_prop in H.
  destruct H as [H1 H2]. apply Nat.leb_le in H1. apply Nat.leb_le in H2.
  destruct (Nat.eqb_spec (nat_of_ascii c) 32) as [E|_]; [lia|].
  simpl. apply andb_false_intro2. apply Nat.leb_gt. lia.
Qed.

Lemma first_char_app (a b : string) :
  a <> EmptyString -> first_char (a ++ b) = first_char a.
Proof. destruct a; [now intro H; elim H | reflexivity]. Qed.

Lemma all_digits_first (ds : string) :
  all_digits ds = true -> ds <> EmptyString ->
  isdigit (first_char ds) = true.
Proof.
  destruct ds as [|c r]; [now intros _ H; elim H|]. simpl. intros H _.
  now apply andb_prop in H.
Qed.

(** [atoi] on white space, a sign, digits and whatever follows them: the
    number the digits write, with the sign, held to the range of [long] and
    cut down to an [int]. *)
Lemma atoi_number (ws sgn ds rest : string) :
  all_space ws = true -> In sgn [EmptyString; "+"; "-"] ->
  all_digits ds = true -> ds <> EmptyString ->
  isdigit (first_char rest) = false ->
  atoi (ws ++ sgn ++ ds ++ rest)
  = wrap32 (to_long (signed sgn (decimal ds))).
Proof.
  intros W S D N R. unfold atoi, scan_int.
  assert (F : isdigit (first_char (ds ++ rest)) = true).
  { rewrite first_char_app by exact N. now apply all_digits_first. }
  rewrite skip_space_app; [|exact W|].
  2:{ destruct S as [<-|[<-|[<-|[]]]]; try reflexivity.
      simpl. now apply isdigit_not_space. }
  rewrite (scan_sign_app sgn _ S F).
  rewrite (scan_digits_app ds rest D R). simpl.
  destruct ds as [|c r]; [now elim N|]. reflexivity.
Qed.

(** A string on which a conversion finds a number is of that form. *)
Lemma starts_number_split (s : string) :
  starts_number s = true ->
  exists ws sgn ds rest,
    s = ws ++ sgn ++ ds ++ rest /\
    all_space ws = true /\ In sgn [EmptyString; "+"; "-"] /\
    all_digits ds = true /\ ds <> EmptyString /\
    isdigit (first_char rest) = false.
Proof.
  unfold starts_number. intro H.
  destruct (skip_space_split s) as (ws & E1 & W & _).
  destruct (scan_sign_split (skip_space s)) as (sgn & S & E2 & _).
  destruct (digits_split (snd (scan_sign (skip_space s))))
    as (ds & rest & E3 & D & R).
  exists ws, sgn, ds, rest. repeat split; try assumption.
  - rewrite <- E3, <- E2. exact E1.
  - intros ->. simpl in E3. rewrite E3 in H. congruence.
Qed.

(** A number that an [int] holds comes through as it is. *)
Lemma wrap32_to_long (z : Z) :
  - 2 ^ 31 <= z <= INT_MAX -> wrap32 (to_long z) = z.
Proof.
  unfold INT_MAX, to_long, LONG_MAX, LONG_MIN. intro H.
  rewrite Z.min_r by lia. rewrite Z.max_r by lia.
  unfold wrap32. rewrite Z.mod_small; lia.
Qed.

(** Beyond the range of [long] the result is -1 or 0, whatever the digits. *)
Lemma wrap32_to_long_high (z : Z) : LONG_MAX <= z -> wrap32 (to_long z) = -1.
Proof.
  unfold to_long. intro H. rewrite Z.min_l by exact H.
  rewrite Z.max_r by (unfold LONG_MIN, LONG_MAX; lia). reflexivity.
Qed.

Lemma wrap32_to_long_low (z : Z) : z <= LONG_MIN -> wrap32 (to_long z) = 0.
Proof.
  unfold to_long. intro H.
  rewrite Z.min_r by (unfold LONG_MIN, LONG_MAX in *; lia).
  rewrite Z.max_l by exact H. reflexivity.
Qed.

Example atoi_beyond_long : atoi "99999999999999999999" = -1.
Proof. reflexivity. Qed.

Example atoi_below_long : atoi "-99999999999999999999" = 0.
Proof. reflexivity. Qed.

Example atoi_two_to_32 : atoi "4294967296abc" = 0.
Proof. reflexivity. Qed.

Example sscanf_beyond_long :
  sscanf_dxd "99999999999999999999x480" = (2, Some (-1), Some 480).
Proof. reflexivity. Qed.

End CLibFacts.

(** ** The monad *)

Module MonadFacts.
Import App Hoare.
Local Open Scope list_scope.

Section MonadFacts.

Variable sdk : Sdk.t.

Lemma bind_Val {A B} (m : M sdk A) (k : A -> M sdk B) st a st1 :
  m st = (Val a, st1) -> bind sdk m k st = k a st1.
Proof. unfold bind. now intros ->. Qed.

(** A sequence that returns went through both of its parts. *)
Lemma bind_inv {A B} (m : M sdk A) (k : A -> M sdk B) st b st' :
  bind sdk m k st = (Val b, st') ->
  exists a st1, m st = (Val a, st1) /\ k a st1 = (Val b, st').
Proof.
  unfold bind. destruct (m st) as [[a|what|status] st1]; intro H.
  - now exists a, st1.
  - discriminate H.
  - discriminate H.
Qed.

(** A run that yields a value, with the state it ends in. *)
Lemma run_pair {A} (m : M sdk A) st a :
  fst (m st) = Val a -> m st = (Val a, snd (m st)).
Proof. destruct (m st) as [r st']. simpl. now intros ->. Qed.

Lemma foreign_inv {A} c ans (f : Sdk.World sdk -> ext A (Sdk.World sdk))
    st a st' :
  foreign sdk c ans f st = (Val a, st') ->
  exists w,
    f (world sdk st) = Ret a w /\
    st' = mkSt sdk w (cout sdk st) (fpOut sdk st)
            (log sdk st ++ [(c, world sdk st, ans a)]).
Proof.
  unfold foreign. destruct (f (world sdk st)) as [x w|what w]; intro H.
  - inversion H. subst. now exists w.
  - discriminate H.
Qed.

(** The state after a foreign call, whatever it answered. *)
Lemma foreign_state {A} c ans (f : Sdk.World sdk -> ext A (Sdk.World sdk))
    st :
  exists r,
    snd (foreign sdk c ans f st)
    = mkSt sdk (after sdk (f (world sdk st))) (cout sdk st) (fpOut sdk st)
        (log sdk st ++ [(c, world sdk st, r)]) /\
    (forall v, r = Packets v ->
       exists a, fst (foreign sdk c ans f st) = Val a /\ ans a = Packets v).
Proof.
  unfold foreign. destruct (f (world sdk st)) as [x w|what w]; simpl.
  - exists (ans x). split; [reflexivity|]. intros v E. now exists x.
  - exists (Raised what). split; [reflexivity|]. discriminate.
Qed.

(** *** Rules for [effect], for a relation that is a preorder *)

Section Effect.

Variable R : St sdk -> St sdk -> Prop.
Context {HR : PreOrder R}.

Lemma effect_ret {A} (a : A) : effect sdk R (ret sdk a).
Proof. intro st. simpl. reflexivity. Qed.

Lemma effect_throw {A} what : effect sdk R (@throw sdk A what).
Proof. intro st. simpl. reflexivity. Qed.

Lemma effect_exit {A} status : effect sdk R (@exit sdk A status).
Proof. intro st. simpl. reflexivity. Qed.

Lemma effect_gets {A} (f : Sdk.World sdk -> A) : effect sdk R (gets sdk f).
Proof. intro st. simpl. reflexivity. Qed.

Lemma effect_bind {A B} (m : M sdk A) (k : A -> M sdk B) :
  effect sdk R m -> (forall a, effect sdk R (k a)) ->
  effect sdk R (bind sdk m k).
Proof.
  intros Hm Hk st. unfold bind. specialize (Hm st).
  destruct (m st) as [[a|what|status] st1]; simpl in *.
  - transitivity st1; [exact Hm | apply Hk].
  - exact Hm.
  - exact Hm.
Qed.

Lemma effect_for_each {A S} (body : A -> S -> M sdk S) (l : list A) :
  (forall x s, In x l -> effect sdk R (body x s)) ->
  forall s, effect sdk R (for_each sdk l body s).
Proof.
  induction l as [|x l IH]; intros Hb s; simpl.
  - apply effect_ret.
  - apply effect_bind.
    + apply Hb. now left.
    + intro s'. apply IH. intros y t Hy. apply Hb. now right.
Qed.

End Effect.

(** *** The relations are preorders *)

#[export] Instance grows_PreOrder (P : Entry sdk -> Prop)
  : PreOrder (grows sdk P).
Proof.
  split.
  - intro st. exists []. split; [now rewrite app_nil_r | constructor].
  - intros s1 s2 s3 [n1 [E1 F1]] [n2 [E2 F2]]. exists (n1 ++ n2). split.
    + now rewrite E2, E1, app_assoc.
    + apply Forall_app. now split.
Qed.

#[export] Instance keeps_PreOrder (I : Sdk.World sdk -> Prop)
    (P : Entry sdk -> Prop) : PreOrder (keeps sdk I P).
Proof.
  split.
  - intros st H. split; [exact H | reflexivity].
  - intros s1 s2 s3 H12 H23 H. destruct (H12 H) as [H2 G12].
    destruct (H23 H2) as [H3 G23]. split; [exact H3|].
    now transitivity s2.
Qed.

Lemma emitted_app (l1 l2 : list (Entry sdk)) :
  emitted sdk (l1 ++ l2) = emitted sdk l1 ++ emitted sdk l2.
Proof.
  induction l1 as [|[[c w] [|v|what]] l1 IH]; simpl; now rewrite ?IH.
Qed.

#[export] Instance drains_PreOrder : PreOrder (drains sdk).
Proof.
  split.
  - intros st H. split; [exact H|]. exists []. simpl.
    now rewrite !app_nil_r.
  - intros s1 s2 s3 H12 H23 H. destruct (H12 H) as [H2 [n1 [L1 W1]]].
    destruct (H23 H2) as [H3 [n2 [L2 W2]]]. split; [exact H3|].
    exists (n1 ++ n2). split.
    + now rewrite L2, L1, app_assoc.
    + now rewrite W2, W1, emitted_app, concat_app, app_assoc.
Qed.

End MonadFacts.

(** The rules, with the preorder found by instance search. *)
Ltac effect_seq :=
  lazymatch goal with
  | |- effect _ _ (bind _ _ _) => apply effect_bind; [exact _ | | intro]
  end.
Ltac effect_done :=
  lazymatch goal with
  | |- effect _ _ (ret _ _) => apply effect_ret; exact _
  | |- effect _ _ (throw _ _) => apply effect_throw; exact _
  | |- effect _ _ (exit _ _) => apply effect_exit; exact _
  | |- effect _ _ (gets _ _) => apply effect_gets; exact _
  end.
Ltac effect_loop :=
  lazymatch goal with
  | |- effect _ _ (for_each _ _ _ _) =>
      apply effect_for_each; [exact _ | intros ? ? ?]
  end.

End MonadFacts.

(** ** The command line *)

Module ParseFacts.
Import CLib App Hoare MonadFacts.

Section ParseFacts.

Variable sdk : Sdk.t.

(** A token that matches one flag matches another only if the flags agree
    up to case. *)
Lemma is_flag_other (a f g : string) :
  is_flag a f = true -> is_flag f g = false -> is_flag a g = false.
Proof.
  unfold is_flag. intros Hf Hg.
  destruct (Z.eqb (_stricmp a g) 0) eqn:E; [|reflexivity].
  apply CLibFacts.is_flag_true in Hf, E.
  assert (H : is_true (Z.eqb (_stricmp f g) 0))
    by (apply CLibFacts.is_flag_true; congruence).
  unfold is_true in H. congruence.
Qed.

(** A token that matches a flag starts with a dash, as the flag does. *)
Lemma is_flag_dash (a f : string) :
  is_flag a f = true -> first_char (strlwr f) = "-"%char ->
  no_dash a = false.
Proof.
  unfold is_flag, no_dash. intros Hf Hd.
  apply CLibFacts.is_flag_true in Hf. rewrite <- Hf in Hd.
  apply CLibFacts.first_char_lower_dash in Hd. now rewrite Hd.
Qed.

(** With an option to complain about, [ShowHelpAndExit] throws. *)
Lemma ShowHelpAndExit_throws {A} (bad : string) st :
  throws sdk (@ShowHelpAndExit sdk A (Some bad)) st.
Proof.
  unfold throws, ShowHelpAndExit, bind, NvEncoderInitParam_default, foreign.
  destruct (Sdk.NvEncoderInitParam_default sdk (world sdk st)) as [p w|what w].
  - eexists. eexists. reflexivity.
  - eexists. eexists. reflexivity.
Qed.

(** The text of the exception, when the encoder's own help is at hand. *)
Lemma ShowHelpAndExit_what {A} (bad : string) st p w :
  Sdk.NvEncoderInitParam_default sdk (world sdk st) = Ret p w ->
  fst (@ShowHelpAndExit sdk A (Some bad) st)
  = Throw (help_head (Some bad) ++ Sdk.GetHelpMessage sdk p ++ endl).
Proof.
  intro H. unfold ShowHelpAndExit, bind, NvEncoderInitParam_default, foreign.
  now rewrite H.
Qed.

Ltac skip_flag H g := rewrite (is_flag_other _ _ g H eq_refl).

(** *** One step of the loop, flag by flag *)

Lemma parse_i a v rest o oss :
  is_flag a "-i" = true ->
  parse_args sdk (a :: v :: rest) o oss
  = parse_args sdk rest (set_szInputFileName v o) oss.
Proof.
  intro H. cbn [parse_args]. skip_flag H "-h". now rewrite H.
Qed.

Lemma parse_o a v rest o oss :
  is_flag a "-o" = true ->
  parse_args sdk (a :: v :: rest) o oss
  = parse_args sdk rest (set_szOutputFileName v o) oss.
Proof.
  intro H. cbn [parse_args]. skip_flag H "-h". skip_flag H "-i".
  now rewrite H.
Qed.

Lemma parse_s a v rest o oss w h :
  is_flag a "-s" = true -> sscanf_dxd v = (2, Some w, Some h) ->
  parse_args sdk (a :: v :: rest) o oss = parse_args sdk rest (set_size w h o) oss.
Proof.
  intros H E. cbn [parse_args]. skip_flag H "-h". skip_flag H "-i".
  skip_flag H "-o". now rewrite H, E.
Qed.

Lemma parse_s_bad a v rest o oss :
  is_flag a "-s" = true -> fst (fst (sscanf_dxd v)) <> 2 ->
  parse_args sdk (a :: v :: rest) o oss = ShowHelpAndExit sdk (Some "-s").
Proof.
  intros H E. cbn [parse_args]. skip_flag H "-h". skip_flag H "-i".
  skip_flag H "-o". rewrite H.
  destruct (sscanf_dxd v) as [[n w] h]. simpl in E.
  destruct (Z.eqb_spec 2 n) as [<-|N]; [now elim E | reflexivity].
Qed.

Lemma parse_if a v rest o oss :
  is_flag a "-if" = true ->
  parse_args sdk (a :: v :: rest) o oss
  = match std_find vszFileFormatName v with
    | None => ShowHelpAndExit sdk (Some "-if")
    | Some k =>
        parse_args sdk rest
          (set_eFormat (nth k aFormat NV_ENC_BUFFER_FORMAT_IYUV) o) oss
    end.
Proof.
  intro H. cbn [parse_args]. skip_flag H "-h". skip_flag H "-i".
  skip_flag H "-o". skip_flag H "-s". now rewrite H.
Qed.

Lemma parse_gpu a v rest o oss :
  is_flag a "-gpu" = true ->
  parse_args sdk (a :: v :: rest) o oss
  = parse_args sdk rest (set_iGpu (atoi v) o) oss.
Proof.
  intro H. cbn [parse_args]. skip_flag H "-h". skip_flag H "-i".
  skip_flag H "-o". skip_flag H "-s". skip_flag H "-if". now rewrite H.
Qed.

Lemma parse_cuStreamType a v rest o oss :
  is_flag a "-cuStreamType" = true ->
  parse_args sdk (a :: v :: rest) o oss
  = parse_args sdk rest (set_cuStreamType (atoi v) o) oss.
Proof.
  intro H. cbn [parse_args]. skip_flag H "-h". skip_flag H "-i".
  skip_flag H "-o". skip_flag H "-s". skip_flag H "-if".
  skip_flag H "-gpu". now rewrite H.
Qed.

Lemma parse_missing_value a o oss st :
  takes_value a -> throws sdk (parse_args sdk [a] o oss) st.
Proof.
  intros [H|[H|[H|[H|[H|H]]]]]; cbn [parse_args]; skip_flag H "-h".
  - rewrite H. apply ShowHelpAndExit_throws.
  - skip_flag H "-i". rewrite H. apply ShowHelpAndExit_throws.
  - skip_flag H "-i". skip_flag H "-o". rewrite H.
    apply ShowHelpAndExit_throws.
  - skip_flag H "-i". skip_flag H "-o". skip_flag H "-s". rewrite H.
    apply ShowHelpAndExit_throws.
  - skip_flag H "-i". skip_flag H "-o". skip_flag H "-s".
    skip_flag H "-if". rewrite H. apply ShowHelpAndExit_throws.
  - skip_flag H "-i". skip_flag H "-o". skip_flag H "-s".
    skip_flag H "-if". skip_flag H "-gpu". rewrite H.
    apply ShowHelpAndExit_throws.
Qed.

(** An argument that is no flag and does not start with a dash. *)
Lemma parse_stray a rest o oss st :
  no_flag a -> no_dash a = true ->
  throws sdk (parse_args sdk (a :: rest) o oss) st.
Proof.
  intros (H1 & H2 & H3 & H4 & H5 & H6 & H7) D. cbn [parse_args].
  rewrite H1, H2, H3, H4, H5, H6, H7, D. apply ShowHelpAndExit_throws.
Qed.

(** An option the loop does not know goes to the encoder's options, with
    the one value that follows it. *)
Lemma parse_forwarded a v rest o oss :
  no_flag a -> no_dash a = false -> no_dash v = true ->
  match rest with [] => True | b :: _ => no_dash b = false end ->
  parse_args sdk (a :: v :: rest) o oss
  = parse_args sdk rest o ((oss ++ a ++ " ") ++ v ++ " ").
Proof.
  intros (H1 & H2 & H3 & H4 & H5 & H6 & H7) D Dv Dr. cbn [parse_args].
  rewrite H1, H2, H3, H4, H5, H6, H7, D, Dv.
  destruct rest as [|b rest]; [reflexivity|]. now rewrite Dr.
Qed.

Lemma outputInVidMem_no_flag a :
  is_flag a "-outputInVidMem" = true -> no_flag a /\ no_dash a = false.
Proof.
  intro H. split.
  - repeat split; now apply (is_flag_other _ _ _ H).
  - now apply (is_flag_dash _ _ H).
Qed.

End ParseFacts.

End ParseFacts.

(** ** The encoder *)

Module EncodeFacts.
Import CLib App Hoare MonadFacts.
Local Open Scope list_scope.

Section EncodeFacts.

Variable sdk : Sdk.t.

(** *** What each step does to the log *)

Section Keeps.

Variable Inv : Sdk.World sdk -> Prop.
Variable P : Entry sdk -> Prop.

Lemma keeps_same (st st' : St sdk) :
  world sdk st' = world sdk st -> log sdk st' = log sdk st ->
  keeps sdk Inv P st st'.
Proof.
  intros Hw Hl HI. split; [now rewrite Hw|]. exists [].
  split; [now rewrite Hl, app_nil_r | constructor].
Qed.

Lemma keeps_foreign {A} c ans
    (f : Sdk.World sdk -> ext A (Sdk.World sdk)) :
  (forall w, Inv w -> Inv (after sdk (f w))) ->
  (forall w r, Inv w -> P (c, w, r)) ->
  effect sdk (keeps sdk Inv P) (foreign sdk c ans f).
Proof.
  intros Hw HP st HI.
  destruct (foreign_state sdk c ans f st) as [r [E _]]. rewrite E. simpl.
  split; [now apply Hw|]. exists [(c, world sdk st, r)].
  split; [reflexivity|]. constructor; [now apply HP | constructor].
Qed.

Lemma keeps_foreign_c {A} c (f : Sdk.World sdk -> A * Sdk.World sdk) :
  (forall w, Inv w -> Inv (snd (f w))) ->
  (forall w r, Inv w -> P (c, w, r)) ->
  effect sdk (keeps sdk Inv P) (foreign_c sdk c f).
Proof.
  intros Hw HP. apply keeps_foreign; [|exact HP].
  intros w HI. specialize (Hw w HI). now destruct (f w).
Qed.

Lemma keeps_print s : effect sdk (keeps sdk Inv P) (print sdk s).
Proof. intro st. now apply keeps_same. Qed.

Lemma keeps_fpOut_write p : effect sdk (keeps sdk Inv P) (fpOut_write sdk p).
Proof. intro st. now apply keeps_same. Qed.

Lemma keeps_fpOut_good : effect sdk (keeps sdk Inv P) (fpOut_good sdk).
Proof. intro st. now apply keeps_same. Qed.

Lemma keeps_ofstream_open filename :
  (forall w, Inv w -> Inv (snd (Sdk.ofstream_open sdk filename w))) ->
  (forall w r, Inv w -> P (ofstream_open_ filename, w, r)) ->
  effect sdk (keeps sdk Inv P) (ofstream_open sdk filename).
Proof.
  intros Hw HP. unfold ofstream_open. effect_seq.
  - now apply keeps_foreign_c.
  - intro st. now apply keeps_same.
Qed.

End Keeps.

(** With no condition on the world, [keeps] is [grows]. *)
Lemma keeps_grows (P : Entry sdk -> Prop) (st st' : St sdk) :
  keeps sdk (fun _ => True) P st st' -> grows sdk P st st'.
Proof. intro H. now apply H. Qed.

(** *** What each step does to the stream *)

#[export] Instance mute_PreOrder : PreOrder (mute sdk).
Proof.
  split.
  - intro st. split; [reflexivity|]. exists []. now rewrite app_nil_r.
  - intros s1 s2 s3 [F1 [n1 [L1 E1]]] [F2 [n2 [L2 E2]]]. split.
    + congruence.
    + exists (n1 ++ n2). split.
      * now rewrite L2, L1, app_assoc.
      * now rewrite emitted_app, E1, E2.
Qed.

Lemma mute_foreign {A} c (f : Sdk.World sdk -> ext A (Sdk.World sdk)) :
  effect sdk (mute sdk) (foreign sdk c quiet f).
Proof.
  intro st. unfold foreign.
  destruct (f (world sdk st)) as [a w|what w]; simpl;
    (split; [reflexivity|]); eexists; (split; [reflexivity|]); reflexivity.
Qed.

Lemma mute_print s : effect sdk (mute sdk) (print sdk s).
Proof.
  intro st. split; [reflexivity|]. exists []. simpl. now rewrite app_nil_r.
Qed.

Lemma mute_drains (st st' : St sdk) : mute sdk st st' -> drains sdk st st'.
Proof.
  intros [F [new [L E]]] G. rewrite F. split; [exact G|]. exists new.
  split; [exact L|]. rewrite E. simpl. now rewrite app_nil_r.
Qed.

Lemma emits_foreign c (f : Sdk.World sdk -> ext (list packet) (Sdk.World sdk)) :
  emits sdk (foreign sdk c Packets f).
Proof.
  intro st. unfold foreign.
  destruct (f (world sdk st)) as [v w|what w]; simpl;
    (split; [reflexivity|]); eexists; (split; [reflexivity|]); reflexivity.
Qed.

Lemma emits_bind {A} (m : M sdk A) (k : A -> M sdk (list packet)) :
  effect sdk (mute sdk) m -> (forall a, emits sdk (k a)) ->
  emits sdk (bind sdk m k).
Proof.
  intros Hm Hk st. unfold bind. destruct (Hm st) as [F [n1 [L1 E1]]].
  destruct (m st) as [[a|what|status] st1]; simpl in *.
  - destruct (Hk a st1) as [F2 [n2 [L2 E2]]]. split; [congruence|].
    exists (n1 ++ n2). split.
    + now rewrite L2, L1, app_assoc.
    + now rewrite emitted_app, E1, E2.
  - split; [exact F|]. now exists n1.
  - split; [exact F|]. now exists n1.
Qed.

(** Writing the packets of a vector: the state afterwards. *)
Lemma write_packets_run (v : list packet) :
  forall st,
    write_packets sdk v st
    = (Val tt,
       mkSt sdk (world sdk st) (cout sdk st)
         (if good (fpOut sdk st)
          then {| good := true; written := written (fpOut sdk st) ++ v |}
          else fpOut sdk st)
         (log sdk st)).
Proof.
  unfold write_packets.
  induction v as [|p v IH]; intros [w c [g wr] l].
  - unfold ret. simpl. destruct g; now rewrite ?app_nil_r.
  - cbn [for_each]. unfold bind at 1. unfold fpOut_write at 1.
    cbn [good fpOut written world cout log]. rewrite IH.
    cbn [good fpOut written world cout log].
    destruct g; [|reflexivity]. simpl. now rewrite <- app_assoc.
Qed.

(** The calls of one iteration hand back one vector, if they return. *)
Lemma emits_calls pEnc cuContext (srcIn : GpuMat) (i : Z) :
  emits sdk
    (if Z.ltb i last_frame then
       bind sdk (GetNextInputFrame sdk pEnc) (fun encoderInputFrame =>
       bind sdk (gets sdk (Sdk.GetEncodeWidth sdk pEnc)) (fun width =>
       bind sdk (gets sdk (Sdk.GetEncodeHeight sdk pEnc)) (fun height =>
       bind sdk
         (CopyToDeviceFrame sdk cuContext (data srcIn) 0
            (inputPtr encoderInputFrame)
            (wrap32 (pitch encoderInputFrame))
            width height CU_MEMORYTYPE_HOST
            (bufferFormat encoderInputFrame)
            (chromaOffsets encoderInputFrame)
            (numChromaPlanes encoderInputFrame))
         (fun _ => EncodeFrame sdk pEnc))))
     else EndEncode sdk pEnc).
Proof.
  destruct (Z.ltb i last_frame).
  - apply emits_bind; [apply mute_foreign | intro f].
    apply emits_bind; [effect_done | intro w].
    apply emits_bind; [effect_done | intro h].
    apply emits_bind; [apply mute_foreign | intros _].
    apply emits_foreign.
  - apply emits_foreign.
Qed.

Lemma drains_encode_step pEnc cuContext srcIn nFrameSize i nFrame :
  effect sdk (drains sdk)
    (encode_step sdk pEnc cuContext srcIn nFrameSize i nFrame).
Proof.
  intro st. unfold encode_step. cbv zeta. unfold bind at 1.
  destruct (emits_calls pEnc cuContext srcIn i st) as [F [new [L E]]].
  match goal with
  | |- context [match ?m st with _ => _ end] =>
      destruct (m st) as [[v|what|status] st1]
  end; simpl in F, L, E.
  - unfold bind. rewrite write_packets_run. simpl. intro G.
    rewrite F, G. simpl. split; [reflexivity|]. exists new.
    split; [exact L|]. rewrite E. simpl. now rewrite app_nil_r.
  - simpl. apply mute_drains. split; [exact F|]. now exists new.
  - simpl. apply mute_drains. split; [exact F|]. now exists new.
Qed.

Lemma drains_foreign {A} c (f : Sdk.World sdk -> ext A (Sdk.World sdk)) :
  effect sdk (drains sdk) (foreign sdk c quiet f).
Proof. intro st. apply mute_drains. apply mute_foreign. Qed.

Lemma drains_print s : effect sdk (drains sdk) (print sdk s).
Proof. intro st. apply mute_drains. apply mute_print. Qed.

(** Whatever [EncodeCuda] does, an open stream has received exactly the
    packets the encoder returned, in the order it returned them. *)
Lemma drains_EncodeCuda nWidth nHeight encodeCLIOptions cuContext srcIn :
  effect sdk (drains sdk)
    (EncodeCuda sdk nWidth nHeight encodeCLIOptions cuContext srcIn).
Proof.
  unfold EncodeCuda, InitializeEncoder, encode_loop, NvEncoderCuda,
    CreateDefaultEncoderParams, SetInitParams, CreateEncoder, DestroyEncoder.
  cbv zeta.
  repeat first
    [ effect_seq | effect_done | apply drains_foreign | apply drains_print
    | effect_loop; apply drains_encode_step ].
Qed.

(** *** Formats, sizes and sources in the log *)

Ltac log_walk side :=
  cbv zeta;
  repeat first
    [ effect_seq | effect_done | effect_loop
    | apply keeps_print | apply keeps_fpOut_write | apply keeps_fpOut_good
    | apply keeps_foreign; [side | side]
    | apply keeps_foreign_c; [side | side]
    | apply keeps_ofstream_open; [side | side]
    | match goal with
      | |- effect _ _ (let '(_, _) := ?x in _) => destruct x
      | |- effect _ _ (if ?b then _ else _) => destruct b
      end ].

Ltac unfold_calls :=
  unfold EncodeCuda, InitializeEncoder, encode_loop, encode_step,
    write_packets, NvEncoderCuda, CreateDefaultEncoderParams, SetInitParams,
    CreateEncoder, GetNextInputFrame, CopyToDeviceFrame, EncodeFrame,
    EndEncode, DestroyEncoder, cuDeviceGet, cuDeviceGetName, cuCtxCreate,
    ck.

Ltac format_side :=
  first [ now intros
        | intros ? ? _ g Hg; simpl in Hg; congruence ].

Lemma EncodeCuda_format nWidth nHeight encodeCLIOptions cuContext srcIn :
  effect sdk
    (keeps sdk (fun _ => True) (with_format sdk NV_ENC_BUFFER_FORMAT_ABGR))
    (EncodeCuda sdk nWidth nHeight encodeCLIOptions cuContext srcIn).
Proof. unfold_calls. log_walk format_side. Qed.

Lemma main_encode_format x :
  effect sdk
    (keeps sdk (fun _ => True) (with_format sdk NV_ENC_BUFFER_FORMAT_ABGR))
    (main_encode sdk x).
Proof.
  unfold main_encode, main_device, main_output. cbv zeta.
  destruct (out_of_range _ _).
  - log_walk format_side.
  - unfold cuDeviceGet, cuDeviceGetName, cuCtxCreate, ck.
    log_walk format_side; apply EncodeCuda_format.
Qed.

Lemma EncodeCuda_size nWidth nHeight encodeCLIOptions cuContext srcIn :
  effect sdk (keeps sdk (fun _ => True) (with_size sdk nWidth nHeight))
    (EncodeCuda sdk nWidth nHeight encodeCLIOptions cuContext srcIn).
Proof. unfold_calls. log_walk format_side. Qed.

Lemma main_encode_size x :
  effect sdk
    (keeps sdk (fun _ => True)
       (with_size sdk (nWidth (opts sdk (locals sdk x)))
          (nHeight (opts sdk (locals sdk x)))))
    (main_encode sdk x).
Proof.
  unfold main_encode, main_device, main_output. cbv zeta.
  destruct (out_of_range _ _).
  - log_walk format_side.
  - unfold cuDeviceGet, cuDeviceGetName, cuCtxCreate, ck.
    log_walk format_side; apply EncodeCuda_size.
Qed.

(** As long as the encoder's calls leave the image alone, every copy of the
    loop reads the same bytes from the same place. *)
Lemma encode_loop_source pEnc cuContext srcIn nFrameSize nFrame bytes :
  leaves sdk (data srcIn) (Sdk.GetNextInputFrame sdk pEnc) ->
  (forall dst dstPitch w h fmt offs planes,
     leaves sdk (data srcIn)
       (Sdk.CopyToDeviceFrame sdk cuContext (data srcIn) 0 dst dstPitch w h
          CU_MEMORYTYPE_HOST fmt offs planes)) ->
  leaves sdk (data srcIn) (Sdk.EncodeFrame sdk pEnc) ->
  leaves sdk (data srcIn) (Sdk.EndEncode sdk pEnc) ->
  effect sdk
    (keeps sdk (fun w => Sdk.devmem sdk w (data srcIn) = bytes)
       (copies_from sdk (data srcIn) bytes))
    (encode_loop sdk pEnc cuContext srcIn nFrameSize nFrame).
Proof.
  intros Hget Hcopy Henc Hend. unfold_calls.
  log_walk
    ltac:(first
      [ intros w0 HI; first [rewrite Hget | rewrite Hcopy | rewrite Henc
                            | rewrite Hend]; exact HI
      | intros w0 r HI Hc; simpl in Hc;
        first [discriminate Hc | now split] ]).
Qed.

(** *** Runs that return *)

Lemma gets_inv {A} (f : Sdk.World sdk -> A) st a st' :
  gets sdk f st = (Val a, st') -> a = f (world sdk st) /\ st' = st.
Proof. unfold gets. intro H. inversion H. now split. Qed.

Lemma for_each_app {A S} (body : A -> S -> M sdk S) (l1 l2 : list A) :
  forall s st,
    for_each sdk (l1 ++ l2) body s st
    = bind sdk (for_each sdk l1 body s) (for_each sdk l2 body) st.
Proof.
  induction l1 as [|x l1 IH]; intros s st; simpl.
  - reflexivity.
  - unfold bind.
    destruct (body x s st) as [[s'|what|status] st1]; [|reflexivity..].
    rewrite IH. reflexivity.
Qed.

Lemma kinds_app (l1 l2 : list (Entry sdk)) :
  kinds sdk (l1 ++ l2) = kinds sdk l1 ++ kinds sdk l2.
Proof. apply map_app. Qed.

(** One iteration that returns: its calls, the vector it got, the count. *)
Lemma encode_step_returns pEnc cuContext srcIn nFrameSize i nFrame st n' st' :
  encode_step sdk pEnc cuContext srcIn nFrameSize i nFrame st = (Val n', st')
  ->
  exists v new,
    log sdk st' = log sdk st ++ new /\
    kinds sdk new
    = (if Z.ltb i last_frame then submission else [K_EndEncode]) /\
    emitted sdk new = [v] /\
    n' = wrap32 (nFrame + wrap32 (Z.of_nat (List.length v))) /\
    cout sdk st' = cout sdk st.
Proof.
  unfold encode_step. cbv zeta. intro H.
  apply bind_inv in H. destruct H as (v & st1 & H1 & H).
  apply bind_inv in H. destruct H as (u & st2 & H2 & H).
  rewrite write_packets_run in H2. inversion H2. subst st2. clear H2.
  unfold ret in H. inversion H. subst n' st'. clear H.
  exists v. destruct (Z.ltb i last_frame).
  - apply bind_inv in H1. destruct H1 as (f & s1 & G & H1).
    apply foreign_inv in G. destruct G as (w1 & _ & ->).
    apply bind_inv in H1. destruct H1 as (wd & s2 & G & H1).
    apply gets_inv in G. destruct G as [_ ->].
    apply bind_inv in H1. destruct H1 as (ht & s3 & G & H1).
    apply gets_inv in G. destruct G as [_ ->].
    apply bind_inv in H1. destruct H1 as (u' & s4 & G & H1).
    apply foreign_inv in G. destruct G as (w2 & _ & ->).
    apply foreign_inv in H1. destruct H1 as (w3 & _ & ->).
    simpl. eexists.
    split; [rewrite <- !app_assoc; simpl; reflexivity | now repeat split].
  - apply foreign_inv in H1. destruct H1 as (w1 & _ & ->).
    simpl. eexists. split; [reflexivity | now repeat split].
Qed.

Lemma tally_cons n v vs :
  tally (wrap32 (n + wrap32 (Z.of_nat (List.length v)))) vs
  = tally n (v :: vs).
Proof. reflexivity. Qed.

Lemma tally_cons_aux n v vs :
  tally n (v :: vs)
  = tally (wrap32 (n + wrap32 (Z.of_nat (List.length v)))) vs.
Proof. reflexivity. Qed.

(** A run of submissions only. *)
Lemma submissions_return pEnc cuContext srcIn nFrameSize (l : list Z) :
  Forall (fun i => Z.ltb i last_frame = true) l ->
  forall nFrame st n' st',
    for_each sdk l (encode_step sdk pEnc cuContext srcIn nFrameSize) nFrame st
    = (Val n', st') ->
    exists new,
      log sdk st' = log sdk st ++ new /\
      kinds sdk new = submissions (List.length l) /\
      List.length (emitted sdk new) = List.length l /\
      n' = tally nFrame (emitted sdk new) /\
      cout sdk st' = cout sdk st.
Proof.
  induction 1 as [|i l Hi Hl IH]; intros nFrame st n' st' H.
  - simpl in H. unfold ret in H. inversion H. subst. exists [].
    rewrite app_nil_r. now repeat split.
  - simpl in H. apply bind_inv in H. destruct H as (n1 & st1 & H1 & H2).
    apply encode_step_returns in H1.
    destruct H1 as (v & new1 & L1 & K1 & E1 & N1 & C1).
    apply IH in H2. destruct H2 as (new2 & L2 & K2 & E2 & N2 & C2).
    rewrite Hi in K1. exists (new1 ++ new2). repeat split.
    + now rewrite L2, L1, app_assoc.
    + rewrite kinds_app, K1, K2. reflexivity.
    + rewrite emitted_app, E1. simpl. now rewrite E2.
    + rewrite emitted_app, E1. simpl. rewrite N2, N1. apply tally_cons.
    + congruence.
Qed.

Lemma tally_app n vs ws : tally n (vs ++ ws) = tally (tally n vs) ws.
Proof. apply fold_left_app. Qed.

(** The loop, when it returns: 375 submissions, then the flush. *)
Lemma encode_loop_returns pEnc cuContext srcIn nFrameSize nFrame st n' st' :
  encode_loop sdk pEnc cuContext srcIn nFrameSize nFrame st = (Val n', st') ->
  exists new,
    log sdk st' = log sdk st ++ new /\
    kinds sdk new = submissions 375 ++ [K_EndEncode] /\
    List.length (emitted sdk new) = 376%nat /\
    n' = tally nFrame (emitted sdk new) /\
    cout sdk st' = cout sdk st.
Proof.
  unfold encode_loop.
  change (range (last_frame + 1)) with (range 375 ++ [375]).
  rewrite for_each_app. intro H.
  apply bind_inv in H. destruct H as (n1 & st1 & H1 & H2).
  apply submissions_return in H1.
  2:{ apply Forall_forall. intros i Hi.
      assert (F : forallb (fun i => Z.ltb i last_frame) (range 375) = true)
        by (vm_compute; reflexivity).
      rewrite forallb_forall in F. now apply F. }
  destruct H1 as (new1 & L1 & K1 & E1 & N1 & C1).
  simpl in H2. apply bind_inv in H2. destruct H2 as (n2 & st2 & H2 & H3).
  unfold ret in H3. inversion H3. subst n2 st2. clear H3.
  apply encode_step_returns in H2.
  destruct H2 as (v & new2 & L2 & K2 & E2 & N2 & C2).
  change (Z.ltb 375 last_frame) with false in K2.
  exists (new1 ++ new2). repeat split.
  - now rewrite L2, L1, app_assoc.
  - rewrite kinds_app, K1, K2. reflexivity.
  - rewrite emitted_app, length_app, E1, E2. reflexivity.
  - rewrite emitted_app, tally_app, <- N1, E2. simpl. exact N2.
  - congruence.
Qed.

(** [EncodeCuda], when it returns: the calls it made and what it printed. *)
Lemma EncodeCuda_returns nWidth nHeight encodeCLIOptions cuContext srcIn
    st st' :
  EncodeCuda sdk nWidth nHeight encodeCLIOptions cuContext srcIn st
  = (Val tt, st') ->
  exists new,
    log sdk st' = log sdk st ++ new /\
    kinds sdk new = EncodeCuda_calls /\
    List.length (emitted sdk new) = 376%nat /\
    cout sdk st'
    = (cout sdk st
       ++ ("Total frames encoded: "
           ++ string_of_int (tally 0 (emitted sdk new)) ++ endl))%string.
Proof.
  unfold EncodeCuda, InitializeEncoder. cbv zeta. intro H.
  apply bind_inv in H. destruct H as (pEnc & s1 & G & H).
  apply foreign_inv in G. destruct G as (w1 & _ & ->).
  apply bind_inv in H. destruct H as (u & s2 & G & H).
  apply bind_inv in G. destruct G as (p1 & s3 & G1 & G).
  apply foreign_inv in G1. destruct G1 as (w2 & _ & ->).
  apply bind_inv in G. destruct G as (p2 & s4 & G1 & G).
  apply foreign_inv in G1. destruct G1 as (w3 & _ & ->).
  apply foreign_inv in G. destruct G as (w4 & _ & ->).
  apply bind_inv in H. destruct H as (fs & s5 & G & H).
  apply gets_inv in G. destruct G as [_ ->].
  apply bind_inv in H. destruct H as (n & s6 & G & H).
  apply encode_loop_returns in G. destruct G as (new & L & K & E & N & C).
  apply bind_inv in H. destruct H as (u' & s7 & G & H).
  apply foreign_inv in G. destruct G as (w5 & _ & ->).
  unfold print in H. inversion H. subst st'. clear H. simpl in *.
  eexists. split; [|split; [|split]].
  - rewrite L. rewrite <- !app_assoc. simpl. reflexivity.
  - simpl. rewrite kinds_app, K. reflexivity.
  - simpl. rewrite emitted_app. simpl. now rewrite app_nil_r.
  - simpl. rewrite emitted_app. simpl. rewrite app_nil_r, C, N. reflexivity.
Qed.

Lemma added_app (l new : list (Entry sdk)) : added sdk l (l ++ new) = new.
Proof.
  unfold added. rewrite skipn_app, skipn_all, Nat.sub_diag. reflexivity.
Qed.

Lemma wrap32_small (z : Z) : - 2 ^ 31 <= z < 2 ^ 31 -> wrap32 z = z.
Proof.
  intro H. unfold wrap32. rewrite Z.mod_small; lia.
Qed.

(** The counter holds the number of packets as long as that is an [int]. *)
Lemma tally_exact (vs : list (list packet)) :
  forall n,
    0 <= n -> n + Z.of_nat (List.length (List.concat vs)) <= INT_MAX ->
    tally n vs = n + Z.of_nat (List.length (List.concat vs)).
Proof.
  unfold INT_MAX.
  induction vs as [|v vs IH]; intros n H0 H.
  - simpl. lia.
  - cbn [List.concat] in *. rewrite length_app in *. rewrite tally_cons_aux.
    rewrite (wrap32_small (Z.of_nat (List.length v))) by lia.
    rewrite wrap32_small by lia. rewrite IH by lia. lia.
Qed.

Lemma concat_nonempty {A} (l : list (list A)) (p : list A) :
  In p l -> p <> [] -> List.concat l <> [].
Proof.
  induction l as [|q l IH]; simpl; intros Hin Hp.
  - contradiction.
  - destruct Hin as [->|Hin].
    + destruct p; [now elim Hp | discriminate].
    + intro E. apply app_eq_nil in E. destruct E as [_ E].
      now apply (IH Hin Hp).
Qed.

Lemma split_last {A} (l : list A) (n : nat) (d : A) :
  List.length l = S n -> l = firstn n l ++ [nth n l d].
Proof.
  revert l. induction n as [|n IH]; intros [|x l] H; simpl in *;
    try discriminate.
  - destruct l; [reflexivity | discriminate].
  - f_equal. apply IH. now inversion H.
Qed.

(** A run of [EncodeCuda] that returns, on a fresh stream: what is in the
    file and what was printed, as long as the number of packets is an
    [int]. *)
Lemma EncodeCuda_count nWidth nHeight encodeCLIOptions cuContext srcIn st st' :
  good (fpOut sdk st) = true ->
  written (fpOut sdk st) = [] ->
  EncodeCuda sdk nWidth nHeight encodeCLIOptions cuContext srcIn st
  = (Val tt, st') ->
  exists new,
    log sdk st' = log sdk st ++ new /\
    good (fpOut sdk st') = true /\
    written (fpOut sdk st') = List.concat (emitted sdk new) /\
    List.length (emitted sdk new) = 376%nat /\
    (Z.of_nat (List.length (List.concat (emitted sdk new))) <= INT_MAX ->
     cout sdk st'
     = (cout sdk st
        ++ ("Total frames encoded: "
            ++ string_of_int
                 (Z.of_nat (List.length (List.concat (emitted sdk new))))
            ++ endl))%string).
Proof.
  intros G W0 H.
  destruct (drains_EncodeCuda nWidth nHeight encodeCLIOptions cuContext
              srcIn st G) as [G' [new' [L' W]]].
  rewrite H in G', L', W. simpl in G', L', W. rewrite W0 in W. simpl in W.
  apply EncodeCuda_returns in H. destruct H as (new & L & _ & E & C).
  rewrite L in L'. apply app_inv_head in L'. subst new'.
  exists new. repeat split; try assumption.
  intro Hmax. rewrite C.
  rewrite tally_exact by (unfold INT_MAX in *; lia). reflexivity.
Qed.

End EncodeFacts.

End EncodeFacts.

(** ** The main function *)

Module MainFacts.
Import CLib App Hoare MonadFacts ParseFacts EncodeFacts.
Local Open Scope list_scope.

Section MainFacts.

Variable sdk : Sdk.t.

(** The handler: an exception from the [try] block ends the run with
    status 1, its text printed, and nothing else done. *)
Lemma main_catches argv st what st1 :
  main_try sdk argv st = (Throw what, st1) ->
  main sdk argv st = (1, caught sdk what st1).
Proof. unfold main. now intros ->. Qed.

(** [bOutputInVideoMem] is initialised to [false] and not assigned again. *)
Lemma main_parse_returns argv st l st' :
  main_parse sdk argv st = (Val l, st') -> bOutputInVideoMem sdk l = false.
Proof.
  unfold main_parse. cbv zeta. intro H.
  apply bind_inv in H. destruct H as (e0 & s0 & _ & H).
  apply bind_inv in H. destruct H as ([o e] & s1 & _ & H).
  unfold ret in H. now inversion H.
Qed.

(** What the loading of the image leaves in the variables of [main]. *)
Lemma main_load_returns l st x st' :
  main_load sdk l st = (Val x, st') ->
  exists m w,
    Sdk.imread sdk (szInputFileName (opts sdk l)) (world sdk st) = Ret m w /\
    opts sdk (locals sdk x) = set_size (cols m) (rows m) (opts sdk l) /\
    encodeCLIOptions sdk (locals sdk x) = encodeCLIOptions sdk l /\
    bOutputInVideoMem sdk (locals sdk x) = bOutputInVideoMem sdk l.
Proof.
  unfold main_load. cbv zeta. intro H.
  apply bind_inv in H. destruct H as (m & s1 & G & H).
  apply foreign_inv in G. destruct G as (w & G & _).
  repeat (apply bind_inv in H; destruct H as (? & ? & _ & H)).
  match type of H with
  | (let '(_, _) := ?p in _) _ = _ => destruct p
  end.
  apply bind_inv in H. destruct H as (? & ? & _ & H).
  unfold ret in H. inversion H. subst. exists m, w. now repeat split.
Qed.

(** The check of the ordinal (lines 340-344). *)
Lemma main_encode_out_of_range x st :
  out_of_range (iGpu (opts sdk (locals sdk x))) (nGpu sdk x) = true ->
  main_encode sdk x st
  = (Val (Some 1),
     mkSt sdk (world sdk st)
       (cout sdk st ++ out_of_range_message (nGpu sdk x))%string
       (fpOut sdk st) (log sdk st)).
Proof. unfold main_encode. cbv zeta. now intros ->. Qed.

Lemma main_output_no_return_1 x cuContext st st' :
  main_output sdk x cuContext st <> (Val (Some 1), st').
Proof.
  unfold main_output. cbv zeta. intro H.
  apply bind_inv in H. destruct H as (u & s1 & _ & H).
  apply bind_inv in H. destruct H as (ok & s2 & _ & H).
  destruct (negb ok); [discriminate H|].
  apply bind_inv in H. destruct H as (u1 & s3 & _ & H).
  apply bind_inv in H. destruct H as (u2 & s4 & _ & H).
  discriminate H.
Qed.

Lemma main_encode_in_range x st st' :
  out_of_range (iGpu (opts sdk (locals sdk x))) (nGpu sdk x) = false ->
  main_encode sdk x st <> (Val (Some 1), st').
Proof.
  unfold main_encode. cbv zeta. intros -> H.
  apply bind_inv in H. destruct H as (c & s1 & _ & H).
  now apply main_output_no_return_1 in H.
Qed.

(** The output file cannot be opened (lines 355-361). *)
Lemma main_output_cannot_open x cuContext st w :
  Sdk.ofstream_open sdk (szOutputFileName (opts sdk (locals sdk x)))
    (world sdk st) = (false, w) ->
  main_output sdk x cuContext st
  = (Throw (cannot_open_message (szOutputFileName (opts sdk (locals sdk x)))),
     mkSt sdk w (cout sdk st) {| good := false; written := [] |}
       (log sdk st
        ++ [(ofstream_open_ (szOutputFileName (opts sdk (locals sdk x))),
             world sdk st, Returned)])).
Proof.
  intro H. unfold main_output, ofstream_open, foreign_c, foreign, bind.
  cbv zeta. rewrite H. reflexivity.
Qed.

(** A command line the loop rejects ends the run with status 1. *)
Lemma parse_throws_status argv :
  (forall st0,
     throws sdk (parse_args sdk (tl argv) initial_opts EmptyString) st0) ->
  forall st,
    exists what st1,
      main_try sdk argv st = (Throw what, st1) /\
      main sdk argv st = (1, caught sdk what st1).
Proof.
  intros Hp st.
  assert (T : throws sdk (main_try sdk argv) st).
  { unfold throws, main_try, main_parse, ParseCommandLine. cbv zeta.
    unfold bind at 1 2.
    destruct (NvEncoderInitParam_default sdk st) as [[e0|what|status] s0] eqn:E.
    - unfold bind at 1 2.
      destruct (Hp s0) as (what & s1 & ->). now exists what, s1.
    - now exists what, s0.
    - unfold NvEncoderInitParam_default, foreign in E.
      destruct (Sdk.NvEncoderInitParam_default sdk (world sdk st));
        discriminate E. }
  destruct T as (what & st1 & T). exists what, st1.
  split; [exact T | now apply main_catches].
Qed.

(** Opening the output file: a fresh stream, usable or not. *)
Lemma ofstream_open_run filename st :
  ofstream_open sdk filename st
  = (Val tt,
     mkSt sdk (snd (Sdk.ofstream_open sdk filename (world sdk st)))
       (cout sdk st)
       {| good := fst (Sdk.ofstream_open sdk filename (world sdk st));
          written := [] |}
       (log sdk st ++ [(ofstream_open_ filename, world sdk st, Returned)])).
Proof.
  unfold ofstream_open, foreign_c, foreign, bind.
  now destruct (Sdk.ofstream_open sdk filename (world sdk st)).
Qed.

(** Encoding and the last message, on an open stream. *)
Lemma encode_and_report_drains nWidth nHeight encodeCLIOptions cuContext
    srcIn (text : string) :
  effect sdk (drains sdk)
    (bind sdk
       (EncodeCuda sdk nWidth nHeight encodeCLIOptions cuContext srcIn)
       (fun _ => bind sdk (print sdk text) (fun _ => ret sdk (@None Z)))).
Proof.
  effect_seq; [apply drains_EncodeCuda|].
  effect_seq; [apply drains_print|]. effect_done.
Qed.

(** [main_output], unfolded as far as the opening of the file. *)
Lemma main_output_run x cuContext st :
  main_output sdk x cuContext st
  = let o := opts sdk (locals sdk x) in
    let r := Sdk.ofstream_open sdk (szOutputFileName o) (world sdk st) in
    let st1 :=
      mkSt sdk (snd r) (cout sdk st) {| good := fst r; written := [] |}
        (log sdk st
         ++ [(ofstream_open_ (szOutputFileName o), world sdk st, Returned)]) in
    if fst r then
      bind sdk
        (EncodeCuda sdk (nWidth o) (nHeight o)
           (encodeCLIOptions sdk (locals sdk x)) cuContext
           (srcImgDevice sdk x))
        (fun _ =>
           bind sdk
             (print sdk
                ("Bitstream saved in file " ++ szOutputFileName o ++ endl))
             (fun _ => ret sdk None))
        st1
    else (Throw (cannot_open_message (szOutputFileName o)), st1).
Proof.
  unfold main_output. cbv zeta. unfold bind at 1.
  rewrite ofstream_open_run. unfold bind at 1. unfold fpOut_good at 1.
  cbn [fst snd good fpOut].
  now destruct (fst (Sdk.ofstream_open sdk _ (world sdk st))).
Qed.

(** From the opening of the file on, the file holds the packets the
    encoder returned, whatever happens. *)
Lemma main_output_drains x cuContext st :
  exists new,
    log sdk (snd (main_output sdk x cuContext st)) = log sdk st ++ new /\
    written (fpOut sdk (snd (main_output sdk x cuContext st)))
    = List.concat (emitted sdk new).
Proof.
  rewrite main_output_run. cbv zeta.
  destruct (Sdk.ofstream_open sdk _ (world sdk st)) as [ok w].
  cbn [fst snd]. destruct ok.
  - match goal with
    | |- context [snd (bind sdk (EncodeCuda sdk ?a ?b ?c ?d ?e)
                         (fun _ => bind sdk (print sdk ?t) _) ?s)] =>
        destruct (encode_and_report_drains a b c d e t s eq_refl)
          as [_ [new [L W]]]
    end.
    cbn [log fpOut written] in L, W.
    eexists. split.
    + rewrite L. rewrite <- app_assoc. reflexivity.
    + rewrite W. simpl. reflexivity.
  - cbn [snd log fpOut written]. eexists. split; reflexivity.
Qed.

(** A run of [main_output] that returns a value went through the opening
    of the file, [EncodeCuda] and the last message. *)
Lemma main_output_returns x cuContext st r st' :
  main_output sdk x cuContext st = (Val r, st') ->
  exists w st2,
    Sdk.ofstream_open sdk (szOutputFileName (opts sdk (locals sdk x)))
      (world sdk st) = (true, w) /\
    EncodeCuda sdk (nWidth (opts sdk (locals sdk x)))
      (nHeight (opts sdk (locals sdk x))) (encodeCLIOptions sdk (locals sdk x))
      cuContext (srcImgDevice sdk x)
      (mkSt sdk w (cout sdk st) {| good := true; written := [] |}
         (log sdk st
          ++ [(ofstream_open_ (szOutputFileName (opts sdk (locals sdk x))),
               world sdk st, Returned)]))
    = (Val tt, st2) /\
    r = None /\
    st' = mkSt sdk (world sdk st2)
            (cout sdk st2
             ++ ("Bitstream saved in file "
                 ++ szOutputFileName (opts sdk (locals sdk x)) ++ endl))%string
            (fpOut sdk st2) (log sdk st2).
Proof.
  unfold main_output. cbv zeta. intro H.
  apply bind_inv in H. destruct H as (u & s1 & G & H).
  rewrite ofstream_open_run in G. inversion G. subst s1. clear G.
  apply bind_inv in H. destruct H as (ok & s2 & G & H).
  unfold fpOut_good in G. cbn [good fpOut] in G. inversion G. subst ok s2.
  clear G.
  destruct (Sdk.ofstream_open sdk _ (world sdk st)) as [ok w] eqn:E.
  cbn [fst snd] in H. destruct ok; cbn [negb] in H; [|discriminate H].
  apply bind_inv in H. destruct H as ([] & s3 & G & H).
  apply bind_inv in H. destruct H as (u1 & s4 & G1 & H).
  unfold print in G1. inversion G1. subst s4. clear G1.
  unfold ret in H. inversion H. subst r st'.
  exists w, s3. now repeat split.
Qed.

End MainFacts.

End MainFacts.

(** ** Traces *)

Module TraceFacts.
Import CLib App Hoare Trace MonadFacts EncodeFacts.
Local Open Scope list_scope.

Section TraceFacts.

Variable sdk : Sdk.t.

Lemma names_app (l1 l2 : list (Entry sdk)) :
  names sdk (l1 ++ l2) = names sdk l1 ++ names sdk l2.
Proof. apply map_app. Qed.

(** A computation that makes no call goes with any order of calls, as long
    as it is not the one that completes it. *)
Lemma follows_when_early {A} (done : A -> Prop) ks (m : M sdk A) :
  (forall st, log sdk (snd (m st)) = log sdk st) ->
  (forall st a, fst (m st) = Val a -> ~ done a) ->
  follows_when sdk done ks m.
Proof.
  intros L N st. exists []. split; [now rewrite L, app_nil_r|]. split.
  - now exists ks.
  - intros a Ha Hd. now elim (N st a Ha).
Qed.

Lemma follows_when_silent {A} (done : A -> Prop) (m : M sdk A) :
  (forall st, log sdk (snd (m st)) = log sdk st) ->
  follows_when sdk done [] m.
Proof.
  intros L st. exists []. split; [now rewrite L, app_nil_r|]. split.
  - now exists [].
  - reflexivity.
Qed.

Lemma follows_when_ret {A} (done : A -> Prop) (a : A) :
  follows_when sdk done [] (ret sdk a).
Proof. now apply follows_when_silent. Qed.

Lemma follows_when_gets {A} (done : A -> Prop) (f : Sdk.World sdk -> A) :
  follows_when sdk done [] (gets sdk f).
Proof. now apply follows_when_silent. Qed.

Lemma follows_when_print (done : unit -> Prop) s :
  follows_when sdk done [] (print sdk s).
Proof. now apply follows_when_silent. Qed.

Lemma follows_when_fpOut_write (done : unit -> Prop) p :
  follows_when sdk done [] (fpOut_write sdk p).
Proof. now apply follows_when_silent. Qed.

Lemma follows_when_fpOut_good (done : bool -> Prop) :
  follows_when sdk done [] (fpOut_good sdk).
Proof. now apply follows_when_silent. Qed.

Lemma follows_when_throw {A} (done : A -> Prop) ks what :
  follows_when sdk done ks (@throw sdk A what).
Proof. apply follows_when_early; [reflexivity | discriminate]. Qed.

Lemma follows_when_exit {A} (done : A -> Prop) ks status :
  follows_when sdk done ks (@exit sdk A status).
Proof. apply follows_when_early; [reflexivity | discriminate]. Qed.

Lemma follows_when_foreign {A} (done : A -> Prop) c ans
    (f : Sdk.World sdk -> ext A (Sdk.World sdk)) :
  follows_when sdk done [name_of c] (foreign sdk c ans f).
Proof.
  intro st. unfold foreign.
  destruct (f (world sdk st)) as [a w|what w]; simpl.
  - eexists. split; [reflexivity|]. split; [now exists [] | reflexivity].
  - eexists. split; [reflexivity|]. split; [now exists [] | reflexivity].
Qed.

Lemma follows_when_named {A} (done : A -> Prop) k c ans
    (f : Sdk.World sdk -> ext A (Sdk.World sdk)) :
  name_of c = k -> follows_when sdk done [k] (foreign sdk c ans f).
Proof. intros <-. apply follows_when_foreign. Qed.

Lemma follows_when_bind {A B} (done : B -> Prop) ks1 ks2 (m : M sdk A)
    (k : A -> M sdk B) :
  follows sdk ks1 m -> (forall a, follows_when sdk done ks2 (k a)) ->
  follows_when sdk done (ks1 ++ ks2) (bind sdk m k).
Proof.
  intros Hm Hk st. destruct (Hm st) as (n1 & L1 & [r1 P1] & D1).
  unfold bind. destruct (m st) as [[a|what|status] st1]; simpl in *.
  - specialize (D1 a eq_refl I).
    destruct (Hk a st1) as (n2 & L2 & [r2 P2] & D2).
    exists (n1 ++ n2). split; [now rewrite L2, L1, app_assoc|]. split.
    + exists r2. now rewrite names_app, D1, P2, app_assoc.
    + intros b Hb Hd. now rewrite names_app, D1, (D2 b Hb Hd).
  - exists n1. split; [exact L1|]. split.
    + exists (r1 ++ ks2). now rewrite P1, app_assoc.
    + discriminate.
  - exists n1. split; [exact L1|]. split.
    + exists (r1 ++ ks2). now rewrite P1, app_assoc.
    + discriminate.
Qed.

Lemma follows_when_eq {A} (done : A -> Prop) ks ks' (m : M sdk A) :
  follows_when sdk done ks m -> ks = ks' -> follows_when sdk done ks' m.
Proof. now intros H <-. Qed.

Lemma follows_when_ext {A} (done : A -> Prop) ks (m m' : M sdk A) :
  (forall st, m st = m' st) ->
  follows_when sdk done ks m' -> follows_when sdk done ks m.
Proof. intros E H st. rewrite E. apply H. Qed.

Lemma follows_when_weaken {A} (done : A -> Prop) ks (m : M sdk A) :
  follows sdk ks m -> follows_when sdk done ks m.
Proof.
  intros H st. destruct (H st) as (new & L & P & D). exists new.
  split; [exact L|]. split; [exact P|]. intros a Ha _. now apply (D a).
Qed.

Lemma follows_for_each {A S} ks (body : A -> S -> M sdk S) (l : list A) :
  (forall x s, In x l -> follows sdk ks (body x s)) ->
  forall s,
    follows sdk (List.concat (repeat ks (List.length l)))
      (for_each sdk l body s).
Proof.
  induction l as [|x l IH]; intros Hb s; simpl.
  - apply follows_when_ret.
  - apply follows_when_bind.
    + apply Hb. now left.
    + intro s'. apply IH. intros y t Hy. apply Hb. now right.
Qed.

End TraceFacts.

(** One step through a computation whose calls are to be listed. *)
Ltac trace_step :=
  lazymatch goal with
  | |- follows_when _ _ _ (bind _ _ _) =>
      eapply follows_when_bind; [unfold follows | intro]
  | |- follows_when _ _ _ (ret _ _) => apply follows_when_ret
  | |- follows_when _ _ _ (gets _ _) => apply follows_when_gets
  | |- follows_when _ _ _ (print _ _) => apply follows_when_print
  | |- follows_when _ _ _ (fpOut_write _ _) => apply follows_when_fpOut_write
  | |- follows_when _ _ _ (fpOut_good _) => apply follows_when_fpOut_good
  | |- follows_when _ _ _ (foreign _ ?c _ _) =>
      let k := eval cbv [name_of] in (name_of c) in
      apply (follows_when_named _ _ k); reflexivity
  | |- follows_when _ _ _ (foreign_c _ ?c _) =>
      let k := eval cbv [name_of] in (name_of c) in
      apply (follows_when_named _ _ k); reflexivity
  | |- follows_when _ _ _ (let '(_, _) := ?x in _) => destruct x
  end.

Ltac trace_walk := unfold follows; cbv zeta; repeat trace_step.

Ltac trace_as := eapply follows_when_eq; [trace_walk |].

Section Encode.

Variable sdk : Sdk.t.

Lemma InitializeEncoder_follows pEnc encodeCLIOptions eFormat :
  follows sdk InitializeEncoder_names
    (InitializeEncoder sdk pEnc encodeCLIOptions eFormat).
Proof.
  unfold InitializeEncoder, CreateDefaultEncoderParams, SetInitParams,
    CreateEncoder.
  trace_as. reflexivity.
Qed.

Lemma write_packets_follows v : follows sdk [] (write_packets sdk v).
Proof.
  apply follows_when_silent. intro st. unfold write_packets.
  revert st. generalize tt at 1.
  induction v as [|p v IH]; intros u st.
  - reflexivity.
  - simpl. unfold bind, fpOut_write at 1. simpl. now rewrite IH.
Qed.

Lemma submit_follows pEnc cuContext srcIn nFrameSize i nFrame :
  Z.ltb i last_frame = true ->
  follows sdk submit_names
    (encode_step sdk pEnc cuContext srcIn nFrameSize i nFrame).
Proof.
  intro H. unfold encode_step. rewrite H.
  unfold GetNextInputFrame, CopyToDeviceFrame, EncodeFrame.
  trace_as.
  - apply write_packets_follows.
  - reflexivity.
Qed.

Lemma flush_follows pEnc cuContext srcIn nFrameSize i nFrame :
  Z.ltb i last_frame = false ->
  follows sdk [N_EndEncode]
    (encode_step sdk pEnc cuContext srcIn nFrameSize i nFrame).
Proof.
  intro H. unfold encode_step. rewrite H. unfold EndEncode.
  trace_as.
  - apply write_packets_follows.
  - reflexivity.
Qed.

Lemma encode_loop_follows pEnc cuContext srcIn nFrameSize nFrame :
  follows sdk encode_loop_names
    (encode_loop sdk pEnc cuContext srcIn nFrameSize nFrame).
Proof.
  unfold encode_loop.
  change (range (last_frame + 1)) with (range 375 ++ [375]).
  eapply follows_when_ext; [intro st; apply for_each_app|].
  eapply follows_when_eq; [eapply follows_when_bind|].
  1:{ apply follows_for_each. intros i s Hi. apply submit_follows.
      assert (F : forallb (fun i => Z.ltb i last_frame) (range 375) = true)
        by (vm_compute; reflexivity).
      rewrite forallb_forall in F. now apply F. }
  1:{ intro n. cbn [for_each]. eapply follows_when_bind.
      - now apply flush_follows.
      - intro. apply follows_when_ret. }
  vm_compute. reflexivity.
Qed.

Lemma EncodeCuda_follows nWidth nHeight encodeCLIOptions cuContext srcIn :
  follows sdk EncodeCuda_names
    (EncodeCuda sdk nWidth nHeight encodeCLIOptions cuContext srcIn).
Proof.
  unfold EncodeCuda, NvEncoderCuda, DestroyEncoder.
  trace_as.
  - apply InitializeEncoder_follows.
  - apply encode_loop_follows.
  - vm_compute. reflexivity.
Qed.

End Encode.

Section Capability.

Variable sdk : Sdk.t.

Lemma foreign_c_run {A} c (f : Sdk.World sdk -> A * Sdk.World sdk) st :
  foreign_c sdk c f st
  = (Val (fst (f (world sdk st))),
     mkSt sdk (snd (f (world sdk st))) (cout sdk st) (fpOut sdk st)
       (log sdk st ++ [(c, world sdk st, Returned)])).
Proof.
  unfold foreign_c, foreign. now destruct (f (world sdk st)).
Qed.

Lemma length_range (n : Z) : List.length (range n) = Z.to_nat n.
Proof. unfold range. now rewrite length_map, length_seq. Qed.

Lemma foreign_c_bind_run {A B} c (f : Sdk.World sdk -> A * Sdk.World sdk)
    (k : A -> M sdk B) st :
  bind sdk (foreign_c sdk c f) k st
  = k (fst (f (world sdk st)))
      (mkSt sdk (snd (f (world sdk st))) (cout sdk st) (fpOut sdk st)
         (log sdk st ++ [(c, world sdk st, Returned)])).
Proof. unfold bind. now rewrite foreign_c_run. Qed.

Lemma foreign_bind_run {A B} c ans
    (f : Sdk.World sdk -> ext A (Sdk.World sdk)) (k : A -> M sdk B) st :
  bind sdk (foreign sdk c ans f) k st
  = match f (world sdk st) with
    | Ret a w =>
        k a (mkSt sdk w (cout sdk st) (fpOut sdk st)
               (log sdk st ++ [(c, world sdk st, ans a)]))
    | Thr what w =>
        (Throw what,
         mkSt sdk w (cout sdk st) (fpOut sdk st)
           (log sdk st ++ [(c, world sdk st, Raised what)]))
    end.
Proof.
  unfold bind, foreign. now destruct (f (world sdk st)).
Qed.

(** The calls of [ShowEncoderCapability]: the driver is initialised and the
    devices counted, then each device is reported on in turn. *)
Lemma ShowEncoderCapability_calls st :
  exists new,
    log sdk (snd (ShowEncoderCapability sdk st)) = log sdk st ++ new /\
    (exists rest,
       ShowEncoderCapability_names (reported sdk new)
       = names sdk new ++ rest) /\
    (forall a,
       fst (ShowEncoderCapability sdk st) = Val a ->
       names sdk new = ShowEncoderCapability_names (reported sdk new)).
Proof.
  destruct (ShowEncoderCapability sdk st) as [res s'] eqn:H.
  cbn [fst snd]. revert H.
  unfold ShowEncoderCapability, cuInit, cuDeviceGetCount. cbv zeta.
  rewrite foreign_c_bind_run. unfold ck at 1. rewrite foreign_bind_run.
  cbn [world cout fpOut log].
  destruct (Sdk.ck sdk _ _) as [[] w2|what w2].
  2:{ intro H. inversion H. subst res s'. clear H.
      eexists. split; [cbn [log]; rewrite <- app_assoc; reflexivity|].
      split; [|discriminate]. eexists. reflexivity. }
  rewrite foreign_c_bind_run. cbn [world cout fpOut log]. cbv beta.
  destruct (Sdk.cuDeviceGetCount sdk w2) as [[r n] w3] eqn:E.
  cbn [fst snd]. unfold ck at 1. rewrite foreign_bind_run.
  cbn [world cout fpOut log].
  assert (R : forall (e1 e2 : Entry sdk) rest,
             reported sdk
               ([e1] ++ [e2] ++ [(cuDeviceGetCount_, w2, Returned)] ++ rest)
             = Z.to_nat (stored 0 n)).
  { intros. unfold reported, world_of. simpl. now rewrite E. }
  destruct (Sdk.ck sdk r w3) as [[] w4|what w4].
  2:{ intro H. inversion H. subst res s'. clear H.
      eexists. split; [cbn [log]; rewrite <- !app_assoc; reflexivity|].
      split; [|discriminate]. rewrite R. eexists. reflexivity. }
  match goal with
  | |- context [for_each sdk (range ?N) ?body tt] =>
      assert (T : follows sdk
                    (List.concat (repeat gpu_report_names (Z.to_nat N)))
                    (for_each sdk (range N) body tt))
  end.
  { eapply follows_when_eq.
    - apply follows_for_each. intros iGpu u _.
      unfold show_cap, show_WxH, cuDeviceGet, cuDeviceGetName, cuCtxCreate,
        cuCtxDestroy, ck, NvEncoderCuda, GetCapabilityValue, DestroyEncoder.
      trace_as. reflexivity.
    - rewrite length_range. reflexivity. }
  unfold bind at 1. unfold print at 1.
  match goal with
  | |- for_each sdk _ _ tt ?s = _ -> _ => destruct (T s) as (new & L & P & D)
  end.
  intro H. rewrite H in L, D. cbn [fst snd log] in L, D.
  eexists. split; [rewrite L, <- !app_assoc; reflexivity|].
  rewrite R. split.
  - destruct P as [rest P]. exists rest. unfold ShowEncoderCapability_names.
    rewrite P, !names_app, <- !app_assoc. reflexivity.
  - intros a Ha. rewrite !names_app, (D a Ha I). reflexivity.
Qed.

(** *** Counting calls *)

Lemma prefix_count (ks p rest : list Name) (k : Name) :
  ks = p ++ rest ->
  (count_occ Name_eq_dec p k <= count_occ Name_eq_dec ks k)%nat.
Proof. intros ->. rewrite count_occ_app. lia. Qed.

(** A beginning of the calls of [EncodeCuda] that has the flush in it has
    all the frames in it. *)
Lemma flush_after_frames (p rest : list Name) :
  EncodeCuda_names = p ++ rest -> In N_EndEncode p ->
  count_occ Name_eq_dec p N_EncodeFrame = 375%nat.
Proof.
  intros E Hin.
  assert (P : p = firstn (List.length p) EncodeCuda_names).
  { rewrite E, firstn_app, Nat.sub_diag, firstn_all. simpl.
    now rewrite app_nil_r. }
  assert (B : (List.length p < 1132)%nat).
  { apply (f_equal (@List.length Name)) in E. rewrite length_app in E.
    change (List.length EncodeCuda_names) with 1131%nat in E. lia. }
  assert (C : forallb
                (fun n =>
                   let q := firstn n EncodeCuda_names in
                   implb
                     (if in_dec Name_eq_dec N_EndEncode q then true else false)
                     (Nat.eqb (count_occ Name_eq_dec q N_EncodeFrame) 375))
                (seq 0 1132) = true) by (vm_compute; reflexivity).
  rewrite forallb_forall in C.
  specialize (C (List.length p)). cbv zeta in C. rewrite <- P in C.
  assert (S : In (List.length p) (seq 0 1132)) by (apply in_seq; lia).
  specialize (C S).
  destruct (in_dec Name_eq_dec N_EndEncode p) as [_|N]; [|now elim N].
  simpl in C. now apply Nat.eqb_eq in C.
Qed.

Lemma count_occ_reports (n : nat) (k : Name) :
  count_occ Name_eq_dec (List.concat (repeat gpu_report_names n)) k
  = (n * count_occ Name_eq_dec gpu_report_names k)%nat.
Proof.
  induction n as [|n IH]; [reflexivity|].
  cbn [repeat List.concat]. rewrite count_occ_app, IH. lia.
Qed.

End Capability.

End TraceFacts.

(** ** How runs end, and what they print *)

Module OutcomeFacts.
Import CLib App Hoare Trace MonadFacts ParseFacts EncodeFacts TraceFacts.
Local Open Scope list_scope.

Lemma append_assoc (a b c : string) :
  ((a ++ b) ++ c = a ++ (b ++ c))%string.
Proof. induction a as [|x a IH]; simpl; now rewrite ?IH. Qed.

Lemma append_nil_r (a : string) : (a ++ EmptyString = a)%string.
Proof. induction a as [|x a IH]; simpl; now rewrite ?IH. Qed.

Section OutcomeFacts.

Variable sdk : Sdk.t.

(** *** Leaving through [exit] *)

Lemma exits_with_stays {A} (ok : Z -> Prop) (m : M sdk A) :
  (forall st status, fst (m st) <> Exit status) -> exits_with sdk ok m.
Proof. intros H st status E. now elim (H st status). Qed.

Lemma exits_with_foreign {A} ok c ans
    (f : Sdk.World sdk -> ext A (Sdk.World sdk)) :
  exits_with sdk ok (foreign sdk c ans f).
Proof.
  apply exits_with_stays. intros st status. unfold foreign.
  destruct (f (world sdk st)); discriminate.
Qed.

Lemma exits_with_exit {A} (ok : Z -> Prop) status :
  ok status -> exits_with sdk ok (@exit sdk A status).
Proof. intros H st s E. inversion E. now subst. Qed.

Lemma exits_with_bind {A B} ok (m : M sdk A) (k : A -> M sdk B) :
  exits_with sdk ok m -> (forall a, exits_with sdk ok (k a)) ->
  exits_with sdk ok (bind sdk m k).
Proof.
  intros Hm Hk st status. unfold bind. specialize (Hm st).
  destruct (m st) as [[a|what|s] st1]; simpl in *.
  - apply Hk.
  - discriminate.
  - intro E. apply Hm. now inversion E.
Qed.

Lemma exits_with_for_each {A S} ok (body : A -> S -> M sdk S) (l : list A) :
  (forall x s, exits_with sdk ok (body x s)) ->
  forall s, exits_with sdk ok (for_each sdk l body s).
Proof.
  intro Hb. induction l as [|x l IH]; intro s; simpl.
  - apply exits_with_stays. discriminate.
  - apply exits_with_bind; [apply Hb | exact IH].
Qed.

(** *** Coming back *)

Lemma never_returns_bind {A B} (m : M sdk A) (k : A -> M sdk B) :
  (forall a, never_returns sdk (k a)) -> never_returns sdk (bind sdk m k).
Proof.
  intros Hk st b. unfold bind.
  destruct (m st) as [[a|what|s] st1]; simpl.
  - apply Hk.
  - discriminate.
  - discriminate.
Qed.

(** *** What is printed *)

#[export] Instance same_cout_PreOrder : PreOrder (same_cout sdk).
Proof.
  split.
  - intro st. reflexivity.
  - intros s1 s2 s3 H12 H23. unfold same_cout in *. congruence.
Qed.

#[export] Instance says_PreOrder : PreOrder (says sdk).
Proof.
  split.
  - intro st. exists EmptyString. now rewrite append_nil_r.
  - intros s1 s2 s3 [t1 H12] [t2 H23]. exists (t1 ++ t2)%string.
    now rewrite H23, H12, append_assoc.
Qed.

Lemma same_cout_says (st st' : St sdk) :
  same_cout sdk st st' -> says sdk st st'.
Proof. intro H. exists EmptyString. now rewrite append_nil_r. Qed.

Lemma same_cout_foreign {A} c ans
    (f : Sdk.World sdk -> ext A (Sdk.World sdk)) :
  effect sdk (same_cout sdk) (foreign sdk c ans f).
Proof.
  intro st. unfold foreign. now destruct (f (world sdk st)).
Qed.

Lemma same_cout_fpOut_write p :
  effect sdk (same_cout sdk) (fpOut_write sdk p).
Proof. intro st. reflexivity. Qed.

Lemma same_cout_fpOut_good : effect sdk (same_cout sdk) (fpOut_good sdk).
Proof. intro st. reflexivity. Qed.

Lemma says_print s : effect sdk (says sdk) (print sdk s).
Proof. intro st. now exists s. Qed.

Lemma says_foreign {A} c ans (f : Sdk.World sdk -> ext A (Sdk.World sdk)) :
  effect sdk (says sdk) (foreign sdk c ans f).
Proof. intro st. apply same_cout_says. apply same_cout_foreign. Qed.

Lemma throws_quietly_same {A} (m : M sdk A) :
  effect sdk (same_cout sdk) m -> throws_quietly sdk m.
Proof. intros H st what _. apply H. Qed.

Lemma throws_quietly_print s : throws_quietly sdk (print sdk s).
Proof. intros st what E. discriminate E. Qed.

Lemma throws_quietly_bind {A B} (m : M sdk A) (k : A -> M sdk B) :
  effect sdk (same_cout sdk) m -> (forall a, throws_quietly sdk (k a)) ->
  throws_quietly sdk (bind sdk m k).
Proof.
  intros Hm Hk st what. unfold bind. specialize (Hm st).
  destruct (m st) as [[a|w|s] st1]; simpl in *.
  - intro E. unfold same_cout in Hm. rewrite <- Hm. now apply (Hk a st1 what).
  - intros _. exact Hm.
  - discriminate.
Qed.

End OutcomeFacts.

(** A walk through a computation that never leaves through [exit]. *)
Ltac exit_walk :=
  cbv zeta;
  repeat first
    [ lazymatch goal with
      | |- exits_with _ _ (bind _ _ _) => apply exits_with_bind; [|intro]
      | |- exits_with _ _ (for_each _ _ _ _) =>
          apply exits_with_for_each; intros ? ?
      | |- exits_with _ _ (foreign _ _ _ _) => apply exits_with_foreign
      | |- exits_with _ _ (foreign_c _ _ _) => apply exits_with_foreign
      | |- exits_with _ _ (let '(_, _) := ?x in _) => destruct x
      | |- exits_with _ _ (if ?b then _ else _) => destruct b
      | |- exits_with _ _ (ret _ _) => apply exits_with_stays; discriminate
      | |- exits_with _ _ (throw _ _) => apply exits_with_stays; discriminate
      | |- exits_with _ _ (gets _ _) => apply exits_with_stays; discriminate
      | |- exits_with _ _ (print _ _) => apply exits_with_stays; discriminate
      | |- exits_with _ _ (fpOut_write _ _) =>
          apply exits_with_stays; discriminate
      | |- exits_with _ _ (fpOut_good _) =>
          apply exits_with_stays; discriminate
      end ].

(** A walk through a computation that prints nothing, or only adds to what
    is printed. *)
Ltac cout_walk :=
  cbv zeta;
  repeat first
    [ effect_seq | effect_done | effect_loop
    | apply same_cout_foreign | apply same_cout_fpOut_write
    | apply same_cout_fpOut_good
    | apply says_print | apply says_foreign
    | match goal with
      | |- effect _ _ (let '(_, _) := ?x in _) => destruct x
      | |- effect _ _ (if ?b then _ else _) => destruct b
      end ].

(** The program's functions, down to the foreign calls. *)
Ltac unfold_app :=
  unfold EncodeCuda, InitializeEncoder, encode_loop, encode_step,
    write_packets, main_load, main_device, show_cap, show_WxH;
  unfold cuInit, cuDeviceGetCount, cuDeviceGet, cuDeviceGetName, cuCtxCreate,
    cuCtxDestroy, ck, ValidateResolution, imread, upload, cvtColor, download,
    NvEncoderInitParam_default, NvEncoderInitParam, NvEncoderCuda,
    GetCapabilityValue, CreateDefaultEncoderParams, SetInitParams,
    CreateEncoder, GetNextInputFrame, CopyToDeviceFrame, EncodeFrame,
    EndEncode, DestroyEncoder, foreign_c.

Section Outcomes.

Variable sdk : Sdk.t.

Lemma ShowEncoderCapability_exits :
  exits_with sdk (fun _ => False) (ShowEncoderCapability sdk).
Proof.
  unfold ShowEncoderCapability, show_cap, show_WxH, cuInit, cuDeviceGetCount,
    cuDeviceGet, cuDeviceGetName, cuCtxCreate, cuCtxDestroy, ck,
    NvEncoderCuda, GetCapabilityValue, DestroyEncoder.
  exit_walk.
Qed.

Lemma ShowEncoderCapability_says :
  effect sdk (says sdk) (ShowEncoderCapability sdk).
Proof.
  unfold ShowEncoderCapability, show_cap, show_WxH, cuInit, cuDeviceGetCount,
    cuDeviceGet, cuDeviceGetName, cuCtxCreate, cuCtxDestroy, ck,
    NvEncoderCuda, GetCapabilityValue, DestroyEncoder, foreign_c.
  cout_walk.
Qed.

Lemma EncodeCuda_exits nWidth nHeight encodeCLIOptions cuContext srcIn :
  exits_with sdk (fun _ => False)
    (EncodeCuda sdk nWidth nHeight encodeCLIOptions cuContext srcIn).
Proof.
  unfold_app. exit_walk.
Qed.

Lemma encode_loop_same_cout pEnc cuContext srcIn nFrameSize nFrame :
  effect sdk (same_cout sdk)
    (encode_loop sdk pEnc cuContext srcIn nFrameSize nFrame).
Proof.
  unfold_app. cout_walk.
Qed.

Lemma EncodeCuda_throws_quietly nWidth nHeight encodeCLIOptions cuContext
    srcIn :
  throws_quietly sdk
    (EncodeCuda sdk nWidth nHeight encodeCLIOptions cuContext srcIn).
Proof.
  unfold EncodeCuda. cbv zeta.
  apply throws_quietly_bind; [unfold_app; cout_walk | intro pEnc].
  apply throws_quietly_bind; [unfold_app; cout_walk | intros _].
  apply throws_quietly_bind; [cout_walk | intro nFrameSize].
  apply throws_quietly_bind; [apply encode_loop_same_cout | intro nFrame].
  apply throws_quietly_bind; [unfold_app; cout_walk | intros _].
  apply throws_quietly_print.
Qed.

(** [ShowHelpAndExit] does not come back. *)
Lemma ShowHelpAndExit_never_returns {A} szBadOption :
  never_returns sdk (@ShowHelpAndExit sdk A szBadOption).
Proof.
  unfold ShowHelpAndExit. cbv zeta. apply never_returns_bind. intro p.
  destruct szBadOption as [bad|].
  - intros st a. discriminate.
  - apply never_returns_bind. intros _. apply never_returns_bind. intros _.
    intros st a. discriminate.
Qed.

(** It leaves through [exit] only when it was given no option to complain
    about, and then with status 0. *)
Lemma ShowHelpAndExit_exits {A} szBadOption :
  exits_with sdk (fun status => status = 0 /\ szBadOption = None)
    (@ShowHelpAndExit sdk A szBadOption).
Proof.
  unfold ShowHelpAndExit, NvEncoderInitParam_default. cbv zeta.
  apply exits_with_bind; [apply exits_with_foreign | intro p].
  destruct szBadOption as [bad|].
  - apply exits_with_stays. discriminate.
  - apply exits_with_bind; [apply exits_with_stays; discriminate | intros _].
    apply exits_with_bind.
    + intros st status E.
      now elim (ShowEncoderCapability_exits st status E).
    + intros _. now apply exits_with_exit.
Qed.

End Outcomes.

End OutcomeFacts.

(** ** The loop of [ParseCommandLine] *)

Module LoopFacts.
Import CLib App Hoare Trace MonadFacts ParseFacts EncodeFacts TraceFacts
  OutcomeFacts.
Local Open Scope list_scope.

Lemma length_after_values (r : list string) :
  (List.length (after_values r) <= List.length r)%nat.
Proof.
  induction r as [|v r IH]; simpl; [lia|]. destruct (no_dash v); simpl; lia.
Qed.

(** An argument that does not start with a dash is none of the flags. *)
Lemma no_dash_no_flag a : no_dash a = true -> no_flag a.
Proof.
  intro D. unfold no_flag.
  repeat split;
    match goal with
    | |- is_flag a ?f = false =>
        destruct (is_flag a f) eqn:E; [|reflexivity];
        rewrite (is_flag_dash a f E eq_refl) in D; discriminate D
    end.
Qed.

Section LoopFacts.

Variable sdk : Sdk.t.

(** An option the loop does not know: it goes to the encoder's options with
    the values that follow it, and the loop goes on after them. *)
Lemma parse_args_forward a rest o oss :
  no_flag a -> no_dash a = false ->
  parse_args sdk (a :: rest) o oss
  = parse_args sdk (after_values rest) o
      (add_tokens (add_token oss a) (values_of rest)).
Proof.
  intros (H1 & H2 & H3 & H4 & H5 & H6 & H7) D. cbn [parse_args].
  rewrite H1, H2, H3, H4, H5, H6, H7, D. unfold add_token.
  generalize (oss ++ a ++ " ")%string.
  induction rest as [|v r IH]; intro s.
  - reflexivity.
  - cbn [values_of after_values]. destruct (no_dash v) eqn:E.
    + exact (IH (add_token s v)).
    + reflexivity.
Qed.

(** A flag with its value. *)
Lemma parse_args_sets a v rest o o1 oss :
  sets a v o o1 ->
  parse_args sdk (a :: v :: rest) o oss = parse_args sdk rest o1 oss.
Proof.
  intros [H|H|w h H E|k H E|H|H].
  - now apply parse_i.
  - now apply parse_o.
  - cbn [parse_args].
    rewrite (is_flag_other a "-s" "-h" H eq_refl),
      (is_flag_other a "-s" "-i" H eq_refl),
      (is_flag_other a "-s" "-o" H eq_refl).
    now rewrite H, E.
  - rewrite (parse_if sdk a v rest o oss H). now rewrite E.
  - now apply parse_gpu.
  - now apply parse_cuStreamType.
Qed.

(** What the loop does with the argument at its head: it gives up, or it
    takes a flag with its value, or it forwards an option. *)
Lemma parse_args_head a rest o oss :
  (exists szBadOption,
     parse_args sdk (a :: rest) o oss = ShowHelpAndExit sdk szBadOption) \/
  (exists v rest' o1, rest = v :: rest' /\ sets a v o o1) \/
  (no_flag a /\ no_dash a = false).
Proof.
  destruct (is_flag a "-h") eqn:Hh.
  { left. exists None. cbn [parse_args]. now rewrite Hh. }
  destruct (is_flag a "-i") eqn:Hi.
  { destruct rest as [|v rest'].
    - left. exists (Some "-i"). cbn [parse_args]. now rewrite Hh, Hi.
    - right. left. exists v, rest', (set_szInputFileName v o).
      split; [reflexivity | now constructor]. }
  destruct (is_flag a "-o") eqn:Ho.
  { destruct rest as [|v rest'].
    - left. exists (Some "-o"). cbn [parse_args]. now rewrite Hh, Hi, Ho.
    - right. left. exists v, rest', (set_szOutputFileName v o).
      split; [reflexivity | now constructor]. }
  destruct (is_flag a "-s") eqn:Hs.
  { destruct rest as [|v rest'].
    - left. exists (Some "-s"). cbn [parse_args]. now rewrite Hh, Hi, Ho, Hs.
    - destruct (sscanf_dxd v) as [[n w] h] eqn:E.
      destruct (Z.eqb_spec 2 n) as [<-|N].
      + right. left. eexists v, rest', _.
        split; [reflexivity | now apply (sets_s a v o w h)].
      + left. exists (Some "-s"). apply parse_s_bad; [exact Hs|].
        rewrite E. simpl. congruence. }
  destruct (is_flag a "-if") eqn:Hf.
  { destruct rest as [|v rest'].
    - left. exists (Some "-if"). cbn [parse_args].
      now rewrite Hh, Hi, Ho, Hs, Hf.
    - destruct (std_find vszFileFormatName v) as [k|] eqn:E.
      + right. left. eexists v, rest', _.
        split; [reflexivity | now apply (sets_if a v o k)].
      + left. exists (Some "-if").
        rewrite (parse_if sdk a v rest' o oss Hf). now rewrite E. }
  destruct (is_flag a "-gpu") eqn:Hg.
  { destruct rest as [|v rest'].
    - left. exists (Some "-gpu"). cbn [parse_args].
      now rewrite Hh, Hi, Ho, Hs, Hf, Hg.
    - right. left. exists v, rest', (set_iGpu (atoi v) o).
      split; [reflexivity | now constructor]. }
  destruct (is_flag a "-cuStreamType") eqn:Hc.
  { destruct rest as [|v rest'].
    - left. exists (Some "-cuStreamType"). cbn [parse_args].
      now rewrite Hh, Hi, Ho, Hs, Hf, Hg, Hc.
    - right. left. exists v, rest', (set_cuStreamType (atoi v) o).
      split; [reflexivity | now constructor]. }
  destruct (no_dash a) eqn:D.
  - left. exists (Some a). cbn [parse_args].
    now rewrite Hh, Hi, Ho, Hs, Hf, Hg, Hc, D.
  - right. right. now repeat split.
Qed.

(** Whatever the arguments, the loop comes down to one of two things: it
    returns the variables and the option string, or it is
    [ShowHelpAndExit]. *)
Lemma parse_args_cases_aux (n : nat) :
  forall args o oss,
    (List.length args <= n)%nat ->
    (exists o' oss', parse_args sdk args o oss = ret sdk (o', oss')) \/
    (exists szBadOption,
       parse_args sdk args o oss = ShowHelpAndExit sdk szBadOption).
Proof.
  induction n as [|n IH]; intros [|a rest] o oss Hn.
  - left. now exists o, oss.
  - simpl in Hn. lia.
  - left. now exists o, oss.
  - simpl in Hn.
    destruct (parse_args_head a rest o oss)
      as [[sb E]|[(v & rest' & o1 & -> & S)|[F D]]].
    + right. now exists sb.
    + rewrite (parse_args_sets a v rest' o o1 oss S). apply IH.
      simpl in Hn. lia.
    + rewrite (parse_args_forward a rest o oss F D). apply IH.
      pose proof (length_after_values rest). lia.
Qed.

Lemma parse_args_cases args o oss :
  (exists o' oss', parse_args sdk args o oss = ret sdk (o', oss')) \/
  (exists szBadOption,
     parse_args sdk args o oss = ShowHelpAndExit sdk szBadOption).
Proof. now apply (parse_args_cases_aux (List.length args)). Qed.

(** The loop returns exactly on the command lines of [parses]. *)
Lemma parses_returns args o oss o' oss' :
  parses args o oss o' oss' ->
  parse_args sdk args o oss = ret sdk (o', oss').
Proof.
  induction 1 as [o oss|a v rest o o1 oss o' oss' S _ IH
                 |a rest o oss o' oss' F D _ IH].
  - reflexivity.
  - now rewrite (parse_args_sets a v rest o o1 oss S).
  - now rewrite (parse_args_forward a rest o oss F D).
Qed.

Lemma returns_parses_aux (n : nat) :
  forall args o oss st o' oss' st',
    (List.length args <= n)%nat ->
    parse_args sdk args o oss st = (Val (o', oss'), st') ->
    parses args o oss o' oss'.
Proof.
  induction n as [|n IH]; intros [|a rest] o oss st o' oss' st' Hn H.
  - inversion H. constructor.
  - simpl in Hn. lia.
  - inversion H. constructor.
  - simpl in Hn.
    destruct (parse_args_head a rest o oss)
      as [[sb E]|[(v & rest' & o1 & -> & S)|[F D]]].
    + rewrite E in H.
      elim (ShowHelpAndExit_never_returns sdk sb st (o', oss')).
      now rewrite H.
    + rewrite (parse_args_sets a v rest' o o1 oss S) in H.
      apply (parses_set a v rest' o o1 oss o' oss' S).
      eapply IH; [|exact H]. simpl in Hn. lia.
    + rewrite (parse_args_forward a rest o oss F D) in H.
      apply (parses_forward a rest o oss o' oss' F D).
      eapply IH; [|exact H]. pose proof (length_after_values rest). lia.
Qed.

Lemma returns_parses args o oss st o' oss' st' :
  parse_args sdk args o oss st = (Val (o', oss'), st') ->
  parses args o oss o' oss'.
Proof. now apply (returns_parses_aux (List.length args)). Qed.

(** A run of the loop that returns has changed nothing, and would return
    the same from any other state. *)
Lemma parse_args_pure args o oss st r st' :
  parse_args sdk args o oss st = (Val r, st') ->
  st' = st /\ forall st2, parse_args sdk args o oss st2 = (Val r, st2).
Proof.
  destruct (parse_args_cases args o oss) as [(o' & oss' & E)|[sb E]];
    rewrite E; intro H.
  - inversion H. subst. split; [reflexivity|]. intro st2. reflexivity.
  - elim (ShowHelpAndExit_never_returns sdk sb st r). now rewrite H.
Qed.

End LoopFacts.

(** *** Command lines that are accepted *)

Lemma Forall_after_values (P : string -> Prop) (r : list string) :
  Forall P r -> Forall P (after_values r).
Proof.
  induction 1 as [|v r Hv Hr IH]; simpl; [constructor|].
  destruct (no_dash v); [exact IH | now constructor].
Qed.

(** A flag leaves alone the variables of the other flags. *)
Lemma sets_frame a v o o1 :
  sets a v o o1 ->
  (is_flag a "-i" = false -> szInputFileName o1 = szInputFileName o) /\
  (is_flag a "-o" = false -> szOutputFileName o1 = szOutputFileName o) /\
  (is_flag a "-s" = false -> nWidth o1 = nWidth o /\ nHeight o1 = nHeight o) /\
  (is_flag a "-if" = false -> eFormat o1 = eFormat o) /\
  (is_flag a "-gpu" = false -> iGpu o1 = iGpu o) /\
  (is_flag a "-cuStreamType" = false -> cuStreamType o1 = cuStreamType o).
Proof.
  intros [H|H|w h H E|k H E|H|H];
    (split; [|split; [|split; [|split; [|split]]]]); intro N;
    first [ rewrite N in H; discriminate H
          | reflexivity
          | split; reflexivity ].
Qed.

Lemma parses_frame args o oss o' oss' :
  parses args o oss o' oss' ->
  (Forall (fun t => is_flag t "-i" = false) args ->
   szInputFileName o' = szInputFileName o) /\
  (Forall (fun t => is_flag t "-o" = false) args ->
   szOutputFileName o' = szOutputFileName o) /\
  (Forall (fun t => is_flag t "-s" = false) args ->
   nWidth o' = nWidth o /\ nHeight o' = nHeight o) /\
  (Forall (fun t => is_flag t "-if" = false) args ->
   eFormat o' = eFormat o) /\
  (Forall (fun t => is_flag t "-gpu" = false) args ->
   iGpu o' = iGpu o) /\
  (Forall (fun t => is_flag t "-cuStreamType" = false) args ->
   cuStreamType o' = cuStreamType o).
Proof.
  induction 1 as [o oss|a v rest o o1 oss o' oss' S _ IH
                 |a rest o oss o' oss' F D _ IH].
  - now (split; [|split; [|split; [|split; [|split]]]]).
  - destruct IH as (I1 & I2 & I3 & I4 & I5 & I6).
    destruct (sets_frame a v o o1 S) as (S1 & S2 & S3 & S4 & S5 & S6).
    (split; [|split; [|split; [|split; [|split]]]]); intro A;
      inversion_clear A as [|? ? Ha A']; inversion_clear A' as [|? ? Hv Hr].
    + rewrite (I1 Hr). now apply S1.
    + rewrite (I2 Hr). now apply S2.
    + destruct (I3 Hr) as [-> ->]. now apply S3.
    + rewrite (I4 Hr). now apply S4.
    + rewrite (I5 Hr). now apply S5.
    + rewrite (I6 Hr). now apply S6.
  - destruct IH as (I1 & I2 & I3 & I4 & I5 & I6).
    (split; [|split; [|split; [|split; [|split]]]]); intro A;
      inversion_clear A as [|? ? Ha Hr]; apply Forall_after_values in Hr.
    + now apply I1.
    + now apply I2.
    + now apply I3.
    + now apply I4.
    + now apply I5.
    + now apply I6.
Qed.

(** *** What goes to the encoder's options *)

Lemma add_tokens_app oss ts us :
  add_tokens oss (ts ++ us) = add_tokens (add_tokens oss ts) us.
Proof. apply fold_left_app. Qed.

Lemma subseq_refl {A} (l : list A) : subseq l l.
Proof. induction l; now constructor. Qed.

Lemma subseq_values (ts r : list string) :
  subseq ts (after_values r) -> subseq (values_of r ++ ts) r.
Proof.
  induction r as [|v r IH]; simpl; intro H.
  - exact H.
  - destruct (no_dash v).
    + simpl. apply subseq_take. now apply IH.
    + exact H.
Qed.

Lemma values_no_flag (r : list string) : Forall no_flag (values_of r).
Proof.
  induction r as [|v r IH]; simpl; [constructor|].
  destruct (no_dash v) eqn:D; constructor; [|exact IH].
  now apply no_dash_no_flag.
Qed.

Lemma parses_forwards args o oss o' oss' :
  parses args o oss o' oss' ->
  exists ts,
    oss' = add_tokens oss ts /\ subseq ts args /\ Forall no_flag ts.
Proof.
  induction 1 as [o oss|a v rest o o1 oss o' oss' S _ IH
                 |a rest o oss o' oss' F D _ IH].
  - exists []. repeat split; constructor.
  - destruct IH as (ts & E & Q & N). exists ts.
    split; [exact E|]. split; [|exact N]. now do 2 apply subseq_skip.
  - destruct IH as (ts & E & Q & N). exists (a :: values_of rest ++ ts).
    split; [|split].
    + rewrite E.
      change (add_tokens oss (a :: values_of rest ++ ts))
        with (add_tokens (add_token oss a) (values_of rest ++ ts)).
      now rewrite add_tokens_app.
    + apply subseq_take. now apply subseq_values.
    + constructor; [exact F|]. apply Forall_app.
      split; [apply values_no_flag | exact N].
Qed.

(** *** One command line after another *)

Lemma values_app (r args2 : list string) :
  starts_with_dash args2 ->
  values_of (r ++ args2) = values_of r /\
  after_values (r ++ args2) = after_values r ++ args2.
Proof.
  intro H. induction r as [|v r IH]; simpl.
  - destruct args2 as [|b args2]; simpl in *; [now split|].
    now rewrite H.
  - destruct (no_dash v); [|now split]. destruct IH as [-> ->]. now split.
Qed.

Section Sequence.

Variable sdk : Sdk.t.

Lemma parses_app args1 o oss o1 oss1 :
  parses args1 o oss o1 oss1 ->
  forall args2,
    starts_with_dash args2 ->
    parse_args sdk (args1 ++ args2) o oss = parse_args sdk args2 o1 oss1.
Proof.
  induction 1 as [o oss|a v rest o o1 oss o' oss' S _ IH
                 |a rest o oss o' oss' F D _ IH]; intros args2 H2.
  - reflexivity.
  - cbn [app]. rewrite (parse_args_sets sdk a v _ o o1 oss S). now apply IH.
  - cbn [app]. rewrite (parse_args_forward sdk a _ o oss F D).
    destruct (values_app rest args2 H2) as [-> ->]. now apply IH.
Qed.

(** *** Flags in other case *)

Lemma is_flag_strlwr a b f :
  strlwr a = strlwr b -> is_flag a f = is_flag b f.
Proof.
  intro E. unfold is_flag.
  destruct (Z.eqb (_stricmp a f) 0) eqn:Ha;
    destruct (Z.eqb (_stricmp b f) 0) eqn:Hb; try reflexivity.
  - apply CLibFacts.is_flag_true in Ha.
    assert (T : is_true (Z.eqb (_stricmp b f) 0))
      by (apply CLibFacts.is_flag_true; congruence).
    unfold is_true in T. congruence.
  - apply CLibFacts.is_flag_true in Hb.
    assert (T : is_true (Z.eqb (_stricmp a f) 0))
      by (apply CLibFacts.is_flag_true; congruence).
    unfold is_true in T. congruence.
Qed.

(** [ParseCommandLine], when it returns: the loop got through the
    arguments without a call, and the encoder's options were built from the
    string it gathered. *)
Lemma ParseCommandLine_returns argv o st o' p st' :
  ParseCommandLine sdk argv o st = (Val (o', p), st') ->
  exists oss,
    parses (tl argv) o EmptyString o' oss /\
    Sdk.NvEncoderInitParam sdk oss (world sdk st) = Ret p (world sdk st') /\
    st' = mkSt sdk (world sdk st') (cout sdk st) (fpOut sdk st)
            (log sdk st ++ [(NvEncoderInitParam_ oss, world sdk st, Returned)]).
Proof.
  unfold ParseCommandLine. cbv zeta. intro H.
  apply bind_inv in H. destruct H as ([o1 oss] & s1 & G & H).
  destruct (parse_args_pure sdk _ _ _ _ _ _ G) as [-> _].
  apply returns_parses in G.
  apply bind_inv in H. destruct H as (q & s2 & F & H).
  apply foreign_inv in F. destruct F as (w & F & ->).
  unfold ret in H. inversion H. subst. exists oss. now repeat split.
Qed.

End Sequence.

End LoopFacts.

(** ** The [try] block as a whole *)

Module TryFacts.
Import CLib App Hoare Trace MonadFacts ParseFacts EncodeFacts MainFacts
  TraceFacts OutcomeFacts LoopFacts.
Local Open Scope list_scope.

Section Stuck.

Variable sdk : Sdk.t.

(** What follows a computation that does not come back is not run. *)
Lemma bind_stuck {A B} (m : M sdk A) (k : A -> M sdk B) st :
  never_returns sdk m ->
  snd (bind sdk m k st) = snd (m st) /\
  (forall b, fst (bind sdk m k st) <> Val b) /\
  (forall status, fst (bind sdk m k st) = Exit status ->
                  fst (m st) = Exit status).
Proof.
  intro N. unfold bind. specialize (N st).
  destruct (m st) as [[a|what|s] st1]; simpl in *.
  - now elim (N a).
  - repeat split; [discriminate | discriminate].
  - repeat split; [discriminate|]. intros status E. now inversion E.
Qed.

Lemma never_returns_stuck {A B} (m : M sdk A) (k : A -> M sdk B) :
  never_returns sdk m -> never_returns sdk (bind sdk m k).
Proof. intros N st. now apply bind_stuck. Qed.

Lemma effect_stuck {A B} R (m : M sdk A) (k : A -> M sdk B) :
  never_returns sdk m -> effect sdk R m -> effect sdk R (bind sdk m k).
Proof.
  intros N H st. destruct (bind_stuck m k st N) as [-> _]. apply H.
Qed.

Lemma exits_with_stuck {A B} ok (m : M sdk A) (k : A -> M sdk B) :
  never_returns sdk m -> exits_with sdk ok m ->
  exits_with sdk ok (bind sdk m k).
Proof.
  intros N H st status E. apply (H st).
  now apply (bind_stuck m k st N).
Qed.

Lemma grows_foreign {A} (P : Entry sdk -> Prop) c ans
    (f : Sdk.World sdk -> ext A (Sdk.World sdk)) :
  (forall w r, P (c, w, r)) -> effect sdk (grows sdk P) (foreign sdk c ans f).
Proof.
  intros HP st. apply keeps_grows.
  now apply (keeps_foreign sdk (fun _ => True) P c ans f).
Qed.

Lemma grows_same (P : Entry sdk -> Prop) {A} (m : M sdk A) :
  (forall st, log sdk (snd (m st)) = log sdk st) -> effect sdk (grows sdk P) m.
Proof.
  intros H st. exists []. split; [now rewrite H, app_nil_r | constructor].
Qed.

End Stuck.

(** A walk through a computation that returns no packet and leaves the
    stream alone. *)
Ltac mute_walk :=
  cbv zeta;
  repeat first
    [ effect_seq | effect_done | effect_loop
    | apply mute_foreign | apply mute_print
    | match goal with
      | |- effect _ _ (let '(_, _) := ?x in _) => destruct x
      | |- effect _ _ (if ?b then _ else _) => destruct b
      end ].

(** A walk through the calls of the help. *)
Ltac help_walk :=
  cbv zeta;
  repeat first
    [ effect_seq | effect_done | effect_loop
    | apply grows_foreign; intros; unfold help_call; simpl; tauto
    | apply grows_same; reflexivity
    | match goal with
      | |- effect _ _ (let '(_, _) := ?x in _) => destruct x
      | |- effect _ _ (if ?b then _ else _) => destruct b
      end ].

(** A walk through the calls of the capability report. *)
Ltac probe_walk :=
  cbv zeta;
  repeat first
    [ effect_seq | effect_done | effect_loop
    | apply grows_foreign; intros w r ctx w0 h f E; simpl in E;
      first [discriminate E | inversion E; subst; now repeat split]
    | apply grows_same; reflexivity
    | match goal with
      | |- effect _ _ (let '(_, _) := ?x in _) => destruct x
      | |- effect _ _ (if ?b then _ else _) => destruct b
      end ].

Section TryFacts.

Variable sdk : Sdk.t.

Lemma ShowEncoderCapability_mute :
  effect sdk (mute sdk) (ShowEncoderCapability sdk).
Proof. unfold ShowEncoderCapability. unfold_app. mute_walk. Qed.

Lemma ShowEncoderCapability_help :
  effect sdk (grows sdk (help_call sdk)) (ShowEncoderCapability sdk).
Proof. unfold ShowEncoderCapability. unfold_app. help_walk. Qed.

Lemma ShowEncoderCapability_probe :
  effect sdk (grows sdk (probe_only sdk)) (ShowEncoderCapability sdk).
Proof. unfold ShowEncoderCapability. unfold_app. probe_walk. Qed.

Lemma ShowHelpAndExit_mute {A} szBadOption :
  effect sdk (mute sdk) (@ShowHelpAndExit sdk A szBadOption).
Proof.
  unfold ShowHelpAndExit. unfold_app. cbv zeta.
  effect_seq; [apply mute_foreign|].
  destruct szBadOption; [effect_done|].
  effect_seq; [apply mute_print|].
  effect_seq; [apply ShowEncoderCapability_mute | effect_done].
Qed.

Lemma ShowHelpAndExit_help {A} szBadOption :
  effect sdk (grows sdk (help_call sdk)) (@ShowHelpAndExit sdk A szBadOption).
Proof.
  unfold ShowHelpAndExit. unfold_app. cbv zeta.
  effect_seq; [apply grows_foreign; intros; unfold help_call; simpl; tauto|].
  destruct szBadOption; [effect_done|].
  effect_seq; [apply grows_same; reflexivity|].
  effect_seq; [apply ShowEncoderCapability_help | effect_done].
Qed.

(** *** The calls, once the command line is read *)

Lemma ofstream_open_follows filename :
  follows sdk [N_ofstream_open] (ofstream_open sdk filename).
Proof.
  intro st. rewrite ofstream_open_run. cbn [fst snd log]. eexists.
  split; [reflexivity|]. split; [now exists [] | reflexivity].
Qed.

Lemma main_output_follows x cuContext :
  follows_when sdk (fun r => r = None) ([N_ofstream_open] ++ EncodeCuda_names)
    (main_output sdk x cuContext).
Proof.
  unfold main_output. cbv zeta.
  apply follows_when_bind; [apply ofstream_open_follows | intros _].
  apply (follows_when_bind sdk _ [] EncodeCuda_names);
    [apply follows_when_fpOut_good | intro ok].
  destruct ok; cbn [negb].
  - apply follows_when_weaken.
    eapply follows_when_eq.
    + eapply follows_when_bind; [apply EncodeCuda_follows | intros _].
      eapply follows_when_bind; [apply follows_when_print | intros _].
      apply follows_when_ret.
    + now rewrite !app_nil_r.
  - apply follows_when_throw.
Qed.

Lemma main_device_follows iGpu :
  follows sdk main_device_names (main_device sdk iGpu).
Proof. unfold_app. trace_as. reflexivity. Qed.

Lemma main_encode_follows x :
  follows_when sdk (fun r => r = None)
    (main_device_names ++ [N_ofstream_open] ++ EncodeCuda_names)
    (main_encode sdk x).
Proof.
  unfold main_encode. cbv zeta. destruct (out_of_range _ _).
  - apply follows_when_early; [reflexivity|].
    intros st a H. inversion H. discriminate.
  - apply follows_when_bind; [apply main_device_follows | intro cuContext].
    apply main_output_follows.
Qed.

Lemma main_load_follows l : follows sdk main_load_names (main_load sdk l).
Proof. unfold_app. trace_as. reflexivity. Qed.

(** *** A command line the loop gets through *)

Section Accepted.

Variable argv : list string.
Variable o' : Opts.
Variable oss' : string.
Hypothesis accepted :
  parse_args sdk (tl argv) initial_opts EmptyString = ret sdk (o', oss').

Lemma main_parse_accepted :
  main_parse sdk argv
  = bind sdk (NvEncoderInitParam_default sdk)
      (fun _ =>
         bind sdk
           (bind sdk (ret sdk (o', oss'))
              (fun x => let '(o, oss) := x in
                 bind sdk (NvEncoderInitParam sdk oss)
                   (fun initParam => ret sdk (o, initParam))))
           (fun x => let '(o, encodeCLIOptions) := x in
              ret sdk (mkLocals sdk o encodeCLIOptions false))).
Proof.
  unfold main_parse, ParseCommandLine. cbv zeta. rewrite accepted.
  reflexivity.
Qed.

Lemma main_parse_follows_accepted :
  follows sdk [N_NvEncoderInitParam_default; N_NvEncoderInitParam]
    (main_parse sdk argv).
Proof.
  rewrite main_parse_accepted. unfold_app. trace_as. reflexivity.
Qed.

Lemma main_try_follows_accepted :
  follows_when sdk (fun r => r = None) main_names (main_try sdk argv).
Proof.
  unfold main_try. rewrite main_parse_accepted.
  eapply follows_when_eq.
  - eapply follows_when_bind.
    + unfold_app. trace_walk.
    + intro l. eapply follows_when_bind; [apply main_load_follows | intro x].
      apply main_encode_follows.
  - reflexivity.
Qed.

Lemma main_try_exits_accepted :
  exits_with sdk (fun _ => False) (main_try sdk argv).
Proof.
  unfold main_try. rewrite main_parse_accepted.
  unfold main_encode, main_output, ofstream_open. unfold_app. exit_walk.
  apply exits_with_stays. discriminate.
Qed.

End Accepted.

(** *** A command line that ends in the help *)

Section Help.

Variable argv : list string.
Variable szBadOption : option string.
Hypothesis help :
  parse_args sdk (tl argv) initial_opts EmptyString
  = ShowHelpAndExit sdk szBadOption.

Lemma main_parse_help :
  main_parse sdk argv
  = bind sdk (NvEncoderInitParam_default sdk)
      (fun _ =>
         bind sdk
           (bind sdk (ShowHelpAndExit sdk szBadOption)
              (fun x => let '(o, oss) := x in
                 bind sdk (NvEncoderInitParam sdk oss)
                   (fun initParam => ret sdk (o, initParam))))
           (fun x => let '(o, encodeCLIOptions) := x in
              ret sdk (mkLocals sdk o encodeCLIOptions false))).
Proof.
  unfold main_parse, ParseCommandLine. cbv zeta. rewrite help. reflexivity.
Qed.

Lemma main_parse_never_returns : never_returns sdk (main_parse sdk argv).
Proof.
  rewrite main_parse_help. apply never_returns_bind. intros _.
  do 2 apply never_returns_stuck. apply ShowHelpAndExit_never_returns.
Qed.

Lemma main_try_never_returns : never_returns sdk (main_try sdk argv).
Proof. apply never_returns_stuck. apply main_parse_never_returns. Qed.

Lemma main_try_help_calls :
  effect sdk (grows sdk (help_call sdk)) (main_try sdk argv).
Proof.
  apply effect_stuck; [apply main_parse_never_returns|].
  rewrite main_parse_help. unfold NvEncoderInitParam_default at 1.
  effect_seq; [apply grows_foreign; intros; unfold help_call; simpl; tauto|].
  apply effect_stuck.
  { apply never_returns_stuck. apply ShowHelpAndExit_never_returns. }
  apply effect_stuck; [apply ShowHelpAndExit_never_returns|].
  apply ShowHelpAndExit_help.
Qed.

Lemma main_try_exits_help :
  exits_with sdk (fun status => status = 0 /\ szBadOption = None)
    (main_try sdk argv).
Proof.
  apply exits_with_stuck; [apply main_parse_never_returns|].
  rewrite main_parse_help. unfold NvEncoderInitParam_default at 1.
  apply exits_with_bind; [apply exits_with_foreign | intros _].
  apply exits_with_stuck.
  { apply never_returns_stuck. apply ShowHelpAndExit_never_returns. }
  apply exits_with_stuck; [apply ShowHelpAndExit_never_returns|].
  apply ShowHelpAndExit_exits.
Qed.

End Help.

(** *** What the [try] block hands to [main] *)

Lemma main_try_value argv st r st' :
  main_try sdk argv st = (Val r, st') -> r = None \/ r = Some 1.
Proof.
  unfold main_try. intro H.
  apply bind_inv in H. destruct H as (l & s1 & _ & H).
  apply bind_inv in H. destruct H as (x & s2 & _ & H).
  destruct (out_of_range (iGpu (opts sdk (locals sdk x))) (nGpu sdk x)) eqn:E.
  - rewrite (main_encode_out_of_range sdk x s2 E) in H. inversion H.
    now right.
  - unfold main_encode in H. cbv zeta in H. rewrite E in H.
    apply bind_inv in H. destruct H as (c & s3 & _ & H).
    apply main_output_returns in H. destruct H as (w & s4 & _ & _ & -> & _).
    now left.
Qed.

Lemma main_try_exits argv :
  exits_with sdk (fun status => status = 0) (main_try sdk argv).
Proof.
  destruct (parse_args_cases sdk (tl argv) initial_opts EmptyString)
    as [(o' & oss' & E)|[sb E]]; intros st status H.
  - now elim (main_try_exits_accepted argv o' oss' E st status H).
  - now apply (main_try_exits_help argv sb E st status H).
Qed.

(** *** The output file over the whole run *)

Lemma parse_args_mute args o oss :
  effect sdk (mute sdk) (parse_args sdk args o oss).
Proof.
  destruct (parse_args_cases sdk args o oss) as [(o' & oss' & E)|[sb E]];
    rewrite E; [effect_done | apply ShowHelpAndExit_mute].
Qed.

Lemma main_parse_mute argv : effect sdk (mute sdk) (main_parse sdk argv).
Proof.
  unfold main_parse, ParseCommandLine. unfold_app. cbv zeta.
  effect_seq; [apply mute_foreign|].
  effect_seq.
  - effect_seq; [apply parse_args_mute|]. mute_walk.
  - mute_walk.
Qed.

Lemma main_load_mute l : effect sdk (mute sdk) (main_load sdk l).
Proof. unfold_app. mute_walk. Qed.

Lemma main_device_mute iGpu : effect sdk (mute sdk) (main_device sdk iGpu).
Proof. unfold_app. mute_walk. Qed.

(** No packet so far and nothing in the stream: it stays so as long as
    the encoder is not asked for packets. *)
Lemma mute_fresh (st st' : St sdk) :
  mute sdk st st' ->
  emitted sdk (log sdk st) = [] /\ written (fpOut sdk st) = [] ->
  emitted sdk (log sdk st') = [] /\ written (fpOut sdk st') = [].
Proof.
  intros [F [new [L E]]] [H1 H2]. rewrite F, L, emitted_app, H1, E.
  now split.
Qed.

Lemma main_try_file argv st r st' :
  emitted sdk (log sdk st) = [] /\ written (fpOut sdk st) = [] ->
  main_try sdk argv st = (r, st') ->
  written (fpOut sdk st') = List.concat (emitted sdk (log sdk st')).
Proof.
  assert (stop : forall (s : St sdk) (q : Res (option Z)),
            emitted sdk (log sdk s) = [] /\ written (fpOut sdk s) = [] ->
            (q, s) = (r, st') ->
            written (fpOut sdk st')
            = List.concat (emitted sdk (log sdk st'))).
  { intros s q [E1 E2] H. inversion H. subst. now rewrite E1, E2. }
  intro H0. unfold main_try. unfold bind at 1.
  pose proof (mute_fresh _ _ (main_parse_mute argv st) H0) as H1.
  destruct (main_parse sdk argv st) as [[l|what|status] s1];
    cbn [snd] in H1; [|now apply stop|now apply stop].
  unfold bind at 1.
  pose proof (mute_fresh _ _ (main_load_mute l s1) H1) as H2.
  destruct (main_load sdk l s1) as [[x|what|status] s2];
    cbn [snd] in H2; [|now apply stop|now apply stop].
  unfold main_encode. cbv zeta. destruct (out_of_range _ _).
  - apply stop. exact H2.
  - unfold bind at 1.
    pose proof (mute_fresh _ _
                  (main_device_mute (iGpu (opts sdk (locals sdk x))) s2) H2)
      as H3.
    destruct (main_device sdk _ s2) as [[c|what|status] s3];
      cbn [snd] in H3; [|now apply stop|now apply stop].
    intro H. destruct (main_output_drains sdk x c s3) as (new & L & W).
    rewrite H in L, W. cbn [snd] in L, W.
    rewrite W, L, emitted_app. destruct H3 as [E1 _]. now rewrite E1.
Qed.

Lemma main_state argv st :
  fpOut sdk (snd (main sdk argv st)) = fpOut sdk (snd (main_try sdk argv st))
  /\ log sdk (snd (main sdk argv st)) = log sdk (snd (main_try sdk argv st)).
Proof.
  unfold main. destruct (main_try sdk argv st) as [[[s|]|what|s] s1];
    now split.
Qed.

End TryFacts.

End TryFacts.

(** ** Input frames and what is printed *)

Module FrameFacts.
Import CLib App Hoare Trace MonadFacts ParseFacts EncodeFacts MainFacts
  TraceFacts OutcomeFacts LoopFacts TryFacts.
Local Open Scope list_scope.

Section FrameFacts.

Variable sdk : Sdk.t.

Lemma pairwise_app (P : Entry sdk -> Entry sdk -> Prop) (l1 l2 : list (Entry sdk)) :
  pairwise sdk P l1 -> pairwise sdk P l2 ->
  (forall k e1 e2 r, l1 = k ++ [e1] -> l2 = e2 :: r -> P e1 e2) ->
  pairwise sdk P (l1 ++ l2).
Proof.
  induction l1 as [|e l1 IH]; intros H1 H2 X.
  - exact H2.
  - cbn [app pairwise]. destruct H1 as [H1 H1']. split.
    + destruct l1 as [|e' l1]; cbn [app].
      * destruct l2 as [|e2 r]; [exact I|]. now apply (X [] e e2 r).
      * exact H1.
    + apply IH; [exact H1' | exact H2|].
      intros k e1 e2 r -> E2. now apply (X (e :: k) e1 e2 r).
Qed.

Variable cuContext : CUcontext.
Variable srcIn : GpuMat.

#[export] Instance fills_PreOrder : PreOrder (fills sdk cuContext srcIn).
Proof.
  split.
  - intro st. exists []. split; [now rewrite app_nil_r|].
    split; [exact I|]. intros l e E. now destruct l.
  - intros s1 s2 s3 (n1 & L1 & P1 & T1) (n2 & L2 & P2 & T2).
    exists (n1 ++ n2). split; [now rewrite L2, L1, app_assoc|]. split.
    + apply pairwise_app; [exact P1 | exact P2|].
      intros k e1 e2 r E1 _ enc frame w C R.
      elim (T1 k e1 E1). now exists enc, frame, w.
    + intros l e E.
      destruct n2 as [|x n2'].
      * rewrite app_nil_r in E. now apply (T1 l e).
      * destruct (@exists_last _ (x :: n2')) as (l2 & e2 & E2);
          [discriminate|].
        rewrite E2, app_assoc in E. apply app_inj_tail in E.
        destruct E as [_ <-]. now apply (T2 l2 e2).
Qed.

Lemma fills_same {A} (m : M sdk A) :
  (forall st, log sdk (snd (m st)) = log sdk st) ->
  effect sdk (fills sdk cuContext srcIn) m.
Proof.
  intros H st. exists []. split; [now rewrite H, app_nil_r|].
  split; [exact I|]. intros l e E. now destruct l.
Qed.

Lemma fills_one (st st' : St sdk) (e : Entry sdk) :
  log sdk st' = log sdk st ++ [e] -> ~ handed_out sdk e ->
  fills sdk cuContext srcIn st st'.
Proof.
  intros L N. exists [e]. split; [exact L|]. split; [now split|].
  intros l e' E. destruct l as [|y l].
  - inversion E. now subst.
  - inversion E. now destruct l.
Qed.

(** A call other than [GetNextInputFrame]. *)
Lemma fills_foreign {A} c ans (f : Sdk.World sdk -> ext A (Sdk.World sdk)) :
  (forall enc, c <> GetNextInputFrame_ enc) ->
  effect sdk (fills sdk cuContext srcIn) (foreign sdk c ans f).
Proof.
  intros N st. destruct (foreign_state sdk c ans f st) as [r [E _]].
  apply (fills_one _ _ (c, world sdk st, r)).
  - now rewrite E.
  - intros (enc & frame & w & C & _). now apply (N enc).
Qed.

(** The submission of a frame: the frame handed out is filled at once. *)
Lemma fills_submit pEnc :
  effect sdk (fills sdk cuContext srcIn)
    (bind sdk (GetNextInputFrame sdk pEnc) (fun encoderInputFrame =>
     bind sdk (gets sdk (Sdk.GetEncodeWidth sdk pEnc)) (fun width =>
     bind sdk (gets sdk (Sdk.GetEncodeHeight sdk pEnc)) (fun height =>
     bind sdk
       (CopyToDeviceFrame sdk cuContext (data srcIn) 0
          (inputPtr encoderInputFrame) (wrap32 (pitch encoderInputFrame))
          width height CU_MEMORYTYPE_HOST (bufferFormat encoderInputFrame)
          (chromaOffsets encoderInputFrame)
          (numChromaPlanes encoderInputFrame))
       (fun _ => EncodeFrame sdk pEnc))))).
Proof.
  intro st. unfold GetNextInputFrame, CopyToDeviceFrame, EncodeFrame.
  rewrite foreign_bind_run.
  destruct (Sdk.GetNextInputFrame sdk pEnc (world sdk st))
    as [frame w1|what w1] eqn:E.
  - match goal with
    | |- fills _ _ _ _ (snd (bind sdk (gets sdk ?f) ?k ?s)) =>
        change (bind sdk (gets sdk f) k s) with (k (f (world sdk s)) s)
    end.
    cbv beta.
    match goal with
    | |- fills _ _ _ _ (snd (bind sdk (gets sdk ?f) ?k ?s)) =>
        change (bind sdk (gets sdk f) k s) with (k (f (world sdk s)) s)
    end.
    cbv beta. cbn [world]. rewrite foreign_bind_run.
    cbn [world cout fpOut log].
    assert (C1 : forall a r,
               copy_into sdk cuContext srcIn
                 (GetNextInputFrame_ pEnc, world sdk st, a)
                 (CopyToDeviceFrame_ cuContext (data srcIn) 0
                    (inputPtr frame) (wrap32 (pitch frame))
                    (Sdk.GetEncodeWidth sdk pEnc w1)
                    (Sdk.GetEncodeHeight sdk pEnc w1) CU_MEMORYTYPE_HOST
                    (bufferFormat frame) (chromaOffsets frame)
                    (numChromaPlanes frame), w1, r)).
    { intros a r enc fr w C R. cbn in C, R. inversion C. subst enc.
      rewrite E in R. inversion R. subst fr w. now split. }
    destruct (Sdk.CopyToDeviceFrame sdk _ _ _ _ _ _ _ _ _ _ _ w1)
      as [[] w2|what w2].
    + match goal with
      | |- fills _ _ _ _ (snd (foreign sdk ?c ?a ?f ?s)) =>
          destruct (foreign_state sdk c a f s) as [r [S _]]; rewrite S
      end.
      cbn [world cout fpOut log].
      eexists [_; _; _]. split; [cbn [log]; rewrite <- !app_assoc; reflexivity|].
      split.
      * cbn [pairwise]. split; [apply C1|]. split; [|now split].
        intros enc fr w C. discriminate C.
      * intros l e X.
        match type of X with
        | [?e1; ?e2; ?e3] = _ =>
            apply (app_inj_tail [e1; e2] l e3 e) in X
        end.
        destruct X as [_ <-]. intros (enc & fr & w & C & _). discriminate C.
    + cbn [snd].
      eexists [_; _]. split; [cbn [log]; rewrite <- !app_assoc; reflexivity|].
      split.
      * cbn [pairwise]. split; [apply C1 | now split].
      * intros l e X.
        match type of X with
        | [?e1; ?e2] = _ => apply (app_inj_tail [e1] l e2 e) in X
        end.
        destruct X as [_ <-]. intros (enc & fr & w & C & _). discriminate C.
  - cbn [snd]. apply (fills_one _ _ (GetNextInputFrame_ pEnc, world sdk st,
                                     Raised what)).
    + reflexivity.
    + intros (enc & frame & w & C & R). cbn in C, R. inversion C. subst enc.
      rewrite E in R. discriminate R.
Qed.

Lemma encode_step_fills pEnc nFrameSize i nFrame :
  effect sdk (fills sdk cuContext srcIn)
    (encode_step sdk pEnc cuContext srcIn nFrameSize i nFrame).
Proof.
  unfold encode_step. cbv zeta. effect_seq.
  - destruct (Z.ltb i last_frame).
    + apply fills_submit.
    + unfold EndEncode. apply fills_foreign. discriminate.
  - effect_seq; [|effect_done].
    unfold write_packets. effect_loop. now apply fills_same.
Qed.

Lemma EncodeCuda_fills nWidth nHeight encodeCLIOptions :
  effect sdk (fills sdk cuContext srcIn)
    (EncodeCuda sdk nWidth nHeight encodeCLIOptions cuContext srcIn).
Proof.
  unfold EncodeCuda, InitializeEncoder, encode_loop, NvEncoderCuda,
    CreateDefaultEncoderParams, SetInitParams, CreateEncoder, DestroyEncoder.
  cbv zeta.
  repeat first
    [ effect_seq | effect_done
    | apply fills_foreign; discriminate
    | effect_loop; apply encode_step_fills
    | apply fills_same; reflexivity ].
Qed.

End FrameFacts.

(** *** What a run that succeeds prints *)

Section Transcript.

Variable sdk : Sdk.t.

Lemma bind_inv_same {A B} (m : M sdk A) (k : A -> M sdk B) st b st' :
  effect sdk (same_cout sdk) m ->
  bind sdk m k st = (Val b, st') ->
  exists a st1, k a st1 = (Val b, st') /\ cout sdk st1 = cout sdk st.
Proof.
  intros Hm H. apply bind_inv in H. destruct H as (a & st1 & G & H).
  exists a, st1. split; [exact H|]. specialize (Hm st). now rewrite G in Hm.
Qed.

Lemma main_parse_cout argv st l st' :
  main_parse sdk argv st = (Val l, st') -> cout sdk st' = cout sdk st.
Proof.
  unfold main_parse, NvEncoderInitParam_default. cbv zeta. intro H.
  apply bind_inv_same in H; [|apply same_cout_foreign].
  destruct H as (e0 & s0 & H & C0).
  apply bind_inv in H. destruct H as ([o e] & s1 & G & H).
  apply ParseCommandLine_returns in G. destruct G as (oss & _ & _ & G).
  unfold ret in H. inversion H. subst. rewrite G. cbn [cout]. exact C0.
Qed.

Lemma main_load_same_cout l : effect sdk (same_cout sdk) (main_load sdk l).
Proof. unfold_app. cout_walk. Qed.

Lemma main_device_says iGpu st c st' :
  main_device sdk iGpu st = (Val c, st') ->
  exists name,
    cout sdk st' = (cout sdk st ++ ("GPU in use: " ++ name ++ endl))%string.
Proof.
  unfold main_device, cuDeviceGet, cuDeviceGetName, cuCtxCreate, ck.
  cbv zeta. intro H.
  apply bind_inv_same in H; [|apply same_cout_foreign].
  destruct H as ([r d] & s1 & H & C1).
  apply bind_inv_same in H; [|apply same_cout_foreign].
  destruct H as (u2 & s2 & H & C2).
  apply bind_inv_same in H; [|apply same_cout_foreign].
  destruct H as ([r3 name] & s3 & H & C3).
  apply bind_inv_same in H; [|apply same_cout_foreign].
  destruct H as (u4 & s4 & H & C4).
  unfold bind at 1 in H. unfold print at 1 in H.
  apply bind_inv_same in H; [|apply same_cout_foreign].
  destruct H as ([r5 c5] & s5 & H & C5).
  apply bind_inv_same in H; [|apply same_cout_foreign].
  destruct H as (u6 & s6 & H & C6).
  unfold ret in H. inversion H. subst. exists name.
  rewrite C6, C5. cbn [cout]. now rewrite C4, C3, C2, C1.
Qed.

End Transcript.

End FrameFacts.

(** ** Exceptions of foreign calls *)

Module RaiseFacts.
Import CLib App Hoare Trace MonadFacts ParseFacts EncodeFacts MainFacts
  TraceFacts OutcomeFacts LoopFacts TryFacts.
Local Open Scope list_scope.

Section RaiseFacts.

Variable sdk : Sdk.t.

Lemma ended_weaken {A} own (r : Res A) new :
  ended sdk false r new -> ended sdk own r new.
Proof.
  destruct r as [a|what|status]; simpl.
  - tauto.
  - intros [H|[H _]]; [now left | discriminate H].
  - intros [H _]. discriminate H.
Qed.

Lemma propagates_weaken {A} own (m : M sdk A) :
  propagates sdk false m -> propagates sdk own m.
Proof.
  intros H st. destruct (H st) as (new & L & E). exists new.
  split; [exact L | now apply ended_weaken].
Qed.

(** A computation that makes no call and returns. *)
Lemma propagates_silent {A} own (m : M sdk A) :
  (forall st, log sdk (snd (m st)) = log sdk st) ->
  (forall st, exists a, fst (m st) = Val a) ->
  propagates sdk own m.
Proof.
  intros HL HV st. exists []. split; [now rewrite HL, app_nil_r|].
  destruct (HV st) as [a ->]. constructor.
Qed.

Lemma propagates_ret {A} own (a : A) : propagates sdk own (ret sdk a).
Proof. apply propagates_silent; intro st; [reflexivity | now exists a]. Qed.

Lemma propagates_gets {A} own (f : Sdk.World sdk -> A) :
  propagates sdk own (gets sdk f).
Proof.
  apply propagates_silent; intro st; [reflexivity | eexists; reflexivity].
Qed.

Lemma propagates_print own s : propagates sdk own (print sdk s).
Proof.
  apply propagates_silent; intro st; [reflexivity | now exists tt].
Qed.

Lemma propagates_fpOut_write own p : propagates sdk own (fpOut_write sdk p).
Proof.
  apply propagates_silent; intro st; [reflexivity | now exists tt].
Qed.

Lemma propagates_fpOut_good own : propagates sdk own (fpOut_good sdk).
Proof.
  apply propagates_silent; intro st; [reflexivity | eexists; reflexivity].
Qed.

(** The program throws or leaves on its own account. *)
Lemma propagates_throw {A} what : propagates sdk true (@throw sdk A what).
Proof.
  intro st. exists []. split; [simpl; now rewrite app_nil_r|].
  simpl. right. split; [reflexivity | constructor].
Qed.

Lemma propagates_exit {A} status : propagates sdk true (@exit sdk A status).
Proof.
  intro st. exists []. split; [simpl; now rewrite app_nil_r|].
  simpl. split; [reflexivity | constructor].
Qed.

Lemma propagates_foreign {A} own c (ans : A -> Answer)
    (f : Sdk.World sdk -> ext A (Sdk.World sdk)) :
  (forall a what, ans a <> Raised what) ->
  propagates sdk own (foreign sdk c ans f).
Proof.
  intros Hans st. unfold foreign.
  destruct (f (world sdk st)) as [a w|what w]; cbn [fst snd log].
  - eexists. split; [reflexivity|]. simpl. constructor; [|constructor].
    intro what. apply Hans.
  - eexists. split; [reflexivity|]. simpl. left.
    exists [], (c, world sdk st, Raised what). now repeat split.
Qed.

Lemma propagates_bind {A B} own (m : M sdk A) (k : A -> M sdk B) :
  propagates sdk own m -> (forall a, propagates sdk own (k a)) ->
  propagates sdk own (bind sdk m k).
Proof.
  intros Hm Hk st. unfold bind. destruct (Hm st) as (n1 & L1 & E1).
  destruct (m st) as [[a|what|status] s1]; cbn [fst snd] in *.
  - destruct (Hk a s1) as (n2 & L2 & E2). exists (n1 ++ n2).
    split; [now rewrite L2, L1, app_assoc|].
    destruct (fst (k a s1)) as [b|what|status]; simpl in *.
    + apply Forall_app. now split.
    + destruct E2 as [(l & e & -> & R & C)|[O C]].
      * left. exists (n1 ++ l), e. rewrite app_assoc.
        repeat split; [exact R|]. apply Forall_app. now split.
      * right. split; [exact O|]. apply Forall_app. now split.
    + destruct E2 as [O C]. split; [exact O|]. apply Forall_app. now split.
  - exists n1. now split.
  - exists n1. now split.
Qed.

Lemma propagates_for_each {A S} own (body : A -> S -> M sdk S)
    (l : list A) :
  (forall x s, propagates sdk own (body x s)) ->
  forall s, propagates sdk own (for_each sdk l body s).
Proof.
  intro Hb. induction l as [|x l IH]; intro s; simpl.
  - apply propagates_ret.
  - apply propagates_bind; [apply Hb | exact IH].
Qed.

(** An exception that came out of a call: the call is the last of the run
    and the run ended with that exception. *)
Lemma ended_raised {A} own (r : Res A) new e what :
  ended sdk own r new -> In e new -> snd e = Raised what ->
  r = Throw what /\ exists l, new = l ++ [e] /\ Forall (calm sdk) l.
Proof.
  intros E I R.
  assert (X : forall l, Forall (calm sdk) l -> ~ In e l).
  { intros l F H. rewrite Forall_forall in F. now apply (F e H what). }
  destruct r as [a|what'|status]; simpl in E.
  - now elim (X new).
  - destruct E as [(l & e' & -> & R' & C)|[_ C]]; [|now elim (X new)].
    apply in_app_or in I. destruct I as [I|[<-|[]]]; [now elim (X l)|].
    rewrite R in R'. inversion R'. subst what'.
    split; [reflexivity|]. now exists l.
  - destruct E as [_ C]. now elim (X new).
Qed.

(** Where the program itself neither throws nor leaves, a run in which
    every call returned has a value. *)
Lemma ended_calm {A} (r : Res A) new :
  ended sdk false r new -> Forall (calm sdk) new -> exists a, r = Val a.
Proof.
  intros E C. destruct r as [a|what|status]; simpl in E.
  - now exists a.
  - destruct E as [(l & e & -> & R & _)|[O _]]; [|discriminate O].
    apply Forall_app in C. destruct C as [_ C]. inversion C as [|? ? Ce _].
    now elim (Ce what).
  - destruct E as [O _]. discriminate O.
Qed.

End RaiseFacts.

(** A walk through the calls of a computation. *)
Ltac raise_walk :=
  cbv zeta;
  repeat first
    [ lazymatch goal with
      | |- propagates _ _ (bind _ _ _) => apply propagates_bind; [|intro]
      | |- propagates _ _ (for_each _ _ _ _) =>
          apply propagates_for_each; intros ? ?
      | |- propagates _ _ (foreign _ _ _ _) =>
          apply propagates_foreign; discriminate
      | |- propagates _ _ (let '(_, _) := ?x in _) => destruct x
      | |- propagates _ _ (if ?b then _ else _) => destruct b
      | |- propagates _ _ (ret _ _) => apply propagates_ret
      | |- propagates _ _ (gets _ _) => apply propagates_gets
      | |- propagates _ _ (print _ _) => apply propagates_print
      | |- propagates _ _ (fpOut_write _ _) => apply propagates_fpOut_write
      | |- propagates _ _ (fpOut_good _) => apply propagates_fpOut_good
      | |- propagates _ true (throw _ _) => apply propagates_throw
      | |- propagates _ true (exit _ _) => apply propagates_exit
      end ].

Section Runs.

Variable sdk : Sdk.t.

Lemma encode_loop_propagates pEnc cuContext srcIn nFrameSize nFrame :
  propagates sdk false
    (encode_loop sdk pEnc cuContext srcIn nFrameSize nFrame).
Proof. unfold_app. raise_walk. Qed.

Lemma EncodeCuda_propagates own nWidth nHeight encodeCLIOptions cuContext
    srcIn :
  propagates sdk own
    (EncodeCuda sdk nWidth nHeight encodeCLIOptions cuContext srcIn).
Proof. apply propagates_weaken. unfold_app. raise_walk. Qed.

Lemma ShowEncoderCapability_propagates own :
  propagates sdk own (ShowEncoderCapability sdk).
Proof.
  apply propagates_weaken. unfold ShowEncoderCapability. unfold_app.
  raise_walk.
Qed.

Lemma ShowHelpAndExit_propagates {A} szBadOption :
  propagates sdk true (@ShowHelpAndExit sdk A szBadOption).
Proof.
  unfold ShowHelpAndExit. unfold_app. cbv zeta.
  apply propagates_bind; [apply propagates_foreign; discriminate | intro p].
  destruct szBadOption; [apply propagates_throw|].
  apply propagates_bind; [apply propagates_print | intros _].
  apply propagates_bind; [apply ShowEncoderCapability_propagates | intros _].
  apply propagates_exit.
Qed.

Lemma parse_args_propagates args o oss :
  propagates sdk true (parse_args sdk args o oss).
Proof.
  destruct (parse_args_cases sdk args o oss) as [(o' & oss' & E)|[sb E]];
    rewrite E; [apply propagates_ret | apply ShowHelpAndExit_propagates].
Qed.

Lemma main_parse_propagates argv : propagates sdk true (main_parse sdk argv).
Proof.
  unfold main_parse, ParseCommandLine. unfold_app. cbv zeta.
  apply propagates_bind; [apply propagates_foreign; discriminate | intros _].
  apply propagates_bind.
  - apply propagates_bind; [apply parse_args_propagates | intros [o oss]].
    raise_walk.
  - intros [o p]. apply propagates_ret.
Qed.

Lemma main_load_propagates own l : propagates sdk own (main_load sdk l).
Proof. apply propagates_weaken. unfold_app. raise_walk. Qed.

Lemma main_device_propagates own iGpu :
  propagates sdk own (main_device sdk iGpu).
Proof. apply propagates_weaken. unfold_app. raise_walk. Qed.

Lemma ofstream_open_propagates own filename :
  propagates sdk own (ofstream_open sdk filename).
Proof.
  unfold ofstream_open. unfold_app.
  apply propagates_bind; [apply propagates_foreign; discriminate | intro ok].
  apply propagates_silent; intro st; [reflexivity | now exists tt].
Qed.

Lemma main_encode_propagates x : propagates sdk true (main_encode sdk x).
Proof.
  unfold main_encode, main_output. cbv zeta.
  destruct (out_of_range _ _); [raise_walk|].
  apply propagates_bind; [apply main_device_propagates | intro cuContext].
  apply propagates_bind; [apply ofstream_open_propagates | intros _].
  apply propagates_bind; [apply propagates_fpOut_good | intro ok].
  destruct ok; cbn [negb]; [|apply propagates_throw].
  apply propagates_bind; [apply EncodeCuda_propagates | intros _].
  raise_walk.
Qed.

(** In the [try] block an exception of a foreign call is never caught and
    nothing is called after it. *)
Lemma main_try_propagates argv : propagates sdk true (main_try sdk argv).
Proof.
  unfold main_try.
  apply propagates_bind; [apply main_parse_propagates | intro l].
  apply propagates_bind; [apply main_load_propagates | intro x].
  apply main_encode_propagates.
Qed.

End Runs.

End RaiseFacts.

(** ** The calls of a whole run *)

Module RunFacts.
Import CLib App Hoare Trace MonadFacts ParseFacts EncodeFacts MainFacts
  TraceFacts OutcomeFacts LoopFacts TryFacts.
Local Open Scope list_scope.

Section Entries.

Variable sdk : Sdk.t.

(** The entry a foreign call leaves, with the answer it really got. *)
Lemma grows_foreign_exact {A} (P : Entry sdk -> Prop) c (ans : A -> Answer)
    (f : Sdk.World sdk -> ext A (Sdk.World sdk)) :
  (forall w,
     P (c, w, match f w with
              | Ret a _ => ans a
              | Thr what _ => Raised what
              end)) ->
  effect sdk (grows sdk P) (foreign sdk c ans f).
Proof.
  intros HP st. unfold foreign. specialize (HP (world sdk st)).
  destruct (f (world sdk st)) as [a w|what w]; cbn [snd log];
    (eexists; split; [reflexivity|]); now constructor.
Qed.

Lemma Forall_impl_In {A} (P Q : A -> Prop) (l : list A) :
  (forall x, In x l -> P x -> Q x) -> Forall P l -> Forall Q l.
Proof.
  intros H F. rewrite Forall_forall in *. intros x I. now apply H, F.
Qed.

End Entries.

(** A walk through the entries a computation adds to the log; [side] shows
    that the entry of a foreign call is as it should be. *)
Ltac entry_walk side :=
  cbv zeta;
  repeat first
    [ effect_seq | effect_done | effect_loop
    | apply grows_foreign; side
    | apply grows_same; reflexivity
    | match goal with
      | |- effect _ _ (let '(_, _) := ?x in _) => destruct x
      | |- effect _ _ (if ?b then _ else _) => destruct b
      end ].

Ltac ck_side :=
  intros w r r0 E; simpl in E; discriminate E.

Ltac ck_walk :=
  cbv zeta;
  repeat first
    [ effect_seq | effect_done | effect_loop
    | apply grows_foreign; ck_side
    | apply grows_foreign_exact; intros w r0 E; cbn in E; inversion E;
      subst; cbn; destruct (Sdk.ck _ _ _); reflexivity
    | apply grows_same; reflexivity
    | match goal with
      | |- effect _ _ (let '(_, _) := ?x in _) => destruct x
      | |- effect _ _ (if ?b then _ else _) => destruct b
      end ].

Ltac no_format_side :=
  intros w r g Hg; simpl in Hg; discriminate Hg.

Section RunFacts.

Variable sdk : Sdk.t.

(** *** The answers of [ck] *)

Lemma ShowEncoderCapability_ck :
  effect sdk (grows sdk (ck_entry sdk)) (ShowEncoderCapability sdk).
Proof. unfold ShowEncoderCapability. unfold_app. ck_walk. Qed.

Lemma ShowHelpAndExit_ck {A} szBadOption :
  effect sdk (grows sdk (ck_entry sdk)) (@ShowHelpAndExit sdk A szBadOption).
Proof.
  unfold ShowHelpAndExit. unfold_app. cbv zeta.
  effect_seq; [apply grows_foreign; ck_side|].
  destruct szBadOption; [effect_done|].
  effect_seq; [apply grows_same; reflexivity|].
  effect_seq; [apply ShowEncoderCapability_ck | effect_done].
Qed.

Lemma parse_args_ck args o oss :
  effect sdk (grows sdk (ck_entry sdk)) (parse_args sdk args o oss).
Proof.
  destruct (parse_args_cases sdk args o oss) as [(o' & oss' & E)|[sb E]];
    rewrite E; [effect_done | apply ShowHelpAndExit_ck].
Qed.

Lemma main_encode_ck x :
  effect sdk (grows sdk (ck_entry sdk)) (main_encode sdk x).
Proof.
  unfold main_encode, main_output, ofstream_open. unfold_app. ck_walk.
Qed.

Lemma main_try_ck argv :
  effect sdk (grows sdk (ck_entry sdk)) (main_try sdk argv).
Proof.
  unfold main_try, main_parse, ParseCommandLine. cbv zeta.
  effect_seq.
  - effect_seq; [unfold_app; ck_walk|].
    effect_seq.
    + effect_seq; [apply parse_args_ck|]. unfold_app. ck_walk.
    + ck_walk.
  - effect_seq; [unfold_app; ck_walk|]. apply main_encode_ck.
Qed.

(** *** The probe of the help *)

Lemma ShowHelpAndExit_probe {A} szBadOption :
  effect sdk (grows sdk (probe_only sdk)) (@ShowHelpAndExit sdk A szBadOption).
Proof.
  unfold ShowHelpAndExit. unfold_app. cbv zeta.
  effect_seq.
  { apply grows_foreign. intros w r ctx w0 h f E. discriminate E. }
  destruct szBadOption; [effect_done|].
  effect_seq; [apply grows_same; reflexivity|].
  effect_seq; [apply ShowEncoderCapability_probe | effect_done].
Qed.

Section Help.

Variable argv : list string.
Variable szBadOption : option string.
Hypothesis help :
  parse_args sdk (tl argv) initial_opts EmptyString
  = ShowHelpAndExit sdk szBadOption.

Lemma main_try_probe :
  effect sdk (grows sdk (probe_only sdk)) (main_try sdk argv).
Proof.
  apply effect_stuck; [apply (main_parse_never_returns sdk argv _ help)|].
  rewrite (main_parse_help sdk argv _ help).
  unfold NvEncoderInitParam_default at 1.
  effect_seq.
  { apply grows_foreign. intros w r ctx w0 h f E. discriminate E. }
  apply effect_stuck.
  { apply never_returns_stuck. apply ShowHelpAndExit_never_returns. }
  apply effect_stuck; [apply ShowHelpAndExit_never_returns|].
  apply ShowHelpAndExit_probe.
Qed.

(** A run that ends in the help constructs no encoder but the probe, and
    makes no call but those of the help. *)
Lemma main_try_help_run st :
  exists new,
    log sdk (snd (main_try sdk argv st)) = log sdk st ++ new /\
    Forall (help_call sdk) new /\ Forall (probe_only sdk) new /\
    forall r, fst (main_try sdk argv st) <> Val r.
Proof.
  destruct (main_try_help_calls sdk argv _ help st) as (n1 & L1 & H1).
  destruct (main_try_probe st) as (n2 & L2 & H2).
  rewrite L1 in L2. apply app_inv_head in L2. subst n2.
  exists n1. repeat split; try assumption.
  apply (main_try_never_returns sdk argv _ help).
Qed.

End Help.

(** *** A command line the loop gets through *)

Section Accepted.

Variable argv : list string.
Variable o' : Opts.
Variable oss' : string.
Hypothesis accepted :
  parse_args sdk (tl argv) initial_opts EmptyString = ret sdk (o', oss').

Lemma main_parse_no_encoder :
  effect sdk
    (grows sdk
       (fun e =>
          format_of (call_of sdk e) = None /\ size_of (call_of sdk e) = None))
    (main_parse sdk argv).
Proof.
  rewrite (main_parse_accepted sdk argv o' oss' accepted). unfold_app.
  entry_walk ltac:(now intros).
Qed.

Lemma main_load_no_encoder l :
  effect sdk
    (grows sdk
       (fun e =>
          format_of (call_of sdk e) = None /\ size_of (call_of sdk e) = None))
    (main_load sdk l).
Proof. unfold_app. entry_walk ltac:(now intros). Qed.

(** Every encoder is constructed and initialised with ABGR. *)
Lemma main_try_format_accepted :
  effect sdk (grows sdk (with_format sdk NV_ENC_BUFFER_FORMAT_ABGR))
    (main_try sdk argv).
Proof.
  assert (W : forall e : Entry sdk,
            format_of (call_of sdk e) = None /\ size_of (call_of sdk e) = None
            -> with_format sdk NV_ENC_BUFFER_FORMAT_ABGR e).
  { intros e [F _] g Hg. congruence. }
  unfold main_try. effect_seq.
  - intro st. destruct (main_parse_no_encoder st) as (new & L & F).
    exists new. split; [exact L|]. revert F. apply Forall_impl. exact W.
  - effect_seq.
    + intro st. destruct (main_load_no_encoder a st) as (new & L & F).
      exists new. split; [exact L|]. revert F. apply Forall_impl. exact W.
    + intro st. apply keeps_grows. apply main_encode_format.
Qed.

End Accepted.

(** In every run the encoders are those of [EncodeCuda], constructed and
    initialised with ABGR, or the run ends in the help and the only
    encoders are its probes. *)
Lemma main_try_formats argv st :
  exists new,
    log sdk (snd (main_try sdk argv st)) = log sdk st ++ new /\
    (Forall (with_format sdk NV_ENC_BUFFER_FORMAT_ABGR) new \/
     (Forall (help_call sdk) new /\ Forall (probe_only sdk) new /\
      forall r, fst (main_try sdk argv st) <> Val r)).
Proof.
  destruct (parse_args_cases sdk (tl argv) initial_opts EmptyString)
    as [(o' & oss' & E)|[sb E]].
  - destruct (main_try_format_accepted argv o' oss' E st) as (new & L & F).
    exists new. split; [exact L | now left].
  - destruct (main_try_help_run argv sb E st) as (new & L & H).
    exists new. split; [exact L | now right].
Qed.

(** *** The image and the size of the encoder *)

(** Loading the image starts with [imread]; the size it leaves is that of
    the image. *)
Lemma main_load_image l st x st' :
  main_load sdk l st = (Val x, st') ->
  exists m w rest,
    Sdk.imread sdk (szInputFileName (opts sdk l)) (world sdk st) = Ret m w /\
    log sdk st'
    = log sdk st
      ++ (imread_ (szInputFileName (opts sdk l)), world sdk st, Returned)
         :: rest /\
    Forall (fun e => size_of (call_of sdk e) = None) rest /\
    nWidth (opts sdk (locals sdk x)) = cols m /\
    nHeight (opts sdk (locals sdk x)) = rows m.
Proof.
  intro H.
  destruct (main_load_returns sdk l st x st' H) as (m & w & Hm & Ho & _).
  revert H. unfold main_load. cbv zeta. intro H.
  apply bind_inv in H. destruct H as (m' & s1 & G & H).
  apply foreign_inv in G. destruct G as (w' & G & ->).
  rewrite Hm in G. inversion G. subst m' w'. clear G.
  match type of H with
  | ?k ?s = _ =>
      assert (E : grows sdk (fun e => size_of (call_of sdk e) = None) s
                    (snd (k s)));
      [ apply (fun E0 : effect sdk
                          (grows sdk
                             (fun e => size_of (call_of sdk e) = None)) k =>
                 E0 s);
        unfold_app; entry_walk ltac:(now intros) |]
  end.
  rewrite H in E. cbn [snd log] in E.
  destruct E as (rest & L & F).
  exists m, w, rest. rewrite Ho.
  split; [exact Hm|]. split; [|now repeat split].
  rewrite L. cbn [log]. rewrite <- app_assoc. reflexivity.
Qed.

Lemma Forall_no_size (new l : list (Entry sdk)) :
  Forall (fun e => size_of (call_of sdk e) = None) l ->
  Forall (image_sized sdk new) l.
Proof.
  apply Forall_impl. intros e N s E. congruence.
Qed.

Section Accepted.

Variable argv : list string.
Variable o' : Opts.
Variable oss' : string.
Hypothesis accepted :
  parse_args sdk (tl argv) initial_opts EmptyString = ret sdk (o', oss').

(** Every encoder has the size of the image [imread] returned. *)
Lemma main_try_size_accepted st :
  exists new,
    log sdk (snd (main_try sdk argv st)) = log sdk st ++ new /\
    Forall (image_sized sdk new) new.
Proof.
  assert (W : forall l : list (Entry sdk),
            Forall
              (fun e =>
                 format_of (call_of sdk e) = None /\
                 size_of (call_of sdk e) = None) l ->
            Forall (fun e => size_of (call_of sdk e) = None) l).
  { intro l. apply Forall_impl. now intros e [_ S]. }
  unfold main_try. unfold bind at 1.
  destruct (main_parse_no_encoder argv o' oss' accepted st) as (n1 & L1 & F1).
  apply W in F1.
  destruct (main_parse sdk argv st) as [[l|what|status] s1];
    cbn [snd] in L1 |- *;
    [|exists n1; split; [exact L1 | now apply Forall_no_size]..].
  unfold bind at 1.
  destruct (main_load_no_encoder l s1) as (n2 & L2 & F2). apply W in F2.
  destruct (main_load sdk l s1) as [[x|what|status] s2] eqn:Hl;
    cbn [snd] in L2 |- *;
    [|exists (n1 ++ n2);
      (split; [now rewrite L2, L1, app_assoc|]);
      apply Forall_no_size; apply Forall_app; now split..].
  destruct (main_load_image l s1 x s2 Hl) as (m & w & rest & Hm & L & _ & Cw & Ch).
  rewrite L2 in L. apply app_inv_head in L. subst n2.
  destruct (main_encode_size sdk x s2 I) as (_ & n3 & L3 & F3).
  exists (n1 ++ ((imread_ (szInputFileName (opts sdk l)), world sdk s1,
                  Returned) :: rest) ++ n3).
  split; [now rewrite L3, L2, L1, <- !app_assoc|].
  apply Forall_app. split; [now apply Forall_no_size|].
  apply Forall_app. split; [now apply Forall_no_size|].
  revert F3. apply Forall_impl. intros e S s E.
  exists (imread_ (szInputFileName (opts sdk l)), world sdk s1, Returned),
    (szInputFileName (opts sdk l)), m, w.
  split.
  { apply in_or_app. right. now left. }
  split; [reflexivity|]. split; [exact Hm|].
  rewrite (S s E), Cw, Ch. reflexivity.
Qed.

End Accepted.

(** In every run the encoders are those of [EncodeCuda], with the size of
    the image, or the run ends in the help and the only encoders are its
    probes. *)
Lemma main_try_sizes argv st :
  exists new,
    log sdk (snd (main_try sdk argv st)) = log sdk st ++ new /\
    (Forall (image_sized sdk new) new \/
     (Forall (help_call sdk) new /\ Forall (probe_only sdk) new /\
      forall r, fst (main_try sdk argv st) <> Val r)).
Proof.
  destruct (parse_args_cases sdk (tl argv) initial_opts EmptyString)
    as [(o' & oss' & E)|[sb E]].
  - destruct (main_try_size_accepted argv o' oss' E st) as (new & L & F).
    exists new. split; [exact L | now left].
  - destruct (main_try_help_run argv sb E st) as (new & L & H).
    exists new. split; [exact L | now right].
Qed.

End RunFacts.

End RunFacts.

(** ** Calls that come in pairs *)

Module ChainFacts.
Import CLib App Hoare Trace MonadFacts ParseFacts EncodeFacts MainFacts
  TraceFacts OutcomeFacts LoopFacts TryFacts FrameFacts RaiseFacts RunFacts.
Local Open Scope list_scope.

Section Chains.

Variable sdk : Sdk.t.
Variable Inv : Sdk.World sdk -> Prop.
Variables P open : Entry sdk -> Prop.
Variable Q : Entry sdk -> Entry sdk -> Prop.

#[export] Instance chains_PreOrder : PreOrder (chains sdk Inv P open Q).
Proof.
  split.
  - intros st HI. split; [exact HI|]. exists [].
    split; [now rewrite app_nil_r|]. split; [constructor|].
    split; [exact I|]. intros l e E. now destruct l.
  - intros s1 s2 s3 H12 H23 HI.
    destruct (H12 HI) as (I2 & n1 & L1 & F1 & P1 & T1).
    destruct (H23 I2) as (I3 & n2 & L2 & F2 & P2 & T2).
    split; [exact I3|]. exists (n1 ++ n2).
    split; [now rewrite L2, L1, app_assoc|].
    split; [apply Forall_app; now split|]. split.
    + apply pairwise_app; [exact P1 | exact P2|].
      intros k e1 e2 r E1 _ O. now elim (T1 k e1 E1).
    + intros l e E. destruct n2 as [|x n2'].
      * rewrite app_nil_r in E. now apply (T1 l e).
      * destruct (@exists_last _ (x :: n2')) as (l2 & e2 & E2);
          [discriminate|].
        rewrite E2, app_assoc in E. apply app_inj_tail in E.
        destruct E as [_ <-]. now apply (T2 l2 e2).
Qed.

Lemma chains_same {A} (m : M sdk A) :
  (forall st, world sdk (snd (m st)) = world sdk st) ->
  (forall st, log sdk (snd (m st)) = log sdk st) ->
  effect sdk (chains sdk Inv P open Q) m.
Proof.
  intros HW HL st HI. rewrite HW. split; [exact HI|]. exists [].
  split; [now rewrite HL, app_nil_r|]. split; [constructor|].
  split; [exact I|]. intros l e E. now destruct l.
Qed.

Lemma chains_one (st st' : St sdk) (e : Entry sdk) :
  log sdk st' = log sdk st ++ [e] ->
  (Inv (world sdk st) -> Inv (world sdk st') /\ P e) -> ~ open e ->
  chains sdk Inv P open Q st st'.
Proof.
  intros L H N HI. destruct (H HI) as [I' Pe]. split; [exact I'|].
  exists [e]. split; [exact L|]. split; [now constructor|].
  split; [now split|].
  intros l e' E. destruct l as [|y l].
  - inversion E. now subst.
  - inversion E. now destruct l.
Qed.

(** A call that is never left open. *)
Lemma chains_foreign {A} c ans (f : Sdk.World sdk -> ext A (Sdk.World sdk)) :
  (forall w, Inv w -> Inv (after sdk (f w))) ->
  (forall w r, Inv w -> P (c, w, r)) ->
  (forall w r, ~ open (c, w, r)) ->
  effect sdk (chains sdk Inv P open Q) (foreign sdk c ans f).
Proof.
  intros HW HP HO st.
  destruct (foreign_state sdk c ans f st) as [r [E _]].
  apply (chains_one _ _ (c, world sdk st, r)).
  - now rewrite E.
  - intro HI. rewrite E. cbn [world]. split; [now apply HW | now apply HP].
  - apply HO.
Qed.

(** The entries of a run that [chains] are added at the end of the log. *)
Lemma chains_grows {A} (m : M sdk A) :
  (forall w, Inv w) ->
  effect sdk (chains sdk Inv P open Q) m ->
  effect sdk (grows sdk (fun _ => True)) m.
Proof.
  intros HI H st. destruct (H st (HI _)) as (_ & new & L & _).
  exists new. split; [exact L|]. apply Forall_forall. now intros.
Qed.

Lemma begins_foreign {A} c ans (f : Sdk.World sdk -> ext A (Sdk.World sdk)) :
  begins sdk c (foreign sdk c ans f).
Proof.
  intro st. destruct (foreign_state sdk c ans f st) as [r [E _]].
  exists r, []. now rewrite E.
Qed.

Lemma begins_bind {A B} c ans (f : Sdk.World sdk -> ext A (Sdk.World sdk))
    (k : A -> M sdk B) :
  (forall a, effect sdk (grows sdk (fun _ => True)) (k a)) ->
  begins sdk c (bind sdk (foreign sdk c ans f) k).
Proof.
  intros Hk st. rewrite foreign_bind_run.
  destruct (f (world sdk st)) as [a w|what w].
  - destruct (Hk a (mkSt sdk w (cout sdk st) (fpOut sdk st)
                      (log sdk st ++ [(c, world sdk st, ans a)])))
      as (rest & L & _).
    exists (ans a), rest. rewrite L. cbn [log]. now rewrite <- app_assoc.
  - exists (Raised what), []. reflexivity.
Qed.

(** A call that is left open, and a continuation whose first call closes
    it. *)
Lemma chains_open {A B} c (f : Sdk.World sdk -> A * Sdk.World sdk)
    (c2 : A -> Call) (k : A -> M sdk B) :
  (forall w, Inv w -> Inv (snd (f w))) ->
  (forall w r, Inv w -> P (c, w, r)) ->
  (forall w answer,
     Q (c, w, Returned) (c2 (fst (f w)), snd (f w), answer)) ->
  (forall a, effect sdk (chains sdk Inv P open Q) (k a)) ->
  (forall a, begins sdk (c2 a) (k a)) ->
  effect sdk (chains sdk Inv P open Q) (bind sdk (foreign_c sdk c f) k).
Proof.
  intros HW HP HQ Hk Hb st HI. rewrite foreign_c_bind_run.
  set (a := fst (f (world sdk st))). set (w := snd (f (world sdk st))).
  set (s1 := mkSt sdk w (cout sdk st) (fpOut sdk st)
               (log sdk st ++ [(c, world sdk st, Returned)])).
  assert (I1 : Inv (world sdk s1)) by (now apply HW).
  destruct (Hk a s1 I1) as (I2 & new & L & F & Pw & T).
  destruct (Hb a s1) as (answer & rest & L').
  rewrite L in L'. apply app_inv_head in L'. subst new.
  split; [exact I2|].
  exists ((c, world sdk st, Returned) :: (c2 a, world sdk s1, answer) :: rest).
  split; [rewrite L; unfold s1; cbn [log]; now rewrite <- app_assoc|].
  split; [constructor; [now apply HP | exact F]|]. split.
  - cbn [pairwise]. split; [|exact Pw]. intros _. apply HQ.
  - intros l e E. destruct l as [|y l]; [discriminate E|].
    inversion E. now apply (T l e).
Qed.

Lemma pairwise_impl (R R' : Entry sdk -> Entry sdk -> Prop)
    (l : list (Entry sdk)) :
  (forall e1 e2, R e1 e2 -> R' e1 e2) ->
  pairwise sdk R l -> pairwise sdk R' l.
Proof.
  intro H. induction l as [|e l IH]; [trivial|].
  cbn [pairwise]. intros [H1 H2]. split; [|now apply IH].
  destruct l; [exact I | now apply H].
Qed.

End Chains.

End ChainFacts.

(** ** The image in the frames *)

Module ImageFacts.
Import CLib App Hoare Trace MonadFacts ParseFacts EncodeFacts MainFacts
  TraceFacts OutcomeFacts LoopFacts TryFacts FrameFacts RaiseFacts RunFacts
  ChainFacts.
Local Open Scope list_scope.

Section Image.

Variable sdk : Sdk.t.
Variable pEnc : pointer.
Variable cuContext : CUcontext.
Variable srcIn : GpuMat.
Variable layout : Layout.
Variable pixels : list byte.

Hypothesis Hget : leaves sdk (data srcIn) (Sdk.GetNextInputFrame sdk pEnc).
Hypothesis Henc : leaves sdk (data srcIn) (Sdk.EncodeFrame sdk pEnc).
Hypothesis Hend : leaves sdk (data srcIn) (Sdk.EndEncode sdk pEnc).
Hypothesis Hframe : frames_apart sdk pEnc (data srcIn).
Hypothesis Hcopy : copies_through sdk cuContext (data srcIn) layout.

#[export] Instance submits_PreOrder :
  PreOrder (submits sdk pEnc srcIn layout pixels).
Proof. unfold submits. exact _. Qed.

Lemma submits_same {A} (m : M sdk A) :
  (forall st, world sdk (snd (m st)) = world sdk st) ->
  (forall st, log sdk (snd (m st)) = log sdk st) ->
  effect sdk (submits sdk pEnc srcIn layout pixels) m.
Proof. apply chains_same. Qed.

(** The flush. *)
Lemma submits_flush :
  effect sdk (submits sdk pEnc srcIn layout pixels) (EndEncode sdk pEnc).
Proof.
  unfold EndEncode. apply chains_foreign.
  - intros w HI. now rewrite Hend.
  - intros w r _ C. discriminate C.
  - intros w r [C _]. discriminate C.
Qed.

(** The submission of a frame. *)
Lemma submits_frame :
  effect sdk (submits sdk pEnc srcIn layout pixels)
    (bind sdk (GetNextInputFrame sdk pEnc) (fun encoderInputFrame =>
     bind sdk (gets sdk (Sdk.GetEncodeWidth sdk pEnc)) (fun width =>
     bind sdk (gets sdk (Sdk.GetEncodeHeight sdk pEnc)) (fun height =>
     bind sdk
       (CopyToDeviceFrame sdk cuContext (data srcIn) 0
          (inputPtr encoderInputFrame) (wrap32 (pitch encoderInputFrame))
          width height CU_MEMORYTYPE_HOST (bufferFormat encoderInputFrame)
          (chromaOffsets encoderInputFrame)
          (numChromaPlanes encoderInputFrame))
       (fun _ => EncodeFrame sdk pEnc))))).
Proof.
  intros st HI. unfold GetNextInputFrame, CopyToDeviceFrame, EncodeFrame.
  rewrite foreign_bind_run.
  pose proof (Hget (world sdk st)) as G.
  destruct (Sdk.GetNextInputFrame sdk pEnc (world sdk st))
    as [frame w1|what w1] eqn:E; cbn [after] in G.
  - assert (N : inputPtr frame <> data srcIn) by (now apply (Hframe _ _ _ E)).
    assert (I1 : Sdk.devmem sdk w1 (data srcIn) = pixels) by congruence.
    match goal with
    | |- context [bind sdk (gets sdk ?f) ?k ?s] =>
        change (bind sdk (gets sdk f) k s) with (k (f (world sdk s)) s)
    end.
    cbv beta.
    match goal with
    | |- context [bind sdk (gets sdk ?f) ?k ?s] =>
        change (bind sdk (gets sdk f) k s) with (k (f (world sdk s)) s)
    end.
    cbv beta. cbn [world]. rewrite foreign_bind_run.
    cbn [world cout fpOut log].
    destruct (Hcopy (inputPtr frame) (wrap32 (pitch frame))
                (Sdk.GetEncodeWidth sdk pEnc w1)
                (Sdk.GetEncodeHeight sdk pEnc w1) (bufferFormat frame)
                (chromaOffsets frame) (numChromaPlanes frame) w1 N)
      as [K1 K2].
    destruct (Sdk.CopyToDeviceFrame sdk _ _ _ _ _ _ _ _ _ _ _ w1)
      as [[] w2|what w2] eqn:C; cbn [after] in K1.
    + assert (I2 : Sdk.devmem sdk w2 (data srcIn) = pixels) by congruence.
      specialize (K2 tt w2 eq_refl). rewrite I1 in K2.
      match goal with
      | |- context [snd (foreign sdk ?c ?a ?f ?s)] =>
          destruct (foreign_state sdk c a f s) as [r [S _]]; rewrite S
      end.
      cbn [world cout fpOut log]. split; [now rewrite Henc|].
      eexists [_; _; _].
      split; [rewrite <- !app_assoc; reflexivity|]. split; [|split].
      * constructor; [intro X; discriminate X|].
        constructor; [intros _; now split|].
        constructor; [intro X; discriminate X | constructor].
      * cbn [pairwise]. split; [intros [X _]; discriminate X|].
        split; [|now split].
        intros _ ctx src sp dst dp w h mt fmt offs planes X _.
        cbn in X. inversion X. subst. now split.
      * intros l e X.
        match type of X with
        | [?e1; ?e2; ?e3] = _ =>
            apply (app_inj_tail [e1; e2] l e3 e) in X
        end.
        destruct X as [_ <-]. intros [X _]. discriminate X.
    + cbn [snd world log]. split; [congruence|].
      eexists [_; _].
      split; [rewrite <- !app_assoc; reflexivity|]. split; [|split].
      * constructor; [intro X; discriminate X|].
        constructor; [intros _; now split | constructor].
      * cbn [pairwise]. split; [intros [X _]; discriminate X | now split].
      * intros l e X.
        match type of X with
        | [?e1; ?e2] = _ => apply (app_inj_tail [e1] l e2 e) in X
        end.
        destruct X as [_ <-]. intros [_ X]. discriminate X.
  - cbn [snd world log]. split; [congruence|].
    eexists [_]. split; [reflexivity|]. split; [|split].
    + constructor; [intro X; discriminate X | constructor].
    + now split.
    + intros l e X.
      match type of X with
      | [?e1] = _ => apply (app_inj_tail [] l e1 e) in X
      end.
      destruct X as [_ <-]. intros [X _]. discriminate X.
Qed.

Lemma encode_step_submits nFrameSize i nFrame :
  effect sdk (submits sdk pEnc srcIn layout pixels)
    (encode_step sdk pEnc cuContext srcIn nFrameSize i nFrame).
Proof.
  unfold encode_step. cbv zeta. effect_seq.
  - destruct (Z.ltb i last_frame); [apply submits_frame | apply submits_flush].
  - effect_seq; [|effect_done].
    unfold write_packets. effect_loop. now apply submits_same.
Qed.

Lemma encode_loop_submits nFrameSize nFrame :
  effect sdk (submits sdk pEnc srcIn layout pixels)
    (encode_loop sdk pEnc cuContext srcIn nFrameSize nFrame).
Proof. unfold encode_loop. effect_loop. apply encode_step_submits. Qed.

End Image.

Section Loop.

Variable sdk : Sdk.t.

Lemma encode_loop_fills pEnc cuContext srcIn nFrameSize nFrame :
  effect sdk (fills sdk cuContext srcIn)
    (encode_loop sdk pEnc cuContext srcIn nFrameSize nFrame).
Proof. unfold encode_loop. effect_loop. apply encode_step_fills. Qed.

(** The packets are asked for on [pEnc], in a loop that returns 375 times
    after a copy. *)
Lemma carries_of_chain pEnc layout pixels (l : list (Entry sdk)) :
  pairwise sdk
    (fun e1 e2 => copied sdk e1 -> carries sdk pEnc layout pixels e1 e2) l ->
  pairwise sdk (carries sdk pEnc layout pixels) l.
Proof.
  apply pairwise_impl. intros e1 e2 H ctx src sp dst dp w h mt fmt offs planes
    C R.
  apply (H (conj (f_equal is_CopyToDeviceFrame C) R) _ _ _ _ _ _ _ _ _ _ _ C R).
Qed.

End Loop.

End ImageFacts.

(** ** The world of the examples *)

Module MockFacts.
Import CLib App Hoare Trace.
Local Open Scope list_scope.

Lemma peek_poke_same (m : Mock.Memory) (p : pointer) (bytes : list byte) :
  Mock.peek (Mock.poke m p bytes) p = bytes.
Proof.
  induction m as [|[q old] m IH]; simpl.
  - now rewrite Z.eqb_refl.
  - destruct (Z.eqb_spec q p) as [->|N]; simpl.
    + now rewrite Z.eqb_refl.
    + destruct (Z.eqb_spec q p) as [E|_]; [now elim N | exact IH].
Qed.

Lemma peek_poke_other (m : Mock.Memory) (p q : pointer) (bytes : list byte) :
  p <> q -> Mock.peek (Mock.poke m p bytes) q = Mock.peek m q.
Proof.
  intro N. induction m as [|[r old] m IH]; simpl.
  - destruct (Z.eqb_spec p q) as [E|_]; [now elim N | reflexivity].
  - destruct (Z.eqb_spec r p) as [->|Nr]; simpl.
    + destruct (Z.eqb_spec p q) as [E|_]; [now elim N | reflexivity].
    + destruct (Z.eqb_spec r q); [reflexivity | exact IH].
Qed.

(** In the world of the examples a copy lands in its destination as it
    is. *)
Lemma mock_copies_through (ctx : CUcontext) (src : pointer) :
  copies_through Mock.sdk ctx src verbatim.
Proof.
  intros dst dstPitch w h fmt offs planes world N. cbv zeta. split.
  - simpl. unfold Mock.devmem. simpl. now apply peek_poke_other.
  - intros u world' E. simpl in E. inversion E. subst world'.
    unfold verbatim. simpl. unfold Mock.devmem. simpl.
    apply peek_poke_same.
Qed.

Lemma mock_frames_apart (enc : pointer) : frames_apart Mock.sdk enc 300.
Proof.
  intros w frame w' E. cbn [Sdk.GetNextInputFrame Mock.sdk] in E.
  unfold Mock.GetNextInputFrame in E.
  apply (f_equal (fun r => match r with
                           | Ret f _ => inputPtr f
                           | Thr _ _ => 0
                           end)) in E.
  cbn [inputPtr] in E. rewrite <- E. unfold pointer. lia.
Qed.

Lemma mock_leaves_GetNextInputFrame (enc p : pointer) :
  leaves Mock.sdk p (Sdk.GetNextInputFrame Mock.sdk enc).
Proof. intro w. reflexivity. Qed.

Lemma mock_leaves_EncodeFrame (enc p : pointer) :
  leaves Mock.sdk p (Sdk.EncodeFrame Mock.sdk enc).
Proof.
  intro w. simpl. unfold Mock.EncodeFrame.
  now destruct (Nat.ltb (Mock.frames_in w) Mock.delay).
Qed.

Lemma mock_leaves_EndEncode (enc p : pointer) :
  leaves Mock.sdk p (Sdk.EndEncode Mock.sdk enc).
Proof. intro w. reflexivity. Qed.

End MockFacts.

(** ** The results of the CUDA driver *)

Module CheckFacts.
Import CLib App Hoare Trace MonadFacts ParseFacts EncodeFacts MainFacts
  TraceFacts OutcomeFacts LoopFacts TryFacts FrameFacts RaiseFacts RunFacts
  ChainFacts.
Local Open Scope list_scope.

Section Checks.

Variable sdk : Sdk.t.

#[export] Instance checks_PreOrder : PreOrder (checks sdk).
Proof. unfold checks. exact _. Qed.

Lemma checks_same {A} (m : M sdk A) :
  (forall st, world sdk (snd (m st)) = world sdk st) ->
  (forall st, log sdk (snd (m st)) = log sdk st) ->
  effect sdk (checks sdk) m.
Proof. apply chains_same. Qed.

(** A call of another library. *)
Lemma checks_foreign {A} c ans (f : Sdk.World sdk -> ext A (Sdk.World sdk)) :
  (forall w, driver_result sdk c w = None) ->
  effect sdk (checks sdk) (foreign sdk c ans f).
Proof.
  intro N. apply chains_foreign; [now intros | now intros|].
  intros w r D. now apply D.
Qed.

(** A call of the driver, with [ck] next. *)
Lemma checks_driver {A B} c (f : Sdk.World sdk -> A * Sdk.World sdk)
    (res : A -> CUresult) (k : A -> M sdk B) :
  (forall w, driver_result sdk c w = Some (res (fst (f w)), snd (f w))) ->
  (forall a, effect sdk (checks sdk) (k a)) ->
  (forall a, begins sdk (ck_ (res a)) (k a)) ->
  effect sdk (checks sdk) (bind sdk (foreign_c sdk c f) k).
Proof.
  intros D Hk Hb.
  apply (chains_open sdk _ _ _ _ c f (fun a => ck_ (res a)) k);
    try assumption; try (now intros).
  intros w answer r w' E. cbn [call_of world_of fst snd] in E.
  rewrite D in E. inversion E. now split.
Qed.

Lemma grows_any {A} (m : M sdk A) :
  effect sdk (checks sdk) m -> effect sdk (grows sdk (fun _ => True)) m.
Proof. apply chains_grows. now intros. Qed.

Lemma begins_ck {B} r (k : unit -> M sdk B) :
  (forall u, effect sdk (checks sdk) (k u)) ->
  begins sdk (ck_ r) (bind sdk (ck sdk r) k).
Proof.
  intro H. unfold ck. apply begins_bind. intro u. now apply grows_any.
Qed.

Lemma begins_ck_last r : begins sdk (ck_ r) (ck sdk r).
Proof. unfold ck. apply begins_foreign. Qed.

Lemma checks_ck r : effect sdk (checks sdk) (ck sdk r).
Proof. unfold ck. now apply checks_foreign. Qed.

End Checks.

(** A walk through the calls of a computation: a call of the driver is
    taken together with the [ck] that follows it. *)
Ltac check_walk :=
  cbv beta iota zeta;
  lazymatch goal with
  | |- effect _ _ (bind _ (foreign_c _ (ofstream_open_ _) _) _) =>
      unfold foreign_c at 1; effect_seq;
      [apply checks_foreign; now intros | check_walk]
  | |- effect _ _ (bind _ (foreign_c _ _ _) _) =>
      first [ apply checks_driver with (res := fun r : CUresult => r)
            | apply checks_driver with (res := fst) ];
      [ intro w; cbn;
        repeat match goal with
               | |- context [let '(_, _) := ?x in _] => destruct x
               end;
        try reflexivity;
        match goal with
        | |- context [fst ?x] => destruct x; reflexivity
        end
      | let a := fresh "a" in
        intro a; try (destruct a as [? ?]); check_walk
      | let a := fresh "a" in
        intro a; try (destruct a as [? ?]); cbv beta iota; cbn [fst];
        first [ apply begins_ck_last
              | apply begins_ck; intro; check_walk ] ]
  | |- effect _ _ (bind _ _ _) => effect_seq; check_walk
  | |- effect _ _ (for_each _ _ _ _) => effect_loop; check_walk
  | |- effect _ _ (foreign _ _ _ _) => apply checks_foreign; now intros
  | |- effect _ _ (ck _ _) => apply checks_ck
  | |- effect _ _ (ret _ _) => effect_done
  | |- effect _ _ (throw _ _) => effect_done
  | |- effect _ _ (exit _ _) => effect_done
  | |- effect _ _ (gets _ _) => effect_done
  | |- effect _ _ (print _ _) => apply checks_same; reflexivity
  | |- effect _ _ (fpOut_write _ _) => apply checks_same; reflexivity
  | |- effect _ _ (fpOut_good _) => apply checks_same; reflexivity
  | |- effect _ _ (if ?b then _ else _) => destruct b; check_walk
  | |- effect _ _ (let '(_, _) := ?x in _) => destruct x; check_walk
  | |- _ => idtac
  end.

(** The program's functions, down to the calls; the calls of the driver
    and [ck] are left as they are. *)
Ltac unfold_checked :=
  unfold EncodeCuda, InitializeEncoder, encode_loop, encode_step,
    write_packets, main_load, main_device, show_cap, show_WxH;
  unfold cuInit, cuDeviceGetCount, cuDeviceGet, cuDeviceGetName, cuCtxCreate,
    cuCtxDestroy, ValidateResolution, imread, upload, cvtColor, download,
    NvEncoderInitParam_default, NvEncoderInitParam, NvEncoderCuda,
    GetCapabilityValue, CreateDefaultEncoderParams, SetInitParams,
    CreateEncoder, GetNextInputFrame, CopyToDeviceFrame, EncodeFrame,
    EndEncode, DestroyEncoder.

Section Runs.

Variable sdk : Sdk.t.

Lemma main_load_checks l : effect sdk (checks sdk) (main_load sdk l).
Proof. unfold_checked. check_walk. Qed.

Lemma main_device_checks iGpu :
  effect sdk (checks sdk) (main_device sdk iGpu).
Proof. unfold_checked. check_walk. Qed.

Lemma EncodeCuda_checks nWidth nHeight encodeCLIOptions cuContext srcIn :
  effect sdk (checks sdk)
    (EncodeCuda sdk nWidth nHeight encodeCLIOptions cuContext srcIn).
Proof. unfold_checked. check_walk. Qed.

Lemma ShowEncoderCapability_checks :
  effect sdk (checks sdk) (ShowEncoderCapability sdk).
Proof. unfold ShowEncoderCapability. unfold_checked. check_walk. Qed.

Lemma ShowHelpAndExit_checks {A} szBadOption :
  effect sdk (checks sdk) (@ShowHelpAndExit sdk A szBadOption).
Proof.
  unfold ShowHelpAndExit. unfold_checked. cbv zeta.
  effect_seq; [apply checks_foreign; now intros|].
  destruct szBadOption; [effect_done|].
  effect_seq; [apply checks_same; reflexivity|].
  effect_seq; [apply ShowEncoderCapability_checks | effect_done].
Qed.

Lemma parse_args_checks args o oss :
  effect sdk (checks sdk) (parse_args sdk args o oss).
Proof.
  destruct (parse_args_cases sdk args o oss) as [(o' & oss' & E)|[sb E]];
    rewrite E; [effect_done | apply ShowHelpAndExit_checks].
Qed.

Lemma main_encode_checks x : effect sdk (checks sdk) (main_encode sdk x).
Proof.
  unfold main_encode, main_output, ofstream_open. cbv zeta.
  destruct (out_of_range _ _); [check_walk|].
  effect_seq; [apply main_device_checks|].
  effect_seq.
  - check_walk. apply checks_same; reflexivity.
  - effect_seq; [apply checks_same; reflexivity|].
    destruct a1; cbn [negb]; [|effect_done].
    effect_seq; [apply EncodeCuda_checks|]. check_walk.
Qed.

(** In the [try] block every result of the driver is handed to [ck] by
    the next call. *)
Lemma main_try_checks argv : effect sdk (checks sdk) (main_try sdk argv).
Proof.
  unfold main_try, main_parse, ParseCommandLine. cbv zeta.
  effect_seq.
  - effect_seq; [unfold_checked; check_walk|].
    effect_seq.
    + effect_seq; [apply parse_args_checks|]. unfold_checked. check_walk.
    + check_walk.
  - effect_seq; [apply main_load_checks | apply main_encode_checks].
Qed.

End Runs.

End CheckFacts.

(** ** Paths, the device and the messages *)

Module ReportFacts.
Import CLib App Hoare Trace MonadFacts ParseFacts EncodeFacts MainFacts
  TraceFacts OutcomeFacts LoopFacts TryFacts FrameFacts.
Local Open Scope list_scope.

(** A flag stores a path only from its value. *)
Lemma sets_fits a v o o1 :
  sets a v o o1 -> fits v ->
  fits (szInputFileName o) /\ fits (szOutputFileName o) ->
  fits (szInputFileName o1) /\ fits (szOutputFileName o1).
Proof.
  intros S V [Hi Ho]. destruct S; cbn; now split.
Qed.

(** On a command line whose arguments fit, the paths the loop stores fit
    the arrays of [main]. *)
Lemma parses_fits args o oss o' oss' :
  parses args o oss o' oss' -> Forall fits args ->
  fits (szInputFileName o) /\ fits (szOutputFileName o) ->
  fits (szInputFileName o') /\ fits (szOutputFileName o').
Proof.
  induction 1 as [o oss|a v rest o o1 oss o' oss' S _ IH
                  |a rest o oss o' oss' N D _ IH]; intros F H.
  - exact H.
  - inversion F as [|? ? _ F1]. subst. inversion F1 as [|? ? Fv F2]. subst.
    apply IH; [exact F2|]. now apply (sets_fits a v o).
  - inversion F as [|? ? _ F1]. subst.
    apply IH; [now apply Forall_after_values | exact H].
Qed.

Lemma initial_opts_fit :
  fits (szInputFileName initial_opts) /\ fits (szOutputFileName initial_opts).
Proof. unfold fits, PATH_SIZE. simpl. lia. Qed.

Section Report.

Variable sdk : Sdk.t.

(** The device is looked up, named and given a context: the calls, the
    device and the name, and the line that is printed. *)
Lemma main_device_returns iGpu st c st' :
  main_device sdk iGpu st = (Val c, st') ->
  exists dev name new,
    log sdk st' = log sdk st ++ new /\
    Exists (looked_up sdk iGpu dev) new /\
    Exists (named sdk dev name) new /\
    emitted sdk new = [] /\
    fpOut sdk st' = fpOut sdk st /\
    cout sdk st' = (cout sdk st ++ ("GPU in use: " ++ name ++ endl))%string.
Proof.
  unfold main_device. cbv zeta. unfold cuDeviceGet at 1.
  rewrite foreign_c_bind_run. cbv beta.
  destruct (Sdk.cuDeviceGet sdk iGpu (world sdk st)) as [[r1 d] w1] eqn:E1.
  cbn [fst snd]. unfold ck at 1. rewrite foreign_bind_run.
  cbn [world cout fpOut log].
  destruct (Sdk.ck sdk r1 w1) as [u1 w2|what w2]; [|discriminate].
  unfold cuDeviceGetName at 1. rewrite foreign_c_bind_run. cbv beta.
  cbn [world cout fpOut log].
  destruct (Sdk.cuDeviceGetName sdk 80 (stored 0 d) w2) as [[r2 name] w3]
    eqn:E2.
  cbn [fst snd]. unfold ck at 1. rewrite foreign_bind_run.
  cbn [world cout fpOut log].
  destruct (Sdk.ck sdk r2 w3) as [u2 w4|what w4]; [|discriminate].
  unfold bind at 1. unfold print at 1. cbn [world cout fpOut log].
  unfold cuCtxCreate at 1. rewrite foreign_c_bind_run. cbv beta.
  cbn [world cout fpOut log].
  destruct (Sdk.cuCtxCreate sdk 0 (stored 0 d) w4) as [[r3 ctx] w5] eqn:E3.
  cbn [fst snd]. unfold ck at 1. rewrite foreign_bind_run.
  cbn [world cout fpOut log].
  destruct (Sdk.ck sdk r3 w5) as [u3 w6|what w6]; [|discriminate].
  unfold ret. intro H. inversion H. subst c st'. clear H.
  cbn [log cout fpOut].
  exists (stored 0 d), name. eexists.
  split; [rewrite <- !app_assoc; cbn [app]; reflexivity|].
  split.
  { apply Exists_cons_hd. split; [reflexivity|].
    cbn [world_of fst snd]. now rewrite E1. }
  split.
  { apply Exists_cons_tl. apply Exists_cons_tl. apply Exists_cons_hd.
    split; [reflexivity|]. cbn [world_of fst snd]. now rewrite E2. }
  now repeat split.
Qed.

(** The command line [main_parse] got through. *)
Lemma main_parse_parses argv st l st' :
  main_parse sdk argv st = (Val l, st') ->
  exists oss, parses (tl argv) initial_opts EmptyString (opts sdk l) oss.
Proof.
  unfold main_parse. cbv zeta. intro H.
  apply bind_inv in H. destruct H as (e0 & s0 & _ & H).
  apply bind_inv in H. destruct H as ([o e] & s1 & G & H).
  apply ParseCommandLine_returns in G. destruct G as (oss & P & _).
  unfold ret in H. inversion H. subst. now exists oss.
Qed.

End Report.

End ReportFacts.

(** ** The encoding loop: what the specification says of it *)

Module Encoding.
Import CLib App Hoare Trace MonadFacts EncodeFacts MainFacts FrameFacts
  RaiseFacts ChainFacts ImageFacts MockFacts.
Local Open Scope list_scope.

(** C1. A run of [EncodeCuda] that returns has made, after setting the
    encoder up, exactly 375 frame submissions (next input frame, copy,
    [EncodeFrame]), then exactly one flush ([EndEncode]), in that order; no
    call of a submission comes after the flush, only [DestroyEncoder]. The
    loop index runs over 0 to 375; it submits below 375 and flushes at 375. *)
Theorem encode_call_sequence (sdk : Sdk.t) nWidth nHeight encodeCLIOptions
    cuContext srcIn (st st' : St sdk) :
  EncodeCuda sdk nWidth nHeight encodeCLIOptions cuContext srcIn st
  = (Val tt, st') ->
  let ks := kinds sdk (added sdk (log sdk st) (log sdk st')) in
  log sdk st' = log sdk st ++ added sdk (log sdk st) (log sdk st') /\
  ks = [K_NvEncoderCuda; K_CreateDefaultEncoderParams; K_SetInitParams;
        K_CreateEncoder]
       ++ submissions 375 ++ [K_EndEncode] ++ [K_DestroyEncoder] /\
  count_occ Kind_eq_dec ks K_GetNextInputFrame = 375%nat /\
  count_occ Kind_eq_dec ks K_CopyToDeviceFrame = 375%nat /\
  count_occ Kind_eq_dec ks K_EncodeFrame = 375%nat /\
  count_occ Kind_eq_dec ks K_EndEncode = 1%nat /\
  flush_is_last ks = true /\
  range (last_frame + 1) = map Z.of_nat (seq 0 375) ++ [375] /\
  forallb (fun i => Z.ltb i last_frame) (map Z.of_nat (seq 0 375)) = true /\
  Z.ltb 375 last_frame = false.
Proof.
  intro H. apply EncodeCuda_returns in H.
  destruct H as (new & L & K & _). intro ks. subst ks.
  rewrite L, added_app, K.
  repeat split; vm_compute; reflexivity.
Qed.

Lemma encode_call_sequence_witness :
  let st := Mock.opened in
  let st' :=
    snd (EncodeCuda Mock.sdk 1920 1080 EmptyString 7 Mock.srcIn st) in
  kinds Mock.sdk (added Mock.sdk (log Mock.sdk st) (log Mock.sdk st'))
  = EncodeCuda_calls.
Proof.
  intros st st'.
  apply (encode_call_sequence Mock.sdk 1920 1080 EmptyString 7 Mock.srcIn
           st st').
  apply run_pair. vm_compute. reflexivity.
Defined.

(** C2. Whatever the encoder does, an open stream receives every packet the
    encoder returned, once, in the order of the calls and, within a call, of
    the vector: the file grows by the concatenation of the packets. From the
    opening of the output file on, the file holds exactly those packets. *)
Theorem packets_written_in_order (sdk : Sdk.t) :
  (forall nWidth nHeight encodeCLIOptions cuContext srcIn (st : St sdk),
     good (fpOut sdk st) = true ->
     let st' :=
       snd (EncodeCuda sdk nWidth nHeight encodeCLIOptions cuContext srcIn st)
     in
     let packets :=
       List.concat (emitted sdk (added sdk (log sdk st) (log sdk st'))) in
     log sdk st' = log sdk st ++ added sdk (log sdk st) (log sdk st') /\
     written (fpOut sdk st') = written (fpOut sdk st) ++ packets /\
     contents (fpOut sdk st') = contents (fpOut sdk st) ++ List.concat packets)
  /\
  (forall x cuContext (st : St sdk),
     let st' := snd (main_output sdk x cuContext st) in
     let packets :=
       List.concat (emitted sdk (added sdk (log sdk st) (log sdk st'))) in
     log sdk st' = log sdk st ++ added sdk (log sdk st) (log sdk st') /\
     written (fpOut sdk st') = packets /\
     contents (fpOut sdk st') = List.concat packets).
Proof.
  split.
  - intros nWidth nHeight encodeCLIOptions cuContext srcIn st G st' packets.
    subst packets.
    destruct (drains_EncodeCuda sdk nWidth nHeight encodeCLIOptions cuContext
                srcIn st G) as [_ [new [L W]]].
    fold st' in L, W. rewrite L, added_app. repeat split.
    + exact W.
    + unfold contents. now rewrite W, concat_app.
  - intros x cuContext st st' packets. subst packets.
    destruct (main_output_drains sdk x cuContext st) as [new [L W]].
    fold st' in L, W. rewrite L, added_app. repeat split.
    + exact W.
    + unfold contents. now rewrite W.
Qed.

Lemma packets_written_in_order_witness :
  let st' := snd (main_output Mock.sdk Mock.loaded 7 (start Mock.sdk Mock.one_gpu)) in
  written (fpOut Mock.sdk st') = repeat Mock.a_packet 375.
Proof.
  intro st'.
  destruct (proj2 (packets_written_in_order Mock.sdk) Mock.loaded 7
              (start Mock.sdk Mock.one_gpu)) as [_ [W _]].
  fold st' in W. rewrite W. vm_compute. reflexivity.
Defined.

Lemma concat_nonempty_inv {A} (l : list (list A)) :
  List.concat l <> [] -> exists p, In p l /\ p <> [].
Proof.
  induction l as [|q l IH]; simpl; intro H.
  - now elim H.
  - destruct q as [|a q].
    + destruct (IH H) as (p & I & N). exists p. split; [now right | exact N].
    + exists (a :: q). split; [now left | discriminate].
Qed.

(** C3, as amended. In a run that opens the output file and gets through
    the encoding, the file holds the bytes of the packets the encoder
    returned, so it is not empty exactly when one of these packets is not
    empty; the program does not look at what it got. The packets written
    are those of the 375 submissions and those of the flush, and the count
    printed after [Total frames encoded:] is that number of packets, as long
    as the [int] that counts them does not overflow. *)
Theorem packet_count_printed (sdk : Sdk.t) x cuContext (st st' : St sdk) :
  main_output sdk x cuContext st = (Val None, st') ->
  let vectors := emitted sdk (added sdk (log sdk st) (log sdk st')) in
  Z.of_nat (List.length (List.concat vectors)) <= INT_MAX ->
  contents (fpOut sdk st') = List.concat (List.concat vectors) /\
  (contents (fpOut sdk st') <> [] <->
   exists p, In p (List.concat vectors) /\ p <> []) /\
  List.length vectors = 376%nat /\
  List.length (written (fpOut sdk st'))
  = (List.length (List.concat (firstn 375 vectors))
     + List.length (nth 375 vectors []))%nat /\
  cout sdk st'
  = ((cout sdk st
      ++ ("Total frames encoded: "
          ++ string_of_int (Z.of_nat (List.length (written (fpOut sdk st'))))
          ++ endl))
     ++ ("Bitstream saved in file "
         ++ szOutputFileName (opts sdk (locals sdk x)) ++ endl))%string.
Proof.
  intros H vectors Hmax.
  apply main_output_returns in H.
  destruct H as (w & st2 & _ & H & _ & ->).
  apply EncodeCuda_count in H; [|reflexivity..].
  destruct H as (new & L & _ & W & E & C).
  cbn [log cout fpOut] in *.
  assert (V : vectors = emitted sdk new).
  { unfold vectors. cbn [log]. rewrite L, <- app_assoc, added_app.
    reflexivity. }
  rewrite <- V in W, E, C. unfold contents. rewrite W.
  split; [reflexivity|]. split; [|split; [|split]].
  - split.
    + apply concat_nonempty_inv.
    + intros (p & Hin & Hp). now apply (concat_nonempty _ p).
  - exact E.
  - rewrite (split_last vectors 375 [] E) at 1.
    rewrite concat_app, length_app. simpl. now rewrite app_nil_r.
  - rewrite (C Hmax). reflexivity.
Qed.

Lemma packet_count_printed_witness :
  let st' := snd (main_output Mock.sdk Mock.loaded 7 (start Mock.sdk Mock.one_gpu)) in
  contents (fpOut Mock.sdk st') <> [] /\
  List.length (written (fpOut Mock.sdk st')) = 375%nat /\
  cout Mock.sdk st'
  = ("Total frames encoded: 375" ++ endl
     ++ "Bitstream saved in file video.h264" ++ endl)%string.
Proof.
  intro st'.
  assert (H : main_output Mock.sdk Mock.loaded 7 (start Mock.sdk Mock.one_gpu)
              = (Val None, st'))
    by (apply run_pair; vm_compute; reflexivity).
  destruct (packet_count_printed Mock.sdk Mock.loaded 7
              (start Mock.sdk Mock.one_gpu) st' H) as (_ & N & _ & K & C).
  - vm_compute. discriminate.
  - split; [|split].
    + apply N. exists Mock.a_packet. split; [|discriminate].
      apply (nth_error_In _ 0). vm_compute. reflexivity.
    + rewrite K. vm_compute. reflexivity.
    + rewrite C. vm_compute. reflexivity.
Defined.

(** C3 as stated fails: with an encoder that returns no packet the run
    gets through the loop and ends with status 0, and the output file is
    empty. The count printed is 0. *)
Lemma empty_file_on_success :
  let x :=
    mkLoaded Mock.silent
      (mkLocals Mock.silent
         (mkOpts "path_to_image.jpg" 1920 1080 NV_ENC_BUFFER_FORMAT_IYUV
            "video.h264" 0 (-1))
         EmptyString false)
      Mock.srcIn 1 in
  let run := main Mock.silent Mock.usage (start Mock.silent Mock.one_gpu) in
  ~ (forall (sdk : Sdk.t) x cuContext (st st' : St sdk),
       main_output sdk x cuContext st = (Val None, st') ->
       contents (fpOut sdk st') <> []) /\
  fst (main_output Mock.silent x 7 (start Mock.silent Mock.one_gpu))
  = Val None /\
  contents
    (fpOut Mock.silent
       (snd (main_output Mock.silent x 7 (start Mock.silent Mock.one_gpu))))
  = [] /\
  fst run = 0 /\
  contents (fpOut Mock.silent (snd run)) = [] /\
  good (fpOut Mock.silent (snd run)) = true /\
  count_occ Kind_eq_dec (kinds Mock.silent (log Mock.silent (snd run)))
    K_EncodeFrame = 375%nat /\
  cout Mock.silent (snd run)
  = ("GPU in use: Mock GPU" ++ endl
     ++ "Total frames encoded: 0" ++ endl
     ++ "Bitstream saved in file video.h264" ++ endl)%string.
Proof.
  intros x run. split; [|repeat split; vm_compute; reflexivity].
  intro H.
  apply (H Mock.silent x 7 (start Mock.silent Mock.one_gpu)
           (snd (main_output Mock.silent x 7
                   (start Mock.silent Mock.one_gpu)))).
  - apply run_pair. vm_compute. reflexivity.
  - vm_compute. reflexivity.
Qed.



End Encoding.

(** ** The command line: what the specification says of it *)

Module CommandLine.
Import CLib App Hoare Trace MonadFacts ParseFacts EncodeFacts MainFacts
  TryFacts RunFacts.
Local Open Scope list_scope.

(** C4, as amended. The encoder that encodes is always constructed and
    initialised with [NV_ENC_BUFFER_FORMAT_ABGR]: [EncodeCuda] takes no
    format, and the value [-if] left in [eFormat] (or its default) makes no
    difference to what [main] does once the command line is read. In every
    run of the program, whatever the command line, every encoder is
    constructed and initialised with ABGR, unless the run ends in the help:
    then it makes no call but those of the help, and the only encoders are
    the probes of the capability report, 1280 by 720 in NV12, which are not
    initialised. *)
Theorem session_format_fixed (sdk : Sdk.t) :
  (forall nWidth nHeight encodeCLIOptions cuContext srcIn st,
     grows sdk (with_format sdk NV_ENC_BUFFER_FORMAT_ABGR) st
       (snd (EncodeCuda sdk nWidth nHeight encodeCLIOptions cuContext srcIn
               st))) /\
  (forall x st,
     grows sdk (with_format sdk NV_ENC_BUFFER_FORMAT_ABGR) st
       (snd (main_encode sdk x st))) /\
  (forall x f,
     main_encode sdk
       (mkLoaded sdk
          (mkLocals sdk (set_eFormat f (opts sdk (locals sdk x)))
             (encodeCLIOptions sdk (locals sdk x))
             (bOutputInVideoMem sdk (locals sdk x)))
          (srcImgDevice sdk x) (nGpu sdk x))
     = main_encode sdk x) /\
  (forall argv st,
     exists new,
       log sdk (snd (main sdk argv st)) = log sdk st ++ new /\
       (Forall (with_format sdk NV_ENC_BUFFER_FORMAT_ABGR) new \/
        (Forall (help_call sdk) new /\ Forall (probe_only sdk) new /\
         forall r, fst (main_try sdk argv st) <> Val r))).
Proof.
  split; [|split; [|split]].
  - intros. apply keeps_grows. apply EncodeCuda_format.
  - intros. apply keeps_grows. apply main_encode_format.
  - reflexivity.
  - intros argv st. destruct (main_state sdk argv st) as [_ ->].
    apply main_try_formats.
Qed.

(** C4 as stated fails: with [-if nv12] the command line leaves NV12 in
    [eFormat], and without [-if] it leaves IYUV there, yet the encoder is
    constructed and initialised with ABGR and the run succeeds. *)
Lemma session_format_ignores_if :
  ~ Forall
      (fun f =>
         option_map eFormat (Mock.parsed (Mock.usage ++ ["-if"; "nv12"]))
         = Some f)
      (Mock.formats
         (snd (Mock.run (Mock.usage ++ ["-if"; "nv12"]) Mock.one_gpu))) /\
  option_map eFormat (Mock.parsed (Mock.usage ++ ["-if"; "nv12"]))
  = Some NV_ENC_BUFFER_FORMAT_NV12 /\
  Mock.formats (snd (Mock.run (Mock.usage ++ ["-if"; "nv12"]) Mock.one_gpu))
  = [NV_ENC_BUFFER_FORMAT_ABGR; NV_ENC_BUFFER_FORMAT_ABGR] /\
  fst (Mock.run (Mock.usage ++ ["-if"; "nv12"]) Mock.one_gpu) = 0 /\
  option_map eFormat (Mock.parsed Mock.usage)
  = Some NV_ENC_BUFFER_FORMAT_IYUV /\
  Mock.formats (snd (Mock.run Mock.usage Mock.one_gpu))
  = [NV_ENC_BUFFER_FORMAT_ABGR; NV_ENC_BUFFER_FORMAT_ABGR].
Proof.
  split; [|repeat split; vm_compute; reflexivity].
  intro F. vm_compute in F. inversion F as [|f fs Hf _]. discriminate Hf.
Qed.

(** C5, as amended. A well-formed [-s WxH] is read into [nWidth] and
    [nHeight], but it is no override: loading the image overwrites both
    with the columns and rows of the image, so that what [-s] gave makes no
    difference to the loading and to what follows it. In every run of the
    program, whatever the command line, every encoder is constructed with
    the columns and rows of the image [imread] returned, unless the run ends
    in the help: then the only encoders are the probes of the capability
    report, 1280 by 720. *)
Theorem size_from_image (sdk : Sdk.t) (l : Locals sdk) (st : St sdk)
    (x : Loaded sdk) (st' : St sdk) :
  main_load sdk l st = (Val x, st') ->
  (forall a v rest o oss w h,
     is_flag a "-s" = true -> sscanf_dxd v = (2, Some w, Some h) ->
     parse_args sdk (a :: v :: rest) o oss
     = parse_args sdk rest (set_size w h o) oss) /\
  (forall l0 w h,
     main_load sdk
       (mkLocals sdk (set_size w h (opts sdk l0)) (encodeCLIOptions sdk l0)
          (bOutputInVideoMem sdk l0))
     = main_load sdk l0) /\
  (exists m w1,
     Sdk.imread sdk (szInputFileName (opts sdk l)) (world sdk st) = Ret m w1 /\
     nWidth (opts sdk (locals sdk x)) = cols m /\
     nHeight (opts sdk (locals sdk x)) = rows m /\
     forall st1,
       grows sdk (with_size sdk (cols m) (rows m)) st1
         (snd (main_encode sdk x st1))) /\
  (forall argv st0,
     exists new,
       log sdk (snd (main sdk argv st0)) = log sdk st0 ++ new /\
       (Forall (image_sized sdk new) new \/
        (Forall (help_call sdk) new /\ Forall (probe_only sdk) new /\
         forall r, fst (main_try sdk argv st0) <> Val r))).
Proof.
  intro H. split; [|split; [|split]].
  - intros a v rest o oss w h Ha Hv. now apply parse_s.
  - reflexivity.
  - destruct (main_load_returns sdk l st x st' H) as (m & w1 & Hm & Ho & _).
    exists m, w1. rewrite Ho. repeat split; try assumption.
    intro st1. apply keeps_grows.
    assert (E : cols m = nWidth (opts sdk (locals sdk x)))
      by now rewrite Ho.
    assert (F : rows m = nHeight (opts sdk (locals sdk x)))
      by now rewrite Ho.
    rewrite E, F. apply main_encode_size.
  - intros argv st0. destruct (main_state sdk argv st0) as [_ ->].
    apply main_try_sizes.
Qed.

Lemma size_from_image_witness :
  exists x st',
    main_load Mock.sdk
      (mkLocals Mock.sdk
         (set_size 640 480 (set_szInputFileName "path_to_image.jpg" initial_opts))
         EmptyString false)
      (start Mock.sdk Mock.one_gpu)
    = (Val x, st') /\
    nWidth (opts Mock.sdk (locals Mock.sdk x)) = 1920 /\
    nHeight (opts Mock.sdk (locals Mock.sdk x)) = 1080.
Proof.
  set (l := mkLocals Mock.sdk
              (set_szInputFileName "path_to_image.jpg" initial_opts)
              EmptyString false).
  set (st := start Mock.sdk Mock.one_gpu).
  assert (R : main_load Mock.sdk l st
              = (Val (mkLoaded Mock.sdk
                        (mkLocals Mock.sdk
                           (set_size 1920 1080 (opts Mock.sdk l))
                           EmptyString false)
                        Mock.srcIn 1),
                 snd (main_load Mock.sdk l st)))
    by (apply run_pair; vm_compute; reflexivity).
  destruct (size_from_image Mock.sdk l st _ _ R) as (_ & E & _).
  eexists. eexists. split.
  - transitivity (main_load Mock.sdk l st); [|exact R].
    apply (f_equal (fun m => m st) (E l 640 480)).
  - split; reflexivity.
Defined.

(** C5 as stated fails: [-s 640x480] is a well-formed value and is read,
    yet the encoder is created with the size of the image, 1920 by 1080. *)
Lemma size_option_overridden :
  ~ Forall
      (fun s =>
         option_map (fun o => (nWidth o, nHeight o))
           (Mock.parsed (Mock.usage ++ ["-s"; "640x480"]))
         = Some s)
      (Mock.sizes
         (snd (Mock.run (Mock.usage ++ ["-s"; "640x480"]) Mock.one_gpu))) /\
  sscanf_dxd "640x480" = (2, Some 640, Some 480) /\
  option_map (fun o => (nWidth o, nHeight o))
    (Mock.parsed (Mock.usage ++ ["-s"; "640x480"]))
  = Some (640, 480) /\
  Mock.sizes (snd (Mock.run (Mock.usage ++ ["-s"; "640x480"]) Mock.one_gpu))
  = [(1920, 1080)] /\
  fst (Mock.run (Mock.usage ++ ["-s"; "640x480"]) Mock.one_gpu) = 0.
Proof.
  split; [|repeat split; vm_compute; reflexivity].
  intro F. vm_compute in F. inversion F as [|f fs Hf _]. discriminate Hf.
Qed.

(** C6, as amended. The loop has no case for [-outputInVidMem]: the flag
    and the value after it go, like any option the loop does not know, into
    the string handed to [NvEncoderInitParam]; [bOutputInVideoMem] is
    [false] after every command line, stays so, and [main] never looks at
    it. *)
Theorem vidmem_flag_forwarded (sdk : Sdk.t) (a v : string)
    (rest : list string) (o : Opts) (oss : string) :
  is_flag a "-outputInVidMem" = true ->
  no_dash v = true ->
  match rest with [] => True | b :: _ => no_dash b = false end ->
  parse_args sdk (a :: v :: rest) o oss
  = parse_args sdk rest o ((oss ++ a ++ " ") ++ v ++ " ")%string /\
  (forall argv st l st',
     main_parse sdk argv st = (Val l, st') ->
     bOutputInVideoMem sdk l = false) /\
  (forall l st x st',
     main_load sdk l st = (Val x, st') ->
     bOutputInVideoMem sdk (locals sdk x) = bOutputInVideoMem sdk l) /\
  (forall x b,
     main_encode sdk
       (mkLoaded sdk
          (mkLocals sdk (opts sdk (locals sdk x))
             (encodeCLIOptions sdk (locals sdk x)) b)
          (srcImgDevice sdk x) (nGpu sdk x))
     = main_encode sdk x).
Proof.
  intros Ha Hv Hrest. split; [|split; [|split]].
  - destruct (outputInVidMem_no_flag a Ha) as [Hn Hd].
    now apply parse_forwarded.
  - intros argv st l st'. apply main_parse_returns.
  - intros l st x st' H.
    now destruct (main_load_returns sdk l st x st' H) as (m & w & _ & _ & _ & B).
  - reflexivity.
Qed.

Lemma vidmem_flag_forwarded_witness :
  parse_args Mock.sdk ["-outputInVidMem"; "1"] initial_opts EmptyString
  = ret Mock.sdk (initial_opts, "-outputInVidMem 1 ").
Proof.
  apply (vidmem_flag_forwarded Mock.sdk "-outputInVidMem" "1" []
           initial_opts EmptyString); reflexivity.
Defined.

(** C6 as stated fails: no command line enables the mode. *)
Lemma vidmem_never_enabled :
  ~ (exists (sdk : Sdk.t) (argv : list string) (st : St sdk)
            (l : Locals sdk) (st' : St sdk),
       In "-outputInVidMem" argv /\
       main_parse sdk argv st = (Val l, st') /\
       bOutputInVideoMem sdk l = true) /\
  Mock.vidmem (Mock.usage ++ ["-outputInVidMem"; "1"]) = Some false /\
  Mock.calls
    (snd (main_parse Mock.sdk (Mock.usage ++ ["-outputInVidMem"; "1"])
            (start Mock.sdk Mock.one_gpu)))
  = [NvEncoderInitParam_default_; NvEncoderInitParam_ "-outputInVidMem 1 "].
Proof.
  split; [|split; vm_compute; reflexivity].
  intros (sdk & argv & st & l & st' & _ & H & B).
  apply MainFacts.main_parse_returns in H. congruence.
Qed.

(** C9, as amended. Whatever follows [-gpu], the loop raises no error for
    it and goes on with [iGpu] set to what [atoi] makes of the token. That
    is 0 when the token does not start with a number, as for [abc]. A token
    that does is white space, a sign or none, digits, and a rest that does
    not go on with a digit; of such a token [atoi] makes the number the
    digits write, with the sign, held to the range of [long] and cut down
    to an [int]: the number itself when an [int] holds it, as 12 for
    [12abc], and -1 or 0 beyond the range of [long]. Loading the image
    leaves [iGpu] as it is; the run then ends at the check of the ordinal,
    with the message and status 1, exactly when [iGpu] is negative or not
    below the number of devices, which for ordinal 0 means no device. *)
Theorem gpu_ordinal_from_atoi (sdk : Sdk.t) (a v : string)
    (rest : list string) (o : Opts) (oss : string) :
  is_flag a "-gpu" = true ->
  parse_args sdk (a :: v :: rest) o oss
  = parse_args sdk rest (set_iGpu (atoi v) o) oss /\
  (starts_number v = false -> atoi v = 0) /\
  (starts_number v = true ->
   exists ws sgn ds tail,
     v = (ws ++ sgn ++ ds ++ tail)%string /\
     all_space ws = true /\ In sgn [EmptyString; "+"; "-"] /\
     all_digits ds = true /\ ds <> EmptyString /\
     isdigit (first_char tail) = false) /\
  (forall ws sgn ds tail,
     v = (ws ++ sgn ++ ds ++ tail)%string ->
     all_space ws = true -> In sgn [EmptyString; "+"; "-"] ->
     all_digits ds = true -> ds <> EmptyString ->
     isdigit (first_char tail) = false ->
     atoi v = wrap32 (to_long (signed sgn (decimal ds))) /\
     (- 2 ^ 31 <= signed sgn (decimal ds) <= INT_MAX ->
      atoi v = signed sgn (decimal ds)) /\
     (LONG_MAX <= signed sgn (decimal ds) -> atoi v = -1) /\
     (signed sgn (decimal ds) <= LONG_MIN -> atoi v = 0)) /\
  (forall l st x st',
     main_load sdk l st = (Val x, st') ->
     iGpu (opts sdk (locals sdk x)) = iGpu (opts sdk l)) /\
  (forall x st,
     out_of_range (iGpu (opts sdk (locals sdk x))) (nGpu sdk x) = true ->
     main_encode sdk x st
     = (Val (Some 1),
        mkSt sdk (world sdk st)
          (cout sdk st ++ out_of_range_message (nGpu sdk x))%string
          (fpOut sdk st) (log sdk st))) /\
  (forall x st st',
     out_of_range (iGpu (opts sdk (locals sdk x))) (nGpu sdk x) = false ->
     main_encode sdk x st <> (Val (Some 1), st')) /\
  (forall n, out_of_range 0 n = true <-> n <= 0).
Proof.
  intro Ha. split; [now apply parse_gpu|].
  split; [apply CLibFacts.atoi_no_number|].
  split; [apply CLibFacts.starts_number_split|].
  split.
  { intros ws sgn ds tail -> W S D N T.
    assert (E : atoi (ws ++ sgn ++ ds ++ tail)%string
                = wrap32 (to_long (signed sgn (decimal ds))))
      by now apply CLibFacts.atoi_number.
    rewrite E. split; [reflexivity|]. split; [|split].
    - apply CLibFacts.wrap32_to_long.
    - apply CLibFacts.wrap32_to_long_high.
    - apply CLibFacts.wrap32_to_long_low. }
  repeat split.
  - intros l st x st' H.
    destruct (main_load_returns sdk l st x st' H) as (m & w & _ & E & _).
    now rewrite E.
  - intros x st. apply main_encode_out_of_range.
  - intros x st st'. apply main_encode_in_range.
  - unfold out_of_range. simpl. intro H. apply Z.geb_le in H. lia.
  - unfold out_of_range. simpl. intro H. apply Z.geb_le. lia.
Qed.

Lemma gpu_ordinal_from_atoi_witness :
  parse_args Mock.sdk ["-GPU"; "abc"] initial_opts EmptyString
  = ret Mock.sdk (set_iGpu 0 initial_opts, EmptyString) /\
  atoi " -12abc" = -12 /\
  atoi "99999999999999999999" = -1 /\
  fst (Mock.run (Mock.usage ++ ["-gpu"; "abc"]) Mock.one_gpu) = 0 /\
  fst (Mock.run (Mock.usage ++ ["-gpu"; "abc"]) Mock.no_gpu) = 1.
Proof.
  split; [|split; [|split; [|split; vm_compute; reflexivity]]].
  - apply (gpu_ordinal_from_atoi Mock.sdk "-GPU" "abc" [] initial_opts
             EmptyString).
    reflexivity.
  - destruct (gpu_ordinal_from_atoi Mock.sdk "-gpu" " -12abc" []
                initial_opts EmptyString eq_refl)
      as (_ & _ & _ & N & _).
    assert (K : "12" <> EmptyString) by discriminate.
    destruct (N " " "-" "12" "abc" eq_refl eq_refl
                (or_intror (or_intror (or_introl eq_refl))) eq_refl K
                eq_refl) as (_ & E & _).
    apply E. vm_compute. split; discriminate.
  - destruct (gpu_ordinal_from_atoi Mock.sdk "-gpu" "99999999999999999999"
                [] initial_opts EmptyString eq_refl)
      as (_ & _ & _ & N & _).
    assert (K : "99999999999999999999" <> EmptyString) by discriminate.
    destruct (N EmptyString EmptyString "99999999999999999999" EmptyString
                eq_refl eq_refl (or_introl eq_refl) eq_refl K eq_refl)
      as (_ & _ & E & _).
    apply E. vm_compute. discriminate.
Defined.

(** C9 as stated fails: [12abc] is not a number, yet the ordinal it sets is
    12, not 0, and with one device the run ends at the check of the
    ordinal. *)
Lemma gpu_ordinal_prefix :
  numeric_string "12abc" = false /\
  atoi "12abc" = 12 /\
  option_map iGpu (Mock.parsed (Mock.usage ++ ["-gpu"; "12abc"])) = Some 12 /\
  Mock.run (Mock.usage ++ ["-gpu"; "12abc"]) Mock.one_gpu
  = (1,
     mkSt Mock.sdk Mock.one_gpu
       ("GPU ordinal out of range. Should be within [0, 0]" ++ endl)%string
       {| good := false; written := [] |}
       (log Mock.sdk
          (snd (Mock.run (Mock.usage ++ ["-gpu"; "12abc"]) Mock.one_gpu)))).
Proof. repeat split; vm_compute; reflexivity. Qed.

Lemma names_find (k : nat) (v : string) :
  nth_error vszFileFormatName k = Some v ->
  std_find vszFileFormatName v = Some k /\
  exists f,
    nth_error aFormat k = Some f /\ nth k aFormat NV_ENC_BUFFER_FORMAT_IYUV = f.
Proof.
  unfold vszFileFormatName, aFormat.
  do 11 (destruct k as [|k];
         [intro H; inversion H; subst; split;
          [reflexivity | eexists; split; reflexivity] |]).
  destruct k; discriminate.
Qed.

(** C10, as amended. After [-if] (in any case) the loop accepts the eleven
    names of its table, spelled exactly as there, in lower case, and sets
    [eFormat] to the format at the index of the name; any other token, a
    name in upper case included, makes it throw the help text, which ends the
    run with status 1. [yv12] is in the table but not in the help text. *)
Theorem format_names_exact (sdk : Sdk.t) (a v : string) (rest : list string)
    (o : Opts) (oss : string) :
  is_flag a "-if" = true ->
  (forall k,
     nth_error vszFileFormatName k = Some v ->
     exists f,
       nth_error aFormat k = Some f /\
       parse_args sdk (a :: v :: rest) o oss
       = parse_args sdk rest (set_eFormat f o) oss) /\
  (~ In v vszFileFormatName ->
     (forall st, throws sdk (parse_args sdk (a :: v :: rest) o oss) st) /\
     (forall prog st, fst (main sdk (prog :: a :: v :: rest) st) = 1)) /\
  vszFileFormatName
  = ["iyuv"; "nv12"; "yv12"; "yuv444"; "p010"; "yuv444p16"; "bgra"; "bgra10";
     "ayuv"; "abgr"; "abgr10"] /\
  List.length aFormat = 11%nat /\
  occurs "yv12" help_options = false /\
  (~ In v vszFileFormatName ->
   forall st p w,
     Sdk.NvEncoderInitParam_default sdk (world sdk st) = Ret p w ->
     fst (parse_args sdk (a :: v :: rest) o oss st)
     = Throw
         (help_head (Some "-if") ++ Sdk.GetHelpMessage sdk p ++ endl)%string).
Proof.
  intro Ha.
  assert (T : ~ In v vszFileFormatName ->
              forall o' oss' st,
                throws sdk (parse_args sdk (a :: v :: rest) o' oss') st).
  { intros Hv o' oss' st. rewrite (parse_if sdk a v rest o' oss' Ha).
    apply CLibFacts.std_find_None in Hv. rewrite Hv.
    apply ShowHelpAndExit_throws. }
  split; [|split; [|split; [|split; [|split]]]].
  - intros k Hk. destruct (names_find k v Hk) as [Hf (f & Hn & Hd)].
    exists f. split; [exact Hn|]. rewrite (parse_if sdk a v rest o oss Ha).
    now rewrite Hf, Hd.
  - intro Hv. split.
    + intro st. now apply T.
    + intros prog st.
      destruct (parse_throws_status sdk (prog :: a :: v :: rest)) with (st := st)
        as (what & st1 & _ & M).
      * intro st0. cbn [tl]. now apply T.
      * now rewrite M.
  - reflexivity.
  - reflexivity.
  - vm_compute. reflexivity.
  - intros Hv st p w Hp. rewrite (parse_if sdk a v rest o oss Ha).
    apply CLibFacts.std_find_None in Hv. rewrite Hv.
    now rewrite (ShowHelpAndExit_what sdk "-if" st p w Hp).
Qed.

Lemma format_names_exact_witness :
  parse_args Mock.sdk ["-IF"; "yv12"] initial_opts EmptyString
  = ret Mock.sdk
      (set_eFormat NV_ENC_BUFFER_FORMAT_YV12 initial_opts, EmptyString).
Proof.
  destruct (format_names_exact Mock.sdk "-IF" "yv12" [] initial_opts
              EmptyString eq_refl) as [H _].
  destruct (H 2%nat eq_refl) as (f & Hf & E).
  rewrite E. inversion Hf. reflexivity.
Defined.

(** C10 as stated fails: the names are not matched without regard to case.
    [NV12] is [nv12] but for its case, it is not found in the table, and the
    run ends with the help text and status 1. *)
Lemma format_name_case :
  strlwr "NV12" = "nv12" /\
  In "nv12" vszFileFormatName /\
  std_find vszFileFormatName "NV12" = None /\
  Mock.parsed (Mock.usage ++ ["-if"; "NV12"]) = None /\
  fst (Mock.run (Mock.usage ++ ["-if"; "NV12"]) Mock.one_gpu) = 1 /\
  String.prefix ("Error parsing " ++ dquote ++ "-if" ++ dquote)
    (cout Mock.sdk (snd (Mock.run (Mock.usage ++ ["-if"; "NV12"]) Mock.one_gpu)))
  = true.
Proof.
  repeat split; try (vm_compute; reflexivity).
  simpl. tauto.
Qed.

End CommandLine.

(** ** Failures: what the specification says of them *)

Module Failure.
Import CLib App Hoare Trace MonadFacts ParseFacts EncodeFacts MainFacts
  RaiseFacts RunFacts ChainFacts CheckFacts.
Local Open Scope list_scope.

(** The [try] block, once the command line is read and the image loaded. *)
Lemma main_try_phases (sdk : Sdk.t) argv st l s1 x s2 :
  main_parse sdk argv st = (Val l, s1) ->
  main_load sdk l s1 = (Val x, s2) ->
  main_try sdk argv st = main_encode sdk x s2.
Proof.
  intros Hp Hl. unfold main_try.
  rewrite (bind_Val sdk _ _ _ _ _ Hp). now rewrite (bind_Val sdk _ _ _ _ _ Hl).
Qed.

(** C7, as amended. Every error the program detects ends the run with
    status 1 and a text that describes it, and nothing is tried again: an
    exception thrown anywhere in the [try] block (by a foreign call or by
    the program) is caught, its text printed, and the state is otherwise the
    one the exception left. The program itself throws for a flag without its
    value, for a [-s] value that does not scan as two numbers around an [x],
    for an [-if] name that is not in the table, for an argument that is no
    option, and for an output file that cannot be opened; an ordinal out of
    range prints its message and returns 1. The values of [-gpu] and
    [-cuStreamType] go through [atoi] and are never rejected.

    A call of a library fails by an exception or, in the CUDA driver, by
    its result. A call that raised an exception is the last call of the run:
    the exception is the one that is caught, and the run ends with status 1
    and its text. Every result of the driver is handed to [ck] by the very
    next call, and the log has what [ck] answered; so, [ck] raising an
    exception for a result other than [CUDA_SUCCESS], as the specification
    has it, a call of the driver that fails is followed by nothing but that
    [ck], and the run ends with status 1 and the text of [ck]. *)
Theorem errors_terminate (sdk : Sdk.t) (argv : list string) (st : St sdk) :
  (let run := main_try sdk argv st in
   let new := added sdk (log sdk st) (log sdk (snd run)) in
   log sdk (snd run) = log sdk st ++ new /\
   (forall e what,
      In e new -> snd e = Raised what ->
      fst run = Throw what /\
      main sdk argv st = (1, caught sdk what (snd run)) /\
      exists l, new = l ++ [e] /\ Forall (calm sdk) l) /\
   pairwise sdk (checked sdk) new /\
   (forall l e, new = l ++ [e] -> ~ driver_call sdk e) /\
   Forall (ck_entry sdk) new /\
   (ck_raises sdk ->
    forall e r,
      In e new -> call_of sdk e = ck_ r -> r <> CUDA_SUCCESS ->
      exists what,
        snd e = Raised what /\
        fst run = Throw what /\
        main sdk argv st = (1, caught sdk what (snd run)) /\
        exists l, new = l ++ [e] /\ Forall (calm sdk) l)) /\
  (forall what st1,
     main_try sdk argv st = (Throw what, st1) ->
     main sdk argv st = (1, caught sdk what st1) /\
     cout sdk (snd (main sdk argv st)) = (cout sdk st1 ++ what)%string /\
     log sdk (snd (main sdk argv st)) = log sdk st1) /\
  ((forall st0,
      throws sdk (parse_args sdk (tl argv) initial_opts EmptyString) st0) ->
   fst (main sdk argv st) = 1) /\
  (forall a o oss s,
     takes_value a -> throws sdk (parse_args sdk [a] o oss) s) /\
  (forall a v rest o oss s,
     is_flag a "-s" = true -> fst (fst (sscanf_dxd v)) <> 2 ->
     throws sdk (parse_args sdk (a :: v :: rest) o oss) s) /\
  (forall a v rest o oss s,
     is_flag a "-if" = true -> ~ In v vszFileFormatName ->
     throws sdk (parse_args sdk (a :: v :: rest) o oss) s) /\
  (forall a rest o oss s,
     no_flag a -> no_dash a = true ->
     throws sdk (parse_args sdk (a :: rest) o oss) s) /\
  (forall a v rest o oss,
     is_flag a "-gpu" = true ->
     parse_args sdk (a :: v :: rest) o oss
     = parse_args sdk rest (set_iGpu (atoi v) o) oss) /\
  (forall a v rest o oss,
     is_flag a "-cuStreamType" = true ->
     parse_args sdk (a :: v :: rest) o oss
     = parse_args sdk rest (set_cuStreamType (atoi v) o) oss) /\
  (forall l s1 x s2,
     main_parse sdk argv st = (Val l, s1) ->
     main_load sdk l s1 = (Val x, s2) ->
     out_of_range (iGpu (opts sdk (locals sdk x))) (nGpu sdk x) = true ->
     main sdk argv st
     = (1,
        mkSt sdk (world sdk s2)
          (cout sdk s2 ++ out_of_range_message (nGpu sdk x))%string
          (fpOut sdk s2) (log sdk s2))) /\
  (forall x cuContext s w,
     Sdk.ofstream_open sdk (szOutputFileName (opts sdk (locals sdk x)))
       (world sdk s) = (false, w) ->
     fst (main_output sdk x cuContext s)
     = Throw
         (cannot_open_message (szOutputFileName (opts sdk (locals sdk x)))) /\
     log sdk (snd (main_output sdk x cuContext s))
     = log sdk s
       ++ [(ofstream_open_ (szOutputFileName (opts sdk (locals sdk x))),
            world sdk s, Returned)]) /\
  (forall l s1 x s2 cuContext s3 w,
     main_parse sdk argv st = (Val l, s1) ->
     main_load sdk l s1 = (Val x, s2) ->
     out_of_range (iGpu (opts sdk (locals sdk x))) (nGpu sdk x) = false ->
     main_device sdk (iGpu (opts sdk (locals sdk x))) s2 = (Val cuContext, s3)
     ->
     Sdk.ofstream_open sdk (szOutputFileName (opts sdk (locals sdk x)))
       (world sdk s3) = (false, w) ->
     fst (main sdk argv st) = 1 /\
     cout sdk (snd (main sdk argv st))
     = (cout sdk s3
        ++ cannot_open_message (szOutputFileName (opts sdk (locals sdk x))))
       %string) /\
  (forall A bad s p w,
     Sdk.NvEncoderInitParam_default sdk (world sdk s) = Ret p w ->
     fst (@ShowHelpAndExit sdk A (Some bad) s)
     = Throw
         (help_head (Some bad) ++ Sdk.GetHelpMessage sdk p ++ endl)%string) /\
  (forall bad,
     help_head (Some bad)
     = (("Error parsing " ++ dquote ++ bad ++ dquote ++ endl)
        ++ help_options)%string).
Proof.
  split.
  { intros run new.
    destruct (main_try_propagates sdk argv st) as (n1 & L & E).
    fold run in L, E.
    assert (N : new = n1) by (unfold new; now rewrite L, added_app).
    destruct (main_try_checks sdk argv st I) as (_ & n2 & L2 & _ & C & T).
    fold run in L2. rewrite L in L2. apply app_inv_head in L2. subst n2.
    destruct (main_try_ck sdk argv st) as (n3 & L3 & K).
    fold run in L3. rewrite L in L3. apply app_inv_head in L3. subst n3.
    assert (R : forall e what,
              In e n1 -> snd e = Raised what ->
              fst run = Throw what /\
              main sdk argv st = (1, caught sdk what (snd run)) /\
              exists l, n1 = l ++ [e] /\ Forall (calm sdk) l).
    { intros e what Hin Hr.
      destruct (ended_raised sdk true _ _ e what E Hin Hr) as [T1 T2].
      split; [exact T1|]. split; [|exact T2].
      apply main_catches. unfold run in *.
      destruct (main_try sdk argv st) as [r s]. simpl in *. now subst r. }
    rewrite N. split; [exact L|]. split; [exact R|].
    split.
    { revert C. apply pairwise_impl. intros e1 e2 H r w D.
      apply H; [|exact D]. unfold driver_call. now rewrite D. }
    split; [exact T|]. split; [exact K|].
    intros Hck e r Hin Hc Hr.
    rewrite Forall_forall in K. specialize (K e Hin r Hc).
    destruct (Hck r (world_of sdk e) Hr) as (what & w' & Ht).
    rewrite Ht in K. exists what. split; [exact K|].
    now apply R. }
  split; [|split; [|split; [|split; [|split; [|split; [|split; [|split;
    [|split; [|split; [|split; [|split]]]]]]]]]]].
  - intros what st1 H. rewrite (main_catches sdk argv st what st1 H).
    now repeat split.
  - intro H. destruct (parse_throws_status sdk argv H st)
      as (what & st1 & _ & M).
    now rewrite M.
  - intros a o oss s. apply parse_missing_value.
  - intros a v rest o oss s Ha Hv.
    rewrite (parse_s_bad sdk a v rest o oss Ha Hv).
    apply ShowHelpAndExit_throws.
  - intros a v rest o oss s Ha Hv. rewrite (parse_if sdk a v rest o oss Ha).
    apply CLibFacts.std_find_None in Hv. rewrite Hv.
    apply ShowHelpAndExit_throws.
  - intros a rest o oss s. apply parse_stray.
  - intros a v rest o oss. apply parse_gpu.
  - intros a v rest o oss. apply parse_cuStreamType.
  - intros l s1 x s2 Hp Hl Hr. unfold main.
    rewrite (main_try_phases sdk argv st l s1 x s2 Hp Hl).
    now rewrite (main_encode_out_of_range sdk x s2 Hr).
  - intros x cuContext s w H.
    now rewrite (main_output_cannot_open sdk x cuContext s w H).
  - intros l s1 x s2 cuContext s3 w Hp Hl Hr Hd Ho.
    assert (T : main_try sdk argv st
                = main_output sdk x cuContext s3).
    { rewrite (main_try_phases sdk argv st l s1 x s2 Hp Hl).
      unfold main_encode. cbv zeta. rewrite Hr.
      now rewrite (bind_Val sdk _ _ _ _ _ Hd). }
    unfold main. rewrite T.
    rewrite (main_output_cannot_open sdk x cuContext s3 w Ho).
    now split.
  - intros A bad s p w Hp. now apply (ShowHelpAndExit_what sdk bad s p w).
  - reflexivity.
Qed.

Lemma errors_terminate_witness :
  fst (Mock.run ["./AppEncOpenCV"; "-i"; "path_to_image.jpg"; "-o"]
         Mock.one_gpu) = 1 /\
  let run := main Mock.broken Mock.usage (start Mock.broken Mock.one_gpu) in
  fst run = 1 /\
  cout Mock.broken (snd run) = "CUDA driver API error" /\
  map (call_of Mock.broken) (log Mock.broken (snd run))
  = [NvEncoderInitParam_default_; NvEncoderInitParam_ EmptyString;
     imread_ "path_to_image.jpg";
     upload_ {| cols := 1920; rows := 1080; host_data := 100 |};
     cvtColor_ {| gpu_cols := 1920; gpu_rows := 1080; data := 200 |}
       COLOR_BGR2RGBA;
     download_ {| gpu_cols := 1920; gpu_rows := 1080; data := 300 |};
     ValidateResolution_ 1920 1080; cuInit_ 0; ck_ (CUDA_ERROR 100)].
Proof.
  split.
  { apply (errors_terminate Mock.sdk
             ["./AppEncOpenCV"; "-i"; "path_to_image.jpg"; "-o"]
             (start Mock.sdk Mock.one_gpu)).
    intro st0. eexists. eexists. vm_compute. reflexivity. }
  intro run.
  destruct (errors_terminate Mock.broken Mock.usage
              (start Mock.broken Mock.one_gpu)) as [(_ & _ & _ & _ & _ & H) _].
  destruct (H (fun r w Hr =>
                 match r as r0
                   return r0 <> CUDA_SUCCESS ->
                          exists what w',
                            Sdk.ck Mock.broken r0 w = Thr what w'
                 with
                 | CUDA_SUCCESS => fun N => False_ind _ (N eq_refl)
                 | CUDA_ERROR c =>
                     fun _ =>
                       ex_intro _ "CUDA driver API error"
                         (ex_intro _ w eq_refl)
                 end Hr)
              (ck_ (CUDA_ERROR 100), Mock.one_gpu,
               Raised "CUDA driver API error")
              (CUDA_ERROR 100))
    as (what & Hw & _ & M & _).
  - apply (nth_error_In _ 8). vm_compute. reflexivity.
  - reflexivity.
  - discriminate.
  - inversion Hw. subst what. unfold run. rewrite M.
    split; [reflexivity|]. split; vm_compute; reflexivity.
Defined.

(** C7 as stated fails: [abc] is a malformed value for [-gpu], yet the run
    reports no failure and ends with status 0. *)
Lemma gpu_value_not_checked :
  numeric_string "abc" = false /\
  fst (Mock.run (Mock.usage ++ ["-gpu"; "abc"]) Mock.one_gpu) = 0 /\
  cout Mock.sdk (snd (Mock.run (Mock.usage ++ ["-gpu"; "abc"]) Mock.one_gpu))
  = ("GPU in use: Mock GPU" ++ endl
     ++ "Total frames encoded: 375" ++ endl
     ++ "Bitstream saved in file video.h264" ++ endl)%string.
Proof. repeat split; vm_compute; reflexivity. Qed.

End Failure.

(** ** The order of the foreign calls *)

Module CallOrder.
Import CLib App Hoare Trace MonadFacts TraceFacts OutcomeFacts LoopFacts
  TryFacts.
Local Open Scope list_scope.

(** X1. Whatever happens in [EncodeCuda], and whether it returns or is cut
    short by an exception, the calls it has made are a beginning of one
    fixed sequence: the encoder is constructed and set up, 375 frames are
    submitted (next input frame, copy, [EncodeFrame]), the encoder is
    flushed, then destroyed. A run that returns has made them all. So no
    run submits more than 375 frames or flushes twice, and a run that has
    flushed has submitted every frame before. *)
Theorem EncodeCuda_call_order (sdk : Sdk.t) nWidth nHeight encodeCLIOptions
    cuContext srcIn (st : St sdk) :
  let run :=
    EncodeCuda sdk nWidth nHeight encodeCLIOptions cuContext srcIn st in
  exists new,
    log sdk (snd run) = log sdk st ++ new /\
    (exists rest, EncodeCuda_names = names sdk new ++ rest) /\
    (forall a, fst run = Val a -> names sdk new = EncodeCuda_names) /\
    (count_occ Name_eq_dec (names sdk new) N_EncodeFrame <= 375)%nat /\
    (count_occ Name_eq_dec (names sdk new) N_EndEncode <= 1)%nat /\
    (count_occ Name_eq_dec (names sdk new) N_DestroyEncoder <= 1)%nat /\
    (In N_EndEncode (names sdk new) ->
     count_occ Name_eq_dec (names sdk new) N_EncodeFrame = 375%nat).
Proof.
  intro run. subst run.
  destruct (EncodeCuda_follows sdk nWidth nHeight encodeCLIOptions cuContext
              srcIn st) as (new & L & [rest P] & D).
  exists new. split; [exact L|]. split; [now exists rest|].
  split; [intros a Ha; now apply (D a)|].
  split; [|split; [|split]].
  - apply (prefix_count _ _ _ N_EncodeFrame P).
  - apply (prefix_count _ _ _ N_EndEncode P).
  - apply (prefix_count _ _ _ N_DestroyEncoder P).
  - now apply (flush_after_frames _ rest).
Qed.

(** X2. The calls of [ShowEncoderCapability] are a beginning of: the driver
    is initialised and the devices are counted, then, for each device the
    driver reported, the device is looked up and named, a context and an
    encoder are created, thirteen capabilities are asked for, and the
    encoder and the context are destroyed. A run that returns has reported
    on every device, and has destroyed as many encoders and contexts as it
    created: one of each per device. *)
Theorem ShowEncoderCapability_call_order (sdk : Sdk.t) (st : St sdk) :
  let run := ShowEncoderCapability sdk st in
  exists new,
    log sdk (snd run) = log sdk st ++ new /\
    (exists rest,
       ShowEncoderCapability_names (reported sdk new)
       = names sdk new ++ rest) /\
    (forall a,
       fst run = Val a ->
       names sdk new = ShowEncoderCapability_names (reported sdk new) /\
       count_occ Name_eq_dec (names sdk new) N_cuCtxCreate = reported sdk new /\
       count_occ Name_eq_dec (names sdk new) N_NvEncoderCuda
       = reported sdk new /\
       count_occ Name_eq_dec (names sdk new) N_DestroyEncoder
       = reported sdk new /\
       count_occ Name_eq_dec (names sdk new) N_cuCtxDestroy
       = reported sdk new).
Proof.
  intro run. subst run.
  destruct (ShowEncoderCapability_calls sdk st) as (new & L & P & D).
  exists new. split; [exact L|]. split; [exact P|].
  intros a Ha. rewrite (D a Ha). split; [reflexivity|].
  unfold ShowEncoderCapability_names.
  rewrite !count_occ_app, !count_occ_reports.
  repeat split; simpl; lia.
Qed.

(** X3. The calls of the [try] block of [main], whatever the command line
    and whatever the libraries answer. Either they are a beginning of one
    fixed sequence (the encoder options are built, the image is read,
    uploaded, converted and downloaded, the resolution is validated, the
    devices are counted, the device is looked up and a context created on
    it, the output file is opened, and [EncodeCuda] runs), and they are the
    whole of it when control reaches the end of the block; or the command
    line led into the help, the block does not come to an end, and no call
    was made but those of the help. *)
Theorem main_call_order (sdk : Sdk.t) (argv : list string) (st : St sdk) :
  let run := main_try sdk argv st in
  exists new,
    log sdk (snd run) = log sdk st ++ new /\
    (((exists rest, main_names = names sdk new ++ rest) /\
      (fst run = Val None -> names sdk new = main_names)) \/
     (Forall (help_call sdk) new /\ forall r, fst run <> Val r)).
Proof.
  intro run. subst run.
  destruct (parse_args_cases sdk (tl argv) initial_opts EmptyString)
    as [(o' & oss' & E)|[sb E]].
  - destruct (main_try_follows_accepted sdk argv o' oss' E st)
      as (new & L & P & D).
    exists new. split; [exact L|]. left. split; [exact P|].
    intro H. now apply (D None).
  - destruct (main_try_help_calls sdk argv sb E st) as (new & L & F).
    exists new. split; [exact L|]. right. split; [exact F|].
    apply (main_try_never_returns sdk argv sb E).
Qed.

End CallOrder.

(** ** How runs end *)

Module Endings.
Import CLib App Hoare Trace MonadFacts ParseFacts EncodeFacts MainFacts
  TraceFacts OutcomeFacts LoopFacts TryFacts.
Local Open Scope list_scope.

(** X4. [EncodeCuda] never ends the process, and a run that fails has
    printed nothing: the line with the number of frames comes only when
    everything before it went through. *)
Theorem EncodeCuda_failure (sdk : Sdk.t) nWidth nHeight encodeCLIOptions
    cuContext srcIn (st : St sdk) :
  let run :=
    EncodeCuda sdk nWidth nHeight encodeCLIOptions cuContext srcIn st in
  match fst run with
  | Val _ =>
      exists n,
        cout sdk (snd run)
        = (cout sdk st
           ++ ("Total frames encoded: " ++ string_of_int n ++ endl))%string
  | Throw _ => cout sdk (snd run) = cout sdk st
  | Exit _ => False
  end.
Proof.
  intro run. subst run.
  pose proof (EncodeCuda_throws_quietly sdk nWidth nHeight encodeCLIOptions
                cuContext srcIn st) as Q.
  pose proof (EncodeCuda_exits sdk nWidth nHeight encodeCLIOptions cuContext
                srcIn st) as X.
  destruct (EncodeCuda sdk nWidth nHeight encodeCLIOptions cuContext srcIn st)
    as [[[]|what|status] st'] eqn:E; cbn [fst snd] in *.
  - apply EncodeCuda_returns in E. destruct E as (new & _ & _ & _ & C).
    eexists. exact C.
  - now apply (Q what).
  - now apply (X status).
Qed.

(** X5. [ShowEncoderCapability] leaves the output stream alone, only adds
    to what is printed, never ends the process, and every encoder it
    constructs is the probe of 1280 by 720 pixels in NV12. *)
Theorem ShowEncoderCapability_effects (sdk : Sdk.t) (st : St sdk) :
  let run := ShowEncoderCapability sdk st in
  fpOut sdk (snd run) = fpOut sdk st /\
  (exists text, cout sdk (snd run) = (cout sdk st ++ text)%string) /\
  (forall status, fst run <> Exit status) /\
  exists new,
    log sdk (snd run) = log sdk st ++ new /\ Forall (probe_only sdk) new.
Proof.
  intro run. subst run. split; [|split; [|split]].
  - apply (ShowEncoderCapability_mute sdk st).
  - apply (ShowEncoderCapability_says sdk st).
  - intros status E. apply (ShowEncoderCapability_exits sdk st status E).
  - apply (ShowEncoderCapability_probe sdk st).
Qed.

(** X6. [ShowHelpAndExit] never returns to its caller. Given an option to
    complain about, it throws, having printed nothing and made one call,
    for the encoder's own help. Given none, it may end the process, and then
    with status 0 and after it printed the help text before anything
    else. *)
Theorem ShowHelpAndExit_outcome (sdk : Sdk.t) (A : Type)
    (szBadOption : option string) (st : St sdk) :
  let run := @ShowHelpAndExit sdk A szBadOption st in
  (forall a, fst run <> Val a) /\
  (forall bad,
     szBadOption = Some bad ->
     (exists what, fst run = Throw what) /\
     cout sdk (snd run) = cout sdk st /\
     exists r,
       log sdk (snd run)
       = log sdk st ++ [(NvEncoderInitParam_default_, world sdk st, r)]) /\
  (forall status,
     fst run = Exit status ->
     status = 0 /\ szBadOption = None /\
     exists p text,
       cout sdk (snd run)
       = ((cout sdk st
           ++ (help_head None ++ Sdk.GetHelpMessage sdk p ++ endl))
          ++ text)%string).
Proof.
  intro run. subst run. split; [|split].
  - apply ShowHelpAndExit_never_returns.
  - intros bad ->. unfold ShowHelpAndExit, NvEncoderInitParam_default.
    cbv zeta. rewrite foreign_bind_run.
    destruct (Sdk.NvEncoderInitParam_default sdk (world sdk st))
      as [p w|what w]; cbn [fst snd cout log].
    + split; [eexists; reflexivity|]. split; [reflexivity|].
      eexists. reflexivity.
    + split; [eexists; reflexivity|]. split; [reflexivity|].
      eexists. reflexivity.
  - intros status E.
    destruct (ShowHelpAndExit_exits sdk szBadOption st status E) as [-> ->].
    split; [reflexivity|]. split; [reflexivity|].
    destruct (@ShowHelpAndExit sdk A None st) as [r s'] eqn:H.
    cbn [fst snd] in *. subst r. revert H.
    unfold ShowHelpAndExit, NvEncoderInitParam_default. cbv zeta.
    rewrite foreign_bind_run.
    destruct (Sdk.NvEncoderInitParam_default sdk (world sdk st))
      as [p w|what w]; [|discriminate].
    intro H. exists p.
    match type of H with
    | bind sdk (print sdk ?t) ?k ?s = _ =>
        change (bind sdk (print sdk t) k s)
          with (k tt (snd (print sdk t s))) in H
    end.
    cbv beta in H.
    match type of H with
    | bind sdk (ShowEncoderCapability sdk) ?k ?s = _ =>
        assert (S : says sdk s
                      (snd (bind sdk (ShowEncoderCapability sdk) k s)))
    end.
    { apply (effect_bind sdk (says sdk)).
      - apply ShowEncoderCapability_says.
      - intros _. apply effect_exit. exact _. }
    rewrite H in S. destruct S as [text S]. exists text. exact S.
Qed.

(** X7. The exit status of the program is 0 or 1, whatever the command line
    and whatever the libraries do. It is 0 exactly when control reached
    the end of the [try] block or the help ended the process; it is 1 when
    an exception was caught or the ordinal of the device was out of
    range. *)
Theorem exit_status_0_or_1 (sdk : Sdk.t) (argv : list string) (st : St sdk) :
  let run := main_try sdk argv st in
  (fst (main sdk argv st) = 0 /\
   (fst run = Val None \/ fst run = Exit 0)) \/
  (fst (main sdk argv st) = 1 /\
   (fst run = Val (Some 1) \/ exists what, fst run = Throw what)).
Proof.
  intro run. subst run. unfold main.
  pose proof (main_try_exits sdk argv st) as X.
  pose proof (main_try_value sdk argv st) as V.
  destruct (main_try sdk argv st) as [[r|what|status] st'];
    cbn [fst] in *.
  - destruct (V r st' eq_refl) as [->| ->].
    + left. split; [reflexivity | now left].
    + right. split; [reflexivity | now left].
  - right. split; [reflexivity|]. right. now exists what.
  - rewrite (X status eq_refl). left. split; [reflexivity | now right].
Qed.

(** X8. A run that ends the process from within the [try] block does so
    with status 0, and has made no call but those of the help: no image was
    read, no output file opened or truncated, nothing encoded. *)
Theorem exit_means_help (sdk : Sdk.t) (argv : list string) (st st' : St sdk)
    (status : Z) :
  main_try sdk argv st = (Exit status, st') ->
  status = 0 /\
  main sdk argv st = (0, st') /\
  fpOut sdk st' = fpOut sdk st /\
  exists new,
    log sdk st' = log sdk st ++ new /\ Forall (help_call sdk) new.
Proof.
  intro H.
  assert (S : status = 0).
  { apply (main_try_exits sdk argv st). now rewrite H. }
  subst status. split; [reflexivity|]. split.
  { unfold main. now rewrite H. }
  destruct (parse_args_cases sdk (tl argv) initial_opts EmptyString)
    as [(o' & oss' & E)|[sb E]].
  - elim (main_try_exits_accepted sdk argv o' oss' E st 0). now rewrite H.
  - split.
    + assert (M : mute sdk st (snd (main_try sdk argv st))).
      { unfold main_try. apply effect_stuck.
        - apply (main_parse_never_returns sdk argv sb E).
        - apply main_parse_mute. }
      rewrite H in M. apply M.
    + pose proof (main_try_help_calls sdk argv sb E st) as G.
      rewrite H in G. exact G.
Qed.

Lemma exit_means_help_witness :
  fst (Mock.run ["./AppEncOpenCV"; "-h"] Mock.one_gpu) = 0.
Proof.
  assert (H : main_try Mock.sdk ["./AppEncOpenCV"; "-h"]
                (start Mock.sdk Mock.one_gpu)
              = (Exit 0,
                 snd (main_try Mock.sdk ["./AppEncOpenCV"; "-h"]
                        (start Mock.sdk Mock.one_gpu)))).
  { destruct (main_try Mock.sdk ["./AppEncOpenCV"; "-h"]
                (start Mock.sdk Mock.one_gpu)) as [r s] eqn:E.
    assert (R : fst (main_try Mock.sdk ["./AppEncOpenCV"; "-h"]
                       (start Mock.sdk Mock.one_gpu)) = Exit 0)
      by (vm_compute; reflexivity).
    rewrite E in R. simpl in R. now subst r. }
  destruct (exit_means_help Mock.sdk _ _ _ _ H) as (_ & M & _).
  unfold Mock.run. now rewrite M.
Defined.

(** X20. The ordinal of the device is checked before any device is
    touched: a run that ends with the complaint about the ordinal has built
    the encoder options, read and converted the image and counted the
    devices, and nothing more. No device was looked up, no context created,
    and the output file was not opened, so a file of that name is left as
    it was. The exit status is 1. *)
Theorem range_check_before_device (sdk : Sdk.t) (argv : list string)
    (st st' : St sdk) :
  main_try sdk argv st = (Val (Some 1), st') ->
  main sdk argv st = (1, st') /\
  fpOut sdk st' = fpOut sdk st /\
  exists new,
    log sdk st' = log sdk st ++ new /\
    names sdk new
    = [N_NvEncoderInitParam_default; N_NvEncoderInitParam] ++ main_load_names.
Proof.
  intro H. split; [unfold main; now rewrite H|].
  destruct (parse_args_cases sdk (tl argv) initial_opts EmptyString)
    as [(o' & oss' & E)|[sb E]].
  2:{ elim (main_try_never_returns sdk argv sb E st (Some 1)). now rewrite H. }
  unfold main_try in H.
  apply bind_inv in H. destruct H as (l & s1 & Hp & H).
  apply bind_inv in H. destruct H as (x & s2 & Hl & H).
  destruct (main_parse_follows_accepted sdk argv o' oss' E st)
    as (n1 & L1 & _ & D1).
  rewrite Hp in L1, D1. cbn [fst snd] in L1, D1.
  specialize (D1 l eq_refl I).
  destruct (main_load_follows sdk l s1) as (n2 & L2 & _ & D2).
  rewrite Hl in L2, D2. cbn [fst snd] in L2, D2.
  specialize (D2 x eq_refl I).
  pose proof (main_parse_mute sdk argv st) as [F1 _]. rewrite Hp in F1.
  pose proof (main_load_mute sdk l s1) as [F2 _]. rewrite Hl in F2.
  cbn [snd] in F1, F2.
  destruct (out_of_range (iGpu (opts sdk (locals sdk x))) (nGpu sdk x)) eqn:R.
  - rewrite (main_encode_out_of_range sdk x s2 R) in H. inversion H.
    cbn [fpOut log]. split; [congruence|].
    exists (n1 ++ n2). split.
    + now rewrite L2, L1, app_assoc.
    + now rewrite names_app, D1, D2.
  - now elim (main_encode_in_range sdk x s2 st' R).
Qed.

Lemma range_check_before_device_witness :
  fst (Mock.run (Mock.usage ++ ["-gpu"; "1"]) Mock.one_gpu) = 1.
Proof.
  assert (H : main_try Mock.sdk (Mock.usage ++ ["-gpu"; "1"])
                (start Mock.sdk Mock.one_gpu)
              = (Val (Some 1),
                 snd (main_try Mock.sdk (Mock.usage ++ ["-gpu"; "1"])
                        (start Mock.sdk Mock.one_gpu)))).
  { apply run_pair. vm_compute. reflexivity. }
  destruct (range_check_before_device Mock.sdk _ _ _ H) as [M _].
  unfold Mock.run. now rewrite M.
Defined.

End Endings.

(** ** Reading the command line *)

Module Parsing.
Import CLib App Hoare Trace MonadFacts ParseFacts TraceFacts OutcomeFacts
  LoopFacts TryFacts ReportFacts.
Local Open Scope list_scope.

(** X9. The loop of [ParseCommandLine] over the arguments, when it returns,
    has changed nothing: nothing was printed, no foreign call was made; and
    what it returns depends on the arguments alone, not on the state it ran
    in. *)
Theorem accepted_command_line_is_pure (sdk : Sdk.t) (args : list string)
    (o : Opts) (oss : string) (st st' : St sdk) (r : Opts * string) :
  parse_args sdk args o oss st = (Val r, st') ->
  st' = st /\ forall st2, parse_args sdk args o oss st2 = (Val r, st2).
Proof.
  destruct (parse_args_cases sdk args o oss) as [(o' & oss' & E)|[sb E]];
    rewrite E; intro H.
  - inversion H. subst. split; [reflexivity|]. intro st2. reflexivity.
  - elim (ShowHelpAndExit_never_returns sdk sb st r). now rewrite H.
Qed.

Lemma accepted_command_line_is_pure_witness :
  parse_args Mock.sdk (tl Mock.usage) initial_opts EmptyString Mock.opened
  = (Val (mkOpts "path_to_image.jpg" 0 0 NV_ENC_BUFFER_FORMAT_IYUV
            "video.h264" 0 (-1), EmptyString), Mock.opened).
Proof.
  apply (accepted_command_line_is_pure Mock.sdk (tl Mock.usage) initial_opts
           EmptyString (start Mock.sdk Mock.one_gpu)
           (start Mock.sdk Mock.one_gpu)).
  vm_compute. reflexivity.
Defined.

(** X10. On a command line whose arguments fit the arrays of [main] (at
    most 255 bytes each), the command lines the loop gets through are those
    of [parses]: flags that take a value, each followed by a value it
    accepts, and options the loop does not know, each with the arguments up
    to the next one that starts with a dash. The variables and the option
    string it returns are those the relation gives, and the paths it stores
    fit the arrays if those it started from did. *)
Theorem accepted_command_lines (sdk : Sdk.t) (args : list string) (o o' : Opts)
    (oss oss' : string) (st : St sdk) :
  Forall fits args ->
  (parse_args sdk args o oss st = (Val (o', oss'), st) <->
   parses args o oss o' oss') /\
  (parses args o oss o' oss' ->
   fits (szInputFileName o) /\ fits (szOutputFileName o) ->
   fits (szInputFileName o') /\ fits (szOutputFileName o')).
Proof.
  intro F. split.
  - split.
    + apply returns_parses.
    + intro H. now rewrite (parses_returns sdk args o oss o' oss' H).
  - intros H. now apply (parses_fits args o oss o' oss').
Qed.

Lemma accepted_command_lines_witness :
  parses ["-i"; "path_to_image.jpg"; "-preset"; "p4"; "-o"; "video.h264"]
    initial_opts EmptyString
    (mkOpts "path_to_image.jpg" 0 0 NV_ENC_BUFFER_FORMAT_IYUV "video.h264" 0
       (-1))
    "-preset p4 ".
Proof.
  apply (accepted_command_lines Mock.sdk
           ["-i"; "path_to_image.jpg"; "-preset"; "p4"; "-o"; "video.h264"]
           initial_opts
           (mkOpts "path_to_image.jpg" 0 0 NV_ENC_BUFFER_FORMAT_IYUV
              "video.h264" 0 (-1))
           EmptyString "-preset p4 " (start Mock.sdk Mock.one_gpu)).
  - repeat constructor; unfold fits, PATH_SIZE; simpl; lia.
  - vm_compute. reflexivity.
Defined.

(** X11. When [ParseCommandLine] returns, on a command line whose
    arguments fit the arrays of [main] (at most 255 bytes each), a variable
    is as it was unless one of the arguments is its flag, in upper or lower
    case: the input and output paths, the size, the format, the ordinal of
    the device and the stream type keep their defaults. *)
Theorem options_keep_defaults (sdk : Sdk.t) (argv : list string) (o o' : Opts)
    (p : Sdk.CLIOptions sdk) (st st' : St sdk) :
  Forall fits (tl argv) ->
  ParseCommandLine sdk argv o st = (Val (o', p), st') ->
  (Forall (fun t => is_flag t "-i" = false) (tl argv) ->
   szInputFileName o' = szInputFileName o) /\
  (Forall (fun t => is_flag t "-o" = false) (tl argv) ->
   szOutputFileName o' = szOutputFileName o) /\
  (Forall (fun t => is_flag t "-s" = false) (tl argv) ->
   nWidth o' = nWidth o /\ nHeight o' = nHeight o) /\
  (Forall (fun t => is_flag t "-if" = false) (tl argv) ->
   eFormat o' = eFormat o) /\
  (Forall (fun t => is_flag t "-gpu" = false) (tl argv) ->
   iGpu o' = iGpu o) /\
  (Forall (fun t => is_flag t "-cuStreamType" = false) (tl argv) ->
   cuStreamType o' = cuStreamType o).
Proof.
  intros _ H. apply ParseCommandLine_returns in H.
  destruct H as (oss & P & _). now apply (parses_frame _ _ _ _ _ P).
Qed.

Lemma options_keep_defaults_witness :
  let o' :=
    mkOpts "path_to_image.jpg" 0 0 NV_ENC_BUFFER_FORMAT_IYUV "video.h264" 0
      (-1) in
  iGpu o' = iGpu initial_opts /\
  cuStreamType o' = cuStreamType initial_opts /\
  eFormat o' = eFormat initial_opts.
Proof.
  intro o'.
  destruct (options_keep_defaults Mock.sdk Mock.usage initial_opts o'
              EmptyString (start Mock.sdk Mock.one_gpu)
              (snd (ParseCommandLine Mock.sdk Mock.usage initial_opts
                      (start Mock.sdk Mock.one_gpu))))
    as (_ & _ & _ & F & G & C).
  - repeat constructor; unfold fits, PATH_SIZE; simpl; lia.
  - vm_compute. reflexivity.
  - split; [|split].
    + apply G. repeat constructor.
    + apply C. repeat constructor.
    + apply F. repeat constructor.
Defined.

(** X12. When [ParseCommandLine] returns, it has made one call, the one
    that builds the encoder's options, from a string made of some of the
    arguments, in their order, each followed by a space; none of them is
    one of the program's own flags. *)
Theorem unknown_options_forwarded (sdk : Sdk.t) (argv : list string)
    (o o' : Opts) (p : Sdk.CLIOptions sdk) (st st' : St sdk) :
  ParseCommandLine sdk argv o st = (Val (o', p), st') ->
  exists ts,
    subseq ts (tl argv) /\ Forall no_flag ts /\
    Sdk.NvEncoderInitParam sdk (add_tokens EmptyString ts) (world sdk st)
    = Ret p (world sdk st') /\
    log sdk st'
    = log sdk st
      ++ [(NvEncoderInitParam_ (add_tokens EmptyString ts), world sdk st,
           Returned)] /\
    cout sdk st' = cout sdk st /\ fpOut sdk st' = fpOut sdk st.
Proof.
  intro H. apply ParseCommandLine_returns in H.
  destruct H as (oss & P & C & E).
  apply parses_forwards in P. destruct P as (ts & -> & Q & N).
  exists ts. split; [exact Q|]. split; [exact N|]. split; [exact C|].
  rewrite E. now repeat split.
Qed.

Lemma unknown_options_forwarded_witness :
  let argv := Mock.usage ++ ["-preset"; "p4"; "-GPU"; "0"; "-fps"; "25"] in
  let st := start Mock.sdk Mock.one_gpu in
  exists ts,
    subseq ts (tl argv) /\
    log Mock.sdk (snd (ParseCommandLine Mock.sdk argv initial_opts st))
    = [(NvEncoderInitParam_ (add_tokens EmptyString ts), Mock.one_gpu,
        Returned)].
Proof.
  intros argv st.
  destruct (unknown_options_forwarded Mock.sdk argv initial_opts
              (mkOpts "path_to_image.jpg" 0 0 NV_ENC_BUFFER_FORMAT_IYUV
                 "video.h264" 0 (-1))
              "-preset p4 -fps 25 " st
              (snd (ParseCommandLine Mock.sdk argv initial_opts st)))
    as (ts & Q & _ & _ & L & _).
  - vm_compute. reflexivity.
  - exists ts. split; [exact Q | exact L].
Defined.

(** X13. Command lines are read one after the other: when the loop gets
    through [args1], it does with [args1] followed by [args2] what it does
    with [args2] from the variables and the option string [args1] left, as
    long as [args2] is empty or starts with an option. *)
Theorem command_lines_compose (sdk : Sdk.t) (args1 args2 : list string)
    (o o1 : Opts) (oss oss1 : string) (st st1 : St sdk) :
  parse_args sdk args1 o oss st = (Val (o1, oss1), st1) ->
  starts_with_dash args2 ->
  forall st2,
    parse_args sdk (args1 ++ args2) o oss st2
    = parse_args sdk args2 o1 oss1 st2.
Proof.
  intros H D st2. apply returns_parses in H.
  now rewrite (parses_app sdk args1 o oss o1 oss1 H args2 D).
Qed.

Lemma command_lines_compose_witness :
  fst (parse_args Mock.sdk (tl Mock.usage ++ ["-gpu"; "1"; "-s"]) initial_opts
         EmptyString (start Mock.sdk Mock.one_gpu))
  = fst (parse_args Mock.sdk ["-gpu"; "1"; "-s"]
           (mkOpts "path_to_image.jpg" 0 0 NV_ENC_BUFFER_FORMAT_IYUV
              "video.h264" 0 (-1))
           EmptyString (start Mock.sdk Mock.one_gpu)).
Proof.
  rewrite (command_lines_compose Mock.sdk (tl Mock.usage) ["-gpu"; "1"; "-s"]
             initial_opts
             (mkOpts "path_to_image.jpg" 0 0 NV_ENC_BUFFER_FORMAT_IYUV
                "video.h264" 0 (-1))
             EmptyString EmptyString (start Mock.sdk Mock.one_gpu)
             (start Mock.sdk Mock.one_gpu)).
  - reflexivity.
  - vm_compute. reflexivity.
  - reflexivity.
Defined.

(** X14. A flag given again overrides: on a command line whose arguments
    fit the arrays of [main] (at most 255 bytes each), a flag and a value
    it accepts, put after a command line the loop gets through, act on the
    variables as that command line left them, and the option string stays
    as it was. So the last [-gpu], [-i] or [-o] on the command line is the
    one that counts. *)
Theorem later_flag_wins (sdk : Sdk.t) (args : list string) (a v : string)
    (o o1 o2 : Opts) (oss oss1 : string) (st st1 : St sdk) :
  Forall fits (args ++ [a; v]) ->
  parse_args sdk args o oss st = (Val (o1, oss1), st1) ->
  sets a v o1 o2 ->
  forall st2,
    parse_args sdk (args ++ [a; v]) o oss st2 = (Val (o2, oss1), st2).
Proof.
  intros _ H S st2. apply returns_parses in H.
  assert (D : starts_with_dash [a; v]).
  { simpl. destruct S as [F|F|w h F _|k F _|F|F];
      now apply (is_flag_dash _ _ F). }
  rewrite (parses_app sdk args o oss o1 oss1 H [a; v] D).
  now rewrite (parse_args_sets sdk a v [] o1 o2 oss1 S).
Qed.

Lemma later_flag_wins_witness :
  fst (parse_args Mock.sdk
         (tl Mock.usage ++ ["-gpu"; "3"] ++ ["-GPU"; "1"]) initial_opts
         EmptyString (start Mock.sdk Mock.one_gpu))
  = Val (mkOpts "path_to_image.jpg" 0 0 NV_ENC_BUFFER_FORMAT_IYUV
           "video.h264" 1 (-1), EmptyString).
Proof.
  rewrite app_assoc.
  rewrite (later_flag_wins Mock.sdk (tl Mock.usage ++ ["-gpu"; "3"])
             "-GPU" "1" initial_opts
             (mkOpts "path_to_image.jpg" 0 0 NV_ENC_BUFFER_FORMAT_IYUV
                "video.h264" 3 (-1))
             (mkOpts "path_to_image.jpg" 0 0 NV_ENC_BUFFER_FORMAT_IYUV
                "video.h264" 1 (-1))
             EmptyString EmptyString (start Mock.sdk Mock.one_gpu)
             (start Mock.sdk Mock.one_gpu)).
  - reflexivity.
  - repeat constructor; unfold fits, PATH_SIZE; simpl; lia.
  - vm_compute. reflexivity.
  - apply (sets_gpu "-GPU" "1"). reflexivity.
Defined.

(** X15. The help flag wins over what follows it: after a command line the
    loop gets through, [-h] leads into the help whatever the arguments
    behind it are, well formed or not. *)
Theorem help_flag_wins (sdk : Sdk.t) (args rest : list string) (a : string)
    (o o1 : Opts) (oss oss1 : string) (st st1 : St sdk) :
  parse_args sdk args o oss st = (Val (o1, oss1), st1) ->
  is_flag a "-h" = true ->
  forall st2,
    parse_args sdk (args ++ a :: rest) o oss st2
    = ShowHelpAndExit sdk None st2.
Proof.
  intros H F st2. apply returns_parses in H.
  assert (D : starts_with_dash (a :: rest)).
  { simpl. now apply (is_flag_dash _ _ F). }
  rewrite (parses_app sdk args o oss o1 oss1 H (a :: rest) D).
  cbn [parse_args]. now rewrite F.
Qed.

Lemma help_flag_wins_witness :
  parse_args Mock.sdk (tl Mock.usage ++ ["-H"; "-s"; "wide"; "stray"])
    initial_opts EmptyString Mock.opened
  = ShowHelpAndExit Mock.sdk None Mock.opened.
Proof.
  apply (help_flag_wins Mock.sdk (tl Mock.usage) ["-s"; "wide"; "stray"]
           "-H" initial_opts
           (mkOpts "path_to_image.jpg" 0 0 NV_ENC_BUFFER_FORMAT_IYUV
              "video.h264" 0 (-1))
           EmptyString EmptyString (start Mock.sdk Mock.one_gpu)
           (start Mock.sdk Mock.one_gpu)).
  - vm_compute. reflexivity.
  - reflexivity.
Defined.

(** X16. The program's flags are matched without regard to case: an
    argument that is one of them can be written in any mix of upper and
    lower case, and the loop does the same with it. *)
Theorem flags_ignore_case (sdk : Sdk.t) (a b : string) (rest : list string)
    (o : Opts) (oss : string) :
  strlwr a = strlwr b -> ~ no_flag a ->
  parse_args sdk (a :: rest) o oss = parse_args sdk (b :: rest) o oss.
Proof.
  intros E N. cbn [parse_args].
  rewrite !(is_flag_strlwr a b _ E).
  destruct (is_flag b "-h") eqn:Hh; [reflexivity|].
  destruct (is_flag b "-i") eqn:Hi; [reflexivity|].
  destruct (is_flag b "-o") eqn:Ho; [reflexivity|].
  destruct (is_flag b "-s") eqn:Hs; [reflexivity|].
  destruct (is_flag b "-if") eqn:Hf; [reflexivity|].
  destruct (is_flag b "-gpu") eqn:Hg; [reflexivity|].
  destruct (is_flag b "-cuStreamType") eqn:Hc; [reflexivity|].
  elim N. unfold no_flag. rewrite !(is_flag_strlwr a b _ E).
  now repeat split.
Qed.

Lemma flags_ignore_case_witness :
  parse_args Mock.sdk ["-CuStreamTYPE"; "2"] initial_opts EmptyString
  = parse_args Mock.sdk ["-custreamtype"; "2"] initial_opts EmptyString.
Proof.
  apply (flags_ignore_case Mock.sdk "-CuStreamTYPE" "-custreamtype").
  - reflexivity.
  - intros (_ & _ & _ & _ & _ & _ & H). discriminate H.
Defined.

End Parsing.

(** ** The output file *)

Module OutputFile.
Import CLib App Hoare Trace MonadFacts ParseFacts EncodeFacts MainFacts
  TraceFacts OutcomeFacts LoopFacts TryFacts.
Local Open Scope list_scope.

(** X17. At the end of every run of the program, however it ends, the
    output stream holds exactly the packets the encoder returned during the
    run, in the order it returned them: nothing when the file was not
    opened or could not be, and what was encoded so far when the encoding
    was cut short. *)
Theorem file_holds_packets (sdk : Sdk.t) (argv : list string)
    (w : Sdk.World sdk) :
  let st' := snd (main sdk argv (start sdk w)) in
  written (fpOut sdk st') = List.concat (emitted sdk (log sdk st')) /\
  contents (fpOut sdk st')
  = List.concat (List.concat (emitted sdk (log sdk st'))).
Proof.
  intro st'. subst st'.
  destruct (main_state sdk argv (start sdk w)) as [-> ->].
  assert (W : written (fpOut sdk (snd (main_try sdk argv (start sdk w))))
              = List.concat
                  (emitted sdk
                     (log sdk (snd (main_try sdk argv (start sdk w)))))).
  { destruct (main_try sdk argv (start sdk w)) as [r s] eqn:E.
    apply (main_try_file sdk argv (start sdk w) r s); [|exact E].
    now split. }
  split; [exact W|]. unfold contents. now rewrite W.
Qed.

End OutputFile.

(** ** Frames and messages *)

Module Frames.
Import CLib App Hoare Trace MonadFacts ParseFacts EncodeFacts MainFacts
  TraceFacts OutcomeFacts LoopFacts TryFacts FrameFacts ReportFacts.
Local Open Scope list_scope.

(** X18. In every run of [EncodeCuda], each input frame the encoder hands
    out is filled by the very next call: a copy from the image at [srcIn],
    with source pitch 0 and memory type host, into the buffer of that frame,
    with the frame's pitch (as an [int]), format and chroma planes, and the
    width and height the encoder has at that moment. The run never stops
    between the two: the copy is issued whenever a frame was handed out. *)
Theorem frames_filled_from_image (sdk : Sdk.t) nWidth nHeight encodeCLIOptions
    cuContext srcIn (st : St sdk) :
  let run :=
    EncodeCuda sdk nWidth nHeight encodeCLIOptions cuContext srcIn st in
  exists new,
    log sdk (snd run) = log sdk st ++ new /\
    pairwise sdk (copy_into sdk cuContext srcIn) new /\
    forall l e, new = l ++ [e] -> ~ handed_out sdk e.
Proof.
  intro run. subst run.
  apply (EncodeCuda_fills sdk cuContext srcIn nWidth nHeight encodeCLIOptions
           st).
Qed.

(** X19. A run in which control reaches the end of the [try] block, on a
    command line whose arguments fit the arrays of [main] (at most 255
    bytes each), has printed three lines and nothing else. The first has
    the name the driver gave for the device it looked up for the ordinal
    the command line left in [iGpu]; the second the number of packets the
    encoder returned during the run, as [nFrame] counts them, which is their
    number as long as an [int] holds it; the third the path of the output
    file as the command line gave it. The exit status is 0. *)
Theorem success_transcript (sdk : Sdk.t) (argv : list string)
    (st st' : St sdk) :
  Forall fits (tl argv) ->
  main_try sdk argv st = (Val None, st') ->
  let new := added sdk (log sdk st) (log sdk st') in
  exists o oss dev name,
    parses (tl argv) initial_opts EmptyString o oss /\
    fits (szOutputFileName o) /\
    log sdk st' = log sdk st ++ new /\
    Exists (looked_up sdk (iGpu o) dev) new /\
    Exists (named sdk dev name) new /\
    cout sdk st'
    = (((cout sdk st ++ ("GPU in use: " ++ name ++ endl))
        ++ ("Total frames encoded: "
            ++ string_of_int (tally 0 (emitted sdk new)) ++ endl))
       ++ ("Bitstream saved in file " ++ szOutputFileName o ++ endl))%string /\
    (Z.of_nat (List.length (List.concat (emitted sdk new))) <= INT_MAX ->
     tally 0 (emitted sdk new)
     = Z.of_nat (List.length (List.concat (emitted sdk new)))) /\
    main sdk argv st = (0, st').
Proof.
  intros F H new. assert (M : main sdk argv st = (0, st')).
  { unfold main. now rewrite H. }
  unfold main_try in H.
  apply bind_inv in H. destruct H as (l & s1 & Hp & H).
  apply bind_inv in H. destruct H as (x & s2 & Hl & H).
  destruct (main_parse_parses sdk argv st l s1 Hp) as (oss & P).
  pose proof (main_parse_cout sdk argv st l s1 Hp) as C1.
  destruct (main_parse_mute sdk argv st) as (_ & n1 & L1 & E1).
  rewrite Hp in L1. cbn [snd] in L1.
  pose proof (main_load_same_cout sdk l s1) as C2. rewrite Hl in C2.
  cbn [snd] in C2. unfold same_cout in C2.
  destruct (main_load_mute sdk l s1) as (_ & n2 & L2 & E2).
  rewrite Hl in L2. cbn [snd] in L2.
  destruct (main_load_returns sdk l s1 x s2 Hl) as (m & w & _ & O & _).
  unfold main_encode in H. cbv zeta in H.
  destruct (out_of_range _ _); [discriminate H|].
  apply bind_inv in H. destruct H as (c & s3 & Hd & H).
  apply main_device_returns in Hd.
  destruct Hd as (dev & name & n3 & L3 & X1 & X2 & E3 & _ & C3).
  apply main_output_returns in H.
  destruct H as (w4 & s4 & _ & He & _ & ->).
  apply EncodeCuda_returns in He. destruct He as (n5 & L5 & _ & _ & C4).
  cbn [cout log] in C4, L5.
  assert (N : new
              = n1 ++ n2 ++ n3
                ++ (ofstream_open_ (szOutputFileName (opts sdk (locals sdk x))),
                    world sdk s3, Returned) :: n5).
  { unfold new. cbn [log]. rewrite L5, L3, L2, L1.
    rewrite <- !app_assoc. rewrite added_app. reflexivity. }
  assert (V : emitted sdk new = emitted sdk n5).
  { rewrite N, !emitted_app, E1, E2, E3. reflexivity. }
  rewrite O in X1. cbn [iGpu set_size] in X1.
  exists (opts sdk l), oss, dev, name.
  split; [exact P|]. split.
  { apply (parses_fits _ _ _ _ _ P F initial_opts_fit). }
  split.
  { cbn [log]. rewrite L5, L3, L2, L1, N. now rewrite <- !app_assoc. }
  split.
  { rewrite N. apply Exists_app. right. apply Exists_app. right.
    apply Exists_app. now left. }
  split.
  { rewrite N. apply Exists_app. right. apply Exists_app. right.
    apply Exists_app. now left. }
  split.
  { cbn [cout]. rewrite V, C4, C3, C2, C1, O. reflexivity. }
  split; [|exact M].
  intro Hmax. rewrite (tally_exact (emitted sdk new) 0); unfold INT_MAX in *;
    lia.
Qed.

Lemma success_transcript_witness :
  let run := main_try Mock.sdk Mock.usage (start Mock.sdk Mock.one_gpu) in
  cout Mock.sdk (snd run)
  = ("GPU in use: Mock GPU" ++ endl
     ++ "Total frames encoded: 375" ++ endl
     ++ "Bitstream saved in file video.h264" ++ endl)%string /\
  main Mock.sdk Mock.usage (start Mock.sdk Mock.one_gpu) = (0, snd run).
Proof.
  intro run.
  assert (H : main_try Mock.sdk Mock.usage (start Mock.sdk Mock.one_gpu)
              = (Val None, snd run)).
  { apply run_pair. vm_compute. reflexivity. }
  assert (F : Forall fits (tl Mock.usage))
    by (repeat constructor; unfold fits, PATH_SIZE; simpl; lia).
  destruct (success_transcript Mock.sdk Mock.usage _ _ F H)
    as (o & oss & dev & name & P & _ & _ & _ & X & C & _ & M).
  split; [|exact M].
  apply Exists_exists in X. destruct X as (e & _ & _ & N).
  cbn in N. subst name.
  apply (parses_returns Mock.sdk) in P.
  apply (f_equal (fun m => fst (m (start Mock.sdk Mock.one_gpu)))) in P.
  vm_compute in P. inversion P. subst o oss.
  rewrite C. vm_compute. reflexivity.
Defined.

End Frames.
